(** * Call signalling and media-session lifecycle of the dashcam admin console

    A shallow embedding of the React component [App] of the admin console,
    in its two variants with audio and video calls:

    - [src/src/App.tsx]       (module [AppTsx]),
    - [src/unnamed/part_001]  (module [Part001]), the variant with the
      candidate codec [parseIceCandidate], the TURN endpoint, the ICE-state
      handler and the end notification on failure.

    ([src/unnamed/part_000] is an earlier, audio-only text of the same
    component; nothing below depends on it.)

    The component is event driven.  Its state is made of the React state
    variables, of the four refs, and of the parts of the browser the
    handlers talk to: the peer connections created so far, the local capture
    tracks that were stopped, [sessionStorage], what was emitted on the
    socket, the timer queue and the animation-frame queue.

    Conventions of the model:

    - a browser call whose outcome the program cannot decide
      ([getUserMedia], [createOffer], [setRemoteDescription],
      [addIceCandidate], [play]) takes its outcome from an [Oracle];
    - a handler runs to completion: the continuation of an [await] or of a
      [then] runs before the next event is handled;
    - a handler reads [isVideoCall] from the state; the handlers installed
      on a connection keep the value and the peer that their closure
      captured ([Closure]);
    - a render follows every event: it mounts and unmounts the [audio] and
      [video] elements as the JSX says and runs the cleanup of the effect
      when [isVideoCall] changed;
    - the level computed from the analyser involves floating-point
      rounding and is left to the oracle; the media events of the elements
      ([onloadedmetadata], [onplaying], [onerror]) are not modelled. *)

From stdpp Require Import base list strings gmap.
From Stdlib Require Import ZArith NArith Ascii Lia.

Open Scope string_scope.

(** ** JavaScript strings as sequences of UTF-16 code units *)

Abbreviation ustring := (list N).

(** The code units of an ASCII literal. *)
Definition lit (s : string) : ustring :=
  (fun a => N_of_ascii a) <$> String.list_ascii_of_string s.

(** *** Character classes of the regular expressions of [parseIceCandidate] *)

(** [\d] *)
Definition is_digit (c : N) : bool := ((48 <=? c) && (c <=? 57))%N.

(** [\w] : [A-Za-z0-9_] *)
Definition is_word (c : N) : bool :=
  (is_digit c
   || ((65 <=? c) && (c <=? 90))
   || ((97 <=? c) && (c <=? 122))
   || (c =? 95))%N.

(** Line terminators: LF, CR, LS, PS. *)
Definition is_line_terminator (c : N) : bool :=
  ((c =? 10) || (c =? 13) || (c =? 8232) || (c =? 8233))%N.

(** [\s] : white space and line terminators of ECMAScript. *)
Definition is_space (c : N) : bool :=
  ((c =? 9) || (c =? 11) || (c =? 12) || (c =? 32) || (c =? 160)
   || (c =? 5760) || ((8192 <=? c) && (c <=? 8202))
   || (c =? 8239) || (c =? 8287) || (c =? 12288) || (c =? 65279)
   || is_line_terminator c)%N.

(** [\S] *)
Definition is_nonspace (c : N) : bool := negb (is_space c).

(** [.] (without the [s] flag) *)
Definition is_dot (c : N) : bool := negb (is_line_terminator c).

(** ** A backtracking matcher for the regular expressions of the codec

    Every regular expression of [parseIceCandidate] is a sequence of
    literals and of capture groups holding one greedy class repetition:
    non-space+, digit+, word+ or dot-star. *)

Inductive item : Type :=
  | Lit (l : ustring)                      (* literal text *)
  | Cap (cls : N -> bool) (min : nat).     (* (cls{min,}) , greedy *)

(** [starts_with l s] : [l] is a prefix of [s]. *)
Fixpoint starts_with (l s : ustring) : bool :=
  match l, s with
  | [], _ => true
  | a :: l', b :: s' => (a =? b)%N && starts_with l' s'
  | _ :: _, [] => false
  end.

(** Length of the longest prefix of [s] whose code units are all in [cls]. *)
Fixpoint span (cls : N -> bool) (s : ustring) : nat :=
  match s with
  | c :: s' => if cls c then S (span cls s') else 0
  | [] => 0
  end.

(** Greedy repetition with backtracking: try the continuation [k] after a
    capture of [n] code units, then [n-1], ... down to [min]. *)
Definition backtrack (k : ustring -> option (list ustring)) (min : nat)
    (s : ustring) : nat -> option (list ustring) :=
  fix go (n : nat) : option (list ustring) :=
    if (n <? min)%nat then None
    else match k (drop n s) with
         | Some caps => Some (take n s :: caps)
         | None => match n with
                   | 0 => None
                   | S n' => go n'
                   end
         end.

(** Match [items] at the beginning of [s]; the result lists the captures. *)
Fixpoint match_here (items : list item) (s : ustring) : option (list ustring) :=
  match items with
  | [] => Some []
  | Lit l :: items' =>
      if starts_with l s then match_here items' (drop (length l) s) else None
  | Cap cls min :: items' =>
      backtrack (match_here items') min s (span cls s)
  end.

(** [String.prototype.match] with a non-global regular expression: the
    leftmost match; [None] is JavaScript's [null]. *)
Fixpoint re_match (items : list item) (s : ustring) : option (list ustring) :=
  match match_here items s with
  | Some caps => Some caps
  | None => match s with
            | [] => None
            | _ :: s' => re_match items s'
            end
  end.

(** The expression of [parseIceCandidate]: the literal [candidate:], then
    the groups foundation (non-space+), component (digit+), protocol (word+),
    priority (digit+), ip (non-space+), port (digit+) separated by one space,
    the literal [ typ ], the group type (word+) and the group rest
    (dot-star). *)
Definition candidate_re : list item :=
  [ Lit (lit "candidate:"); Cap is_nonspace 1;
    Lit (lit " "); Cap is_digit 1;
    Lit (lit " "); Cap is_word 1;
    Lit (lit " "); Cap is_digit 1;
    Lit (lit " "); Cap is_nonspace 1;
    Lit (lit " "); Cap is_digit 1;
    Lit (lit " typ "); Cap is_word 1;
    Cap is_dot 0 ].

(** The three expressions applied to [rest]: [sdpMid ] and a non-space+
    group, [sdpMLineIndex ] and a digit+ group, [ufrag ] and a non-space+
    group. *)
Definition sdpMid_re : list item := [ Lit (lit "sdpMid "); Cap is_nonspace 1 ].
Definition sdpMLineIndex_re : list item := [ Lit (lit "sdpMLineIndex "); Cap is_digit 1 ].
Definition ufrag_re : list item := [ Lit (lit "ufrag "); Cap is_nonspace 1 ].

(** ** Values of the browser APIs the component uses *)

(** A JavaScript property that may be absent ([undefined]) or [null]. *)
Inductive js (A : Type) : Type :=
  | Undefined
  | Null
  | Val (a : A).
Arguments Undefined {A}.
Arguments Null {A}.
Arguments Val {A} a.

(** Truthiness of a string-valued property: absent, [null] and the empty
    string are falsy. *)
Definition truthy (v : js ustring) : bool :=
  match v with
  | Val (_ :: _) => true
  | _ => false
  end.

(** [v !== undefined] *)
Definition defined {A : Type} (v : js A) : bool :=
  match v with
  | Undefined => false
  | _ => true
  end.

(** Outcome of a promise (or of a call that may throw); a rejection carries
    the [name] and the [message] of the error. *)
Inductive Result (A : Type) : Type :=
  | Resolved (a : A)
  | Rejected (name message : string).
Arguments Resolved {A} a.
Arguments Rejected {A} name message.

(** [MediaStreamTrack.kind] *)
Inductive TrackKind : Type := audio | video.

Record MediaStreamTrack : Type := {
  track_id : nat;
  kind : TrackKind;
}.

(** A [MediaStream] is the list [getTracks()] returns. *)
Record MediaStream : Type := { getTracks : list MediaStreamTrack }.

(** [RTCTrackEvent] *)
Record RTCTrackEvent : Type := {
  track : MediaStreamTrack;
  streams : list MediaStream;
}.

(** The [audio] and [video] elements behind [audioRef] and [videoRef]. *)
Record HTMLMediaElement : Type := {
  srcObject : option MediaStream;
  muted : bool;
}.

(** [RTCIceCandidateInit] *)
Record RTCIceCandidateInit : Type := {
  candidate : js ustring;
  sdpMid : js ustring;
  sdpMLineIndex : js N;
  usernameFragment : js ustring;
}.

(** [RTCSessionDescription] : its [type] and its [sdp]. *)
Record RTCSessionDescription : Type := {
  sd_type : string;
  sd_sdp : string;
}.

(** [RTCPeerConnection.connectionState] *)
Inductive RTCPeerConnectionState : Type :=
  | st_new | st_connecting | st_connected
  | st_disconnected | st_failed | st_closed.

(** [RTCPeerConnection.iceConnectionState] *)
Inductive RTCIceConnectionState : Type :=
  | ice_new | ice_checking | ice_connected | ice_completed
  | ice_failed | ice_disconnected | ice_closed.

Definition state_name (s : RTCPeerConnectionState) : string :=
  match s with
  | st_new => "new"
  | st_connecting => "connecting"
  | st_connected => "connected"
  | st_disconnected => "disconnected"
  | st_failed => "failed"
  | st_closed => "closed"
  end.

Definition is_connected (s : RTCPeerConnectionState) : bool :=
  match s with st_connected => true | _ => false end.

Definition is_closed (s : RTCPeerConnectionState) : bool :=
  match s with st_closed => true | _ => false end.

(** What the handlers installed on a connection captured when the [ready]
    branch ran: the sender [from] of the message and the [isVideoCall] of
    the render the socket handler belongs to. *)
Record Closure : Type := {
  cl_from : string;
  cl_isVideoCall : bool;
}.

(** An [RTCPeerConnection] object.  [handlers] is [None] until [ontrack],
    [onicecandidate] and the state-change handlers are assigned. *)
Record RTCPeerConnection : Type := {
  iceServers : list string;
  connectionState : RTCPeerConnectionState;
  iceConnectionState : RTCIceConnectionState;
  localDescription : option RTCSessionDescription;
  remoteDescription : option RTCSessionDescription;
  senders : list MediaStreamTrack;              (* addTrack *)
  remoteCandidates : list RTCIceCandidateInit;  (* addIceCandidate *)
  handlers : option Closure;
}.

(** The candidate of a signalling message: a legacy string or a structured
    record. *)
Inductive CandidateWire : Type :=
  | CandStr (s : ustring)
  | CandObj (c : RTCIceCandidateInit).

(** [data.candidate] is truthy unless it is the empty string. *)
Definition wire_truthy (c : CandidateWire) : bool :=
  match c with
  | CandStr [] => false
  | _ => true
  end.

(** The [data] of a message on the [webrtc-signal] and
    [webrtc-video-signal] channels; an absent property is [None]. *)
Record SignalData : Type := {
  data_type : option string;
  data_sdp : string;
  data_candidate : option CandidateWire;
}.

(** Payloads of [socket.emit]. *)
Inductive Payload : Type :=
  | to_device (deviceId : string)                       (* { deviceId } *)
  | to_peer (to : string)                               (* { to } *)
  | description_for (to : string) (d : option RTCSessionDescription)
                                                        (* { to, data: pc.localDescription } *)
  | candidate_for (to : string) (c : RTCIceCandidateInit).
                                                        (* { to, data: { candidate } } *)

(** Callbacks waiting in the timer queue. *)
Inductive TimerAction : Type :=
  | status_ready                           (* () => setCallStatus("Ready to call") *)
  | attach_video (t : MediaStreamTrack).   (* the delayed attachment of App.tsx *)

(** Outcomes of the browser calls made while one handler runs. *)
Record Oracle : Type := {
  getUserMedia : Result MediaStream;        (* navigator.mediaDevices.getUserMedia *)
  createOffer : Result string;              (* createOffer, then setLocalDescription *)
  setRemoteDescription : Result unit;
  addIceCandidate : Result unit;            (* new RTCIceCandidate, then addIceCandidate *)
  play_audio : Result unit;                 (* audioRef.current.play() *)
  play_video : Result unit;                 (* videoRef.current.play() *)
  byteFrequencyLevel : MediaStream -> Z;    (* the rounded level an analyser yields *)
  type_error : string;                      (* message of the TypeError raised by
                                               createMediaStreamSource(undefined) *)
}.

(** ** The state of the component *)

Record State : Type := mkState {
  (* refs *)
  pcRef : option nat;                       (* index in [pcs] *)
  audioRef : option HTMLMediaElement;
  videoRef : option HTMLMediaElement;
  localStreamRef : option MediaStream;
  (* React state *)
  callStatus : string;
  audioLevel : Z;
  isCallActive : bool;
  isVideoCall : bool;
  videoStats : string;
  (* browser *)
  pcs : list RTCPeerConnection;             (* every connection created so far *)
  stopped : gset nat;                       (* ids of the tracks that were stopped *)
  sessionStorage : gmap string string;
  emitted : list (string * Payload);        (* socket.emit, oldest first *)
  timers : list (nat * TimerAction);        (* setTimeout: delay in ms, callback *)
  rafQueue : list MediaStream;              (* requestAnimationFrame(updateLevel) *)
  sampleLog : list Z;                       (* levels written by updateLevel *)
}.

(** The state before the first render: [useRef(null)], [useState(...)]. *)
Definition initial : State :=
  mkState None None None None "Ready to call" 0%Z false false ""
          [] ∅ ∅ [] [] [] [].

(** *** Field updates

    [setCallStatus] ... [setVideoStats] are the setters of [useState]; the
    others assign a ref or a part of the browser state. *)

Definition set_pcRef v (st : State) : State :=
  mkState v (audioRef st) (videoRef st) (localStreamRef st) (callStatus st) (audioLevel st)
          (isCallActive st) (isVideoCall st) (videoStats st) (pcs st) (stopped st)
          (sessionStorage st) (emitted st) (timers st) (rafQueue st) (sampleLog st).
Definition set_audioRef v (st : State) : State :=
  mkState (pcRef st) v (videoRef st) (localStreamRef st) (callStatus st) (audioLevel st)
          (isCallActive st) (isVideoCall st) (videoStats st) (pcs st) (stopped st)
          (sessionStorage st) (emitted st) (timers st) (rafQueue st) (sampleLog st).
Definition set_videoRef v (st : State) : State :=
  mkState (pcRef st) (audioRef st) v (localStreamRef st) (callStatus st) (audioLevel st)
          (isCallActive st) (isVideoCall st) (videoStats st) (pcs st) (stopped st)
          (sessionStorage st) (emitted st) (timers st) (rafQueue st) (sampleLog st).
Definition set_localStreamRef v (st : State) : State :=
  mkState (pcRef st) (audioRef st) (videoRef st) v (callStatus st) (audioLevel st)
          (isCallActive st) (isVideoCall st) (videoStats st) (pcs st) (stopped st)
          (sessionStorage st) (emitted st) (timers st) (rafQueue st) (sampleLog st).
Definition setCallStatus v (st : State) : State :=
  mkState (pcRef st) (audioRef st) (videoRef st) (localStreamRef st) v (audioLevel st)
          (isCallActive st) (isVideoCall st) (videoStats st) (pcs st) (stopped st)
          (sessionStorage st) (emitted st) (timers st) (rafQueue st) (sampleLog st).
Definition setAudioLevel v (st : State) : State :=
  mkState (pcRef st) (audioRef st) (videoRef st) (localStreamRef st) (callStatus st) v
          (isCallActive st) (isVideoCall st) (videoStats st) (pcs st) (stopped st)
          (sessionStorage st) (emitted st) (timers st) (rafQueue st) (sampleLog st).
Definition setIsCallActive v (st : State) : State :=
  mkState (pcRef st) (audioRef st) (videoRef st) (localStreamRef st) (callStatus st) (audioLevel st)
          v (isVideoCall st) (videoStats st) (pcs st) (stopped st)
          (sessionStorage st) (emitted st) (timers st) (rafQueue st) (sampleLog st).
Definition setIsVideoCall v (st : State) : State :=
  mkState (pcRef st) (audioRef st) (videoRef st) (localStreamRef st) (callStatus st) (audioLevel st)
          (isCallActive st) v (videoStats st) (pcs st) (stopped st)
          (sessionStorage st) (emitted st) (timers st) (rafQueue st) (sampleLog st).
Definition setVideoStats v (st : State) : State :=
  mkState (pcRef st) (audioRef st) (videoRef st) (localStreamRef st) (callStatus st) (audioLevel st)
          (isCallActive st) (isVideoCall st) v (pcs st) (stopped st)
          (sessionStorage st) (emitted st) (timers st) (rafQueue st) (sampleLog st).
Definition set_pcs v (st : State) : State :=
  mkState (pcRef st) (audioRef st) (videoRef st) (localStreamRef st) (callStatus st) (audioLevel st)
          (isCallActive st) (isVideoCall st) (videoStats st) v (stopped st)
          (sessionStorage st) (emitted st) (timers st) (rafQueue st) (sampleLog st).
Definition set_stopped v (st : State) : State :=
  mkState (pcRef st) (audioRef st) (videoRef st) (localStreamRef st) (callStatus st) (audioLevel st)
          (isCallActive st) (isVideoCall st) (videoStats st) (pcs st) v
          (sessionStorage st) (emitted st) (timers st) (rafQueue st) (sampleLog st).
Definition set_sessionStorage v (st : State) : State :=
  mkState (pcRef st) (audioRef st) (videoRef st) (localStreamRef st) (callStatus st) (audioLevel st)
          (isCallActive st) (isVideoCall st) (videoStats st) (pcs st) (stopped st)
          v (emitted st) (timers st) (rafQueue st) (sampleLog st).
Definition set_emitted v (st : State) : State :=
  mkState (pcRef st) (audioRef st) (videoRef st) (localStreamRef st) (callStatus st) (audioLevel st)
          (isCallActive st) (isVideoCall st) (videoStats st) (pcs st) (stopped st)
          (sessionStorage st) v (timers st) (rafQueue st) (sampleLog st).
Definition set_timers v (st : State) : State :=
  mkState (pcRef st) (audioRef st) (videoRef st) (localStreamRef st) (callStatus st) (audioLevel st)
          (isCallActive st) (isVideoCall st) (videoStats st) (pcs st) (stopped st)
          (sessionStorage st) (emitted st) v (rafQueue st) (sampleLog st).
Definition set_rafQueue v (st : State) : State :=
  mkState (pcRef st) (audioRef st) (videoRef st) (localStreamRef st) (callStatus st) (audioLevel st)
          (isCallActive st) (isVideoCall st) (videoStats st) (pcs st) (stopped st)
          (sessionStorage st) (emitted st) (timers st) v (sampleLog st).
Definition set_sampleLog v (st : State) : State :=
  mkState (pcRef st) (audioRef st) (videoRef st) (localStreamRef st) (callStatus st) (audioLevel st)
          (isCallActive st) (isVideoCall st) (videoStats st) (pcs st) (stopped st)
          (sessionStorage st) (emitted st) (timers st) (rafQueue st) v.

(** Updates of one connection object. *)

Definition pc_set_connectionState v (pc : RTCPeerConnection) : RTCPeerConnection :=
  Build_RTCPeerConnection (iceServers pc) v (iceConnectionState pc) (localDescription pc)
    (remoteDescription pc) (senders pc) (remoteCandidates pc) (handlers pc).
Definition pc_set_iceConnectionState v (pc : RTCPeerConnection) : RTCPeerConnection :=
  Build_RTCPeerConnection (iceServers pc) (connectionState pc) v (localDescription pc)
    (remoteDescription pc) (senders pc) (remoteCandidates pc) (handlers pc).
Definition pc_set_localDescription v (pc : RTCPeerConnection) : RTCPeerConnection :=
  Build_RTCPeerConnection (iceServers pc) (connectionState pc) (iceConnectionState pc) v
    (remoteDescription pc) (senders pc) (remoteCandidates pc) (handlers pc).
Definition pc_set_remoteDescription v (pc : RTCPeerConnection) : RTCPeerConnection :=
  Build_RTCPeerConnection (iceServers pc) (connectionState pc) (iceConnectionState pc) (localDescription pc)
    v (senders pc) (remoteCandidates pc) (handlers pc).
Definition pc_set_senders v (pc : RTCPeerConnection) : RTCPeerConnection :=
  Build_RTCPeerConnection (iceServers pc) (connectionState pc) (iceConnectionState pc) (localDescription pc)
    (remoteDescription pc) v (remoteCandidates pc) (handlers pc).
Definition pc_set_remoteCandidates v (pc : RTCPeerConnection) : RTCPeerConnection :=
  Build_RTCPeerConnection (iceServers pc) (connectionState pc) (iceConnectionState pc) (localDescription pc)
    (remoteDescription pc) (senders pc) v (handlers pc).
Definition pc_set_handlers v (pc : RTCPeerConnection) : RTCPeerConnection :=
  Build_RTCPeerConnection (iceServers pc) (connectionState pc) (iceConnectionState pc) (localDescription pc)
    (remoteDescription pc) (senders pc) (remoteCandidates pc) v.

(** ** Operations shared by both variants *)

(** [socket.emit(event, payload)] *)
Definition emit (event : string) (p : Payload) (st : State) : State :=
  set_emitted (emitted st ++ [(event, p)]) st.

(** [setTimeout(f, ms)] *)
Definition setTimeout (f : TimerAction) (ms : nat) (st : State) : State :=
  set_timers (timers st ++ [(ms, f)]) st.

(** [requestAnimationFrame(updateLevel)], for the [updateLevel] closure of
    the analyser fed by [stream]. *)
Definition requestAnimationFrame (stream : MediaStream) (st : State) : State :=
  set_rafQueue (rafQueue st ++ [stream]) st.

(** The object [pcRef.current] points to. *)
Definition current_pc (st : State) : option RTCPeerConnection :=
  p ← pcRef st; pcs st !! p.

(** In-place update of connection [p]. *)
Definition update_pc (p : nat) (f : RTCPeerConnection -> RTCPeerConnection)
    (st : State) : State :=
  set_pcs (alter f p (pcs st)) st.

(** [new RTCPeerConnection({ iceServers })] : the new object and its index. *)
Definition new_RTCPeerConnection (servers : list string) (st : State) : nat * State :=
  (length (pcs st),
   set_pcs (pcs st ++ [Build_RTCPeerConnection servers st_new ice_new None None [] [] None]) st).

(** [pc.close()] *)
Definition close (p : nat) (st : State) : State :=
  update_pc p (fun pc => pc_set_iceConnectionState ice_closed
                           (pc_set_connectionState st_closed pc)) st.

(** [stream.getTracks().forEach((track) => track.stop())] *)
Definition stop_tracks (stream : MediaStream) (st : State) : State :=
  set_stopped (stopped st ∪ list_to_set (track_id <$> getTracks stream)) st.

(** [el.srcObject = s] on the element of a ref, when the ref is set. *)
Definition set_srcObject (s : option MediaStream) (el : HTMLMediaElement) : HTMLMediaElement :=
  {| srcObject := s; muted := muted el |}.

(** A string is truthy unless it is empty. *)
Definition nonempty (s : string) : bool := negb (String.eqb s "").

(** [endCall], the same text in both variants. *)
Definition endCall (st : State) : State :=
  let st :=
    match pcRef st with
    | Some p =>
        let remoteSocketId :=
          match current_pc st ≫= remoteDescription with
          | Some d =>
              if nonempty (sd_type d)
              then default "" (sessionStorage st !! "dashcam-socket-id")
              else ""
          | None => ""
          end in
        let st := emit (if isVideoCall st then "end-video-call" else "end-call")
                       (to_peer remoteSocketId) st in
        let st := close p st in
        set_pcRef None st
    | None => st
    end in
  let st := set_audioRef (set_srcObject None <$> audioRef st) st in
  let st := set_videoRef (set_srcObject None <$> videoRef st) st in
  let st :=
    match localStreamRef st with
    | Some localStream => set_localStreamRef None (stop_tracks localStream st)
    | None => st
    end in
  let st := setCallStatus "Call ended" st in
  let st := setIsCallActive false st in
  let st := setIsVideoCall false st in
  let st := setAudioLevel 0%Z st in
  let st := setVideoStats "" st in
  setTimeout status_ready 2000 st.

(** [updateLevel], the closure [setupAudioLevelMonitoring(stream)] builds:
    one sample and one re-scheduling while [pcRef.current] is connected,
    nothing otherwise. *)
Definition updateLevel (o : Oracle) (stream : MediaStream) (st : State) : State :=
  match connectionState <$> current_pc st with
  | Some st_connected =>
      let level := byteFrequencyLevel o stream in
      let st := setAudioLevel level st in
      let st := set_sampleLog (sampleLog st ++ [level]) st in
      requestAnimationFrame stream st
  | _ => st
  end.

(** [setupAudioLevelMonitoring] builds the analyser and calls [updateLevel]
    once. *)
Definition setupAudioLevelMonitoring (o : Oracle) (stream : MediaStream)
    (st : State) : State :=
  updateLevel o stream st.

(** One animation frame: every callback queued so far runs once; what the
    callbacks queue is left for the next frame. *)
Definition animationFrame (o : Oracle) (st : State) : State :=
  foldl (fun s stream => updateLevel o stream s) (set_rafQueue [] st) (rafQueue st).

(** [frames o n st] : [n] animation frames in a row. *)
Fixpoint frames (o : Oracle) (n : nat) (st : State) : State :=
  match n with
  | 0 => st
  | S n' => frames o n' (animationFrame o st)
  end.

(** The socket handler of [call-ended] and of [video-call-ended]. *)
Definition on_call_ended (st : State) : State :=
  if isVideoCall st then st else endCall st.

Definition on_video_call_ended (st : State) : State :=
  if isVideoCall st then endCall st else st.

(** The socket handler of [error]. *)
Definition on_error (message : string) (st : State) : State :=
  let st := setCallStatus ("Error: " ++ message) st in
  let st := setIsCallActive false st in
  setIsVideoCall false st.

(** The cleanup of the effect, run when its dependency [isVideoCall]
    changed between two renders: [if (pcRef.current) pcRef.current.close()]. *)
Definition effect_cleanup (st : State) : State :=
  match pcRef st with
  | Some p => close p st
  | None => st
  end.

(** A freshly mounted [audio] or [video] element. *)
Definition mounted (is_muted : bool) (ref : option HTMLMediaElement) : option HTMLMediaElement :=
  match ref with
  | Some el => Some el
  | None => Some {| srcObject := None; muted := is_muted |}
  end.

(** A connection delivers events to the handlers it was given, and none
    once it is closed. *)
Definition pc_event (p : nat) (k : Closure -> State -> State) (st : State) : State :=
  match pcs st !! p with
  | Some pc =>
      if is_closed (connectionState pc) then st
      else match handlers pc with
           | Some cl => k cl st
           | None => st
           end
  | None => st
  end.

(** A state change of the engine: the field of the connection is updated,
    then the handler runs. *)
Definition pc_state_event (p : nat) (f : RTCPeerConnection -> RTCPeerConnection)
    (k : Closure -> State -> State) (st : State) : State :=
  match pcs st !! p with
  | Some pc =>
      if is_closed (connectionState pc) then st
      else
        let st := update_pc p f st in
        match handlers pc with
        | Some cl => k cl st
        | None => st
        end
  | None => st
  end.

(** Events the browser and the relay deliver to the component. *)
Inductive Event : Type :=
  | click_start_audio                       (* button "Start Audio Call" *)
  | click_start_video                       (* button "Start Video Call" *)
  | click_end                               (* button "End Call" *)
  | socket_signal (from : string) (data : SignalData)        (* webrtc-signal *)
  | socket_video_signal (from : string) (data : SignalData)  (* webrtc-video-signal *)
  | socket_call_ended
  | socket_video_call_ended
  | socket_error (message : string)
  | socket_connect
  | socket_connect_error (message : string)
  | pc_track (p : nat) (event : RTCTrackEvent)
  | pc_icecandidate (p : nat) (c : option RTCIceCandidateInit)
  | pc_connectionstatechange (p : nat) (s : RTCPeerConnectionState)
  | pc_iceconnectionstatechange (p : nat) (s : RTCIceConnectionState)
  | timer_fired (i : nat)                   (* the i-th pending timer *)
  | animation_frame.

(** ** Variant [src/src/App.tsx] *)

Module AppTsx.

Definition ice_servers : list string :=
  [ "stun:stun.l.google.com:19302";
    "stun:stun1.l.google.com:19302";
    "stun:stun2.l.google.com:19302" ].

Definition startAudioCall (st : State) : State :=
  let st := setCallStatus "Initiating audio call via socket..." st in
  let st := emit "start-call" (to_device "dashcam-002") st in
  let st := setIsCallActive true st in
  setIsVideoCall false st.

Definition startVideoCall (st : State) : State :=
  let st := setCallStatus "Initiating video call via socket..." st in
  let st := emit "start-video-call" (to_device "dashcam-002") st in
  let st := setIsCallActive true st in
  setIsVideoCall true st.

(** The callback [handleTrackReceived] delays by 100 ms for a video track. *)
Definition attach_video_now (o : Oracle) (t : MediaStreamTrack) (st : State) : State :=
  match videoRef st with
  | Some el =>
      let videoStream := {| getTracks := [t] |} in
      let st := set_videoRef (Some {| srcObject := Some videoStream; muted := true |}) st in
      match play_video o with
      | Resolved _ => setCallStatus "Video connected and playing" st
      | Rejected _ _ => setCallStatus "Video ready - Click to play" st
      end
  | None => st
  end.

Definition handleTrackReceived (o : Oracle) (event : RTCTrackEvent) (st : State) : State :=
  let st :=
    match kind (track event), videoRef st with
    | video, Some _ => setTimeout (attach_video (track event)) 100 st
    | _, _ => st
    end in
  match kind (track event), audioRef st with
  | audio, Some el =>
      let audioStream := {| getTracks := [track event] |} in
      let st := set_audioRef (Some (set_srcObject (Some audioStream) el)) st in
      match play_audio o with
      | Resolved _ => setupAudioLevelMonitoring o audioStream st
      | Rejected _ _ => st
      end
  | _, _ => st
  end.

(** [pc.onicecandidate] of the audio and of the video handler. *)
Definition audio_onicecandidate (from : string) (c : option RTCIceCandidateInit)
    (st : State) : State :=
  match c with
  | Some c => emit "webrtc-signal" (candidate_for from c) st
  | None => st
  end.

Definition video_onicecandidate (from : string) (c : option RTCIceCandidateInit)
    (st : State) : State :=
  match c with
  | Some c => emit "webrtc-video-signal" (candidate_for from c) st
  | None => st
  end.

(** [pc.onconnectionstatechange] of the audio and of the video handler; [p]
    is the connection the closure captured. *)
Definition audio_onconnectionstatechange (p : nat) (st : State) : State :=
  match connectionState <$> pcs st !! p with
  | Some st_connected => setCallStatus "Audio connected" st
  | Some st_failed =>
      let st := setCallStatus "Audio connection failed" st in
      setIsCallActive false st
  | Some s => setCallStatus ("Audio connecting... (" ++ state_name s ++ ")") st
  | None => st
  end.

Definition video_onconnectionstatechange (p : nat) (st : State) : State :=
  match connectionState <$> pcs st !! p with
  | Some st_connected => setCallStatus "Video connected" st
  | Some st_failed =>
      let st := setCallStatus "Video connection failed" st in
      setIsCallActive false st
  | Some s => setCallStatus ("Video connecting... (" ++ state_name s ++ ")") st
  | None => st
  end.

(** The [catch] of the two signalling handlers. *)
Definition audio_catch (st : State) : State := setCallStatus "Audio connection error" st.
Definition video_catch (st : State) : State := setCallStatus "Video connection error" st.

(** The condition of the candidate branch. *)
Definition candidate_accepted (c : CandidateWire) (st : State) : option RTCIceCandidateInit :=
  match current_pc st ≫= remoteDescription, c with
  | Some _, CandObj init =>
      if truthy (candidate init) && defined (sdpMid init)
         && defined (sdpMLineIndex init)
      then Some init else None
  | _, _ => None        (* [data.candidate.candidate] of a string is undefined *)
  end.

Definition on_candidate (catch : State -> State) (o : Oracle) (c : CandidateWire)
    (st : State) : State :=
  match pcRef st, candidate_accepted c st with
  | Some p, Some init =>
      match addIceCandidate o with
      | Resolved _ =>
          update_pc p (fun pc => pc_set_remoteCandidates (remoteCandidates pc ++ [init]) pc) st
      | Rejected _ _ => catch st
      end
  | _, _ => st          (* console.warn *)
  end.

(** The branch [data.type === "answer"]. *)
Definition on_answer (catch : State -> State) (status : string) (o : Oracle)
    (data : SignalData) (st : State) : State :=
  match pcRef st with
  | Some p =>
      match setRemoteDescription o with
      | Resolved _ =>
          let d := {| sd_type := "answer"; sd_sdp := data_sdp data |} in
          let st := update_pc p (pc_set_remoteDescription (Some d)) st in
          setCallStatus status st
      | Rejected _ _ => catch st
      end
  | None => st
  end.

(** The handler of [webrtc-signal]. *)
Definition on_webrtc_signal (o : Oracle) (from : string) (data : SignalData)
    (st : State) : State :=
  if isVideoCall st then st
  else if bool_decide (data_type data = Some "ready") then
    let st := setCallStatus "Dashcam ready - Creating audio offer..." st in
    let st := set_sessionStorage (<["dashcam-socket-id" := from]> (sessionStorage st)) st in
    let '(p, st) := new_RTCPeerConnection ice_servers st in
    let st := set_pcRef (Some p) st in
    match getUserMedia o with
    | Rejected _ _ => audio_catch st
    | Resolved localStream =>
        let st := set_localStreamRef (Some localStream) st in
        let st := update_pc p (fun pc => pc_set_senders (senders pc ++ getTracks localStream) pc) st in
        let st := update_pc p (pc_set_handlers
                     (Some {| cl_from := from; cl_isVideoCall := isVideoCall st |})) st in
        match createOffer o with
        | Rejected _ _ => audio_catch st
        | Resolved sdp =>
            let offer := {| sd_type := "offer"; sd_sdp := sdp |} in
            let st := update_pc p (pc_set_localDescription (Some offer)) st in
            let st := emit "webrtc-signal"
                           (description_for from (pcs st !! p ≫= localDescription)) st in
            setCallStatus "Audio offer sent..." st
        end
    end
  else if bool_decide (data_type data = Some "answer") then
    on_answer audio_catch "Audio answer received..." o data st
  else
    match data_candidate data with
    | Some c => if wire_truthy c then on_candidate audio_catch o c st else st
    | None => st
    end.

(** The handler of [webrtc-video-signal]. *)
Definition on_webrtc_video_signal (o : Oracle) (from : string) (data : SignalData)
    (st : State) : State :=
  if negb (isVideoCall st) then st
  else if bool_decide (data_type data = Some "ready") then
    let st := setCallStatus "Dashcam ready - Creating video offer..." st in
    let st := set_sessionStorage (<["dashcam-socket-id" := from]> (sessionStorage st)) st in
    let '(p, st) := new_RTCPeerConnection ice_servers st in
    let st := set_pcRef (Some p) st in
    let st := update_pc p (pc_set_handlers
                 (Some {| cl_from := from; cl_isVideoCall := isVideoCall st |})) st in
    match createOffer o with
    | Rejected _ _ => video_catch st
    | Resolved sdp =>
        let offer := {| sd_type := "offer"; sd_sdp := sdp |} in
        let st := update_pc p (pc_set_localDescription (Some offer)) st in
        let st := emit "webrtc-video-signal"
                       (description_for from (pcs st !! p ≫= localDescription)) st in
        setCallStatus "Video offer sent..." st
    end
  else if bool_decide (data_type data = Some "answer") then
    on_answer video_catch "Video answer received..." o data st
  else
    match data_candidate data with
    | Some c => if wire_truthy c then on_candidate video_catch o c st else st
    | None => st
    end.

(** [handleVideoClick] and [handleAudioClick]: a click on the element
    plays it.  The audio click of this variant sets its status without
    waiting for [play]. *)
Definition handleVideoClick (o : Oracle) (st : State) : State :=
  match videoRef st with
  | Some _ =>
      match play_video o with
      | Resolved _ => setCallStatus "Video playing" st
      | Rejected _ _ => setCallStatus "Video play failed" st
      end
  | None => st
  end.

Definition handleAudioClick (o : Oracle) (st : State) : State :=
  match audioRef st with
  | Some _ => setCallStatus "Audio enabled" st
  | None => st
  end.

(** The timer callbacks. *)
Definition run_timer (o : Oracle) (f : TimerAction) (st : State) : State :=
  match f with
  | status_ready => setCallStatus "Ready to call" st
  | attach_video t => attach_video_now o t st
  end.

(** The engine changes the connection state of [p] to [s] and notifies
    [onconnectionstatechange]. *)
Definition connectionstatechange (p : nat) (s : RTCPeerConnectionState)
    (st : State) : State :=
  pc_state_event p (pc_set_connectionState s)
    (fun cl => if cl_isVideoCall cl
               then video_onconnectionstatechange p
               else audio_onconnectionstatechange p) st.

(** The render that follows a handler: the [audio] element is always
    mounted, the [video] element while [isCallActive && isVideoCall]; the
    effect is cleaned up and run again when [isVideoCall] changed. *)
Definition render (previous_isVideoCall : bool) (st : State) : State :=
  let st := set_audioRef (mounted false (audioRef st)) st in
  let st := set_videoRef
              (if isCallActive st && isVideoCall st
               then mounted true (videoRef st) else None) st in
  if bool_decide (isVideoCall st = previous_isVideoCall) then st
  else effect_cleanup st.

(** One event: a disabled button ignores the click; a state-change event
    first updates the state of its connection. *)
Definition handle (o : Oracle) (e : Event) (st : State) : State :=
  match e with
  | click_start_audio => if isCallActive st then st else startAudioCall st
  | click_start_video => if isCallActive st then st else startVideoCall st
  | click_end => if isCallActive st then endCall st else st
  | socket_signal from data => on_webrtc_signal o from data st
  | socket_video_signal from data => on_webrtc_video_signal o from data st
  | socket_call_ended => on_call_ended st
  | socket_video_call_ended => on_video_call_ended st
  | socket_error message => on_error message st
  | socket_connect => st
  | socket_connect_error _ => setCallStatus "Socket connection failed" st
  | pc_track p event => pc_event p (fun _ => handleTrackReceived o event) st
  | pc_icecandidate p c =>
      pc_event p (fun cl => if cl_isVideoCall cl
                            then video_onicecandidate (cl_from cl) c
                            else audio_onicecandidate (cl_from cl) c) st
  | pc_connectionstatechange p s =>
      connectionstatechange p s st
  | pc_iceconnectionstatechange p s =>
      pc_state_event p (pc_set_iceConnectionState s) (fun _ st => st) st
  | timer_fired i =>
      match timers st !! i with
      | Some (_, f) => run_timer o f (set_timers (delete i (timers st)) st)
      | None => st
      end
  | animation_frame => animationFrame o st
  end.

Definition step (o : Oracle) (e : Event) (st : State) : State :=
  render (isVideoCall st) (handle o e st).

(** A run: each event comes with the outcomes of the browser calls its
    handler makes. *)
Definition run (es : list (Oracle * Event)) (st : State) : State :=
  foldl (fun s oe => step oe.1 oe.2 s) st es.

End AppTsx.

(** ** Variant [src/unnamed/part_001] *)

Module Part001.

(** *** The candidate codec *)

(** [parseInt] of a string of decimal digits. *)
Definition parseInt (s : ustring) : N :=
  foldl (fun acc c => (acc * 10 + (c - 48))%N) 0%N s.

(** [m?.[1]] : the first group of a match, if there is a match. *)
Definition group1 (m : option (list ustring)) : option ustring := m ≫= head.

(** [v || d] for a string that may be undefined. *)
Definition or_default (d : ustring) (v : option ustring) : ustring :=
  match v with
  | Some (c :: v') => c :: v'
  | _ => d
  end.

Definition parseIceCandidate (c : CandidateWire) : option RTCIceCandidateInit :=
  match c with
  | CandStr s =>
      match re_match candidate_re s with
      | None => None
      | Some parts =>
          let group i : ustring := default [] (parts !! i) in
          let foundation := group 0 in
          let component := group 1 in
          let protocol := group 2 in
          let priority := group 3 in
          let ip := group 4 in
          let port := group 5 in
          let type := group 6 in
          let rest := group 7 in
          Some {|
            candidate :=
              Val (lit "candidate:" ++ foundation ++ lit " " ++ component
                   ++ lit " " ++ protocol ++ lit " " ++ priority ++ lit " " ++ ip
                   ++ lit " " ++ port ++ lit " typ " ++ type ++ rest)%list;
            sdpMid := Val (or_default (lit "0") (group1 (re_match sdpMid_re rest)));
            sdpMLineIndex :=
              Val (parseInt (or_default (lit "0")
                               (group1 (re_match sdpMLineIndex_re rest))));
            usernameFragment :=
              match group1 (re_match ufrag_re rest) with
              | Some (u :: us) => Val (u :: us)
              | _ => Undefined
              end;
          |}
      end
  | CandObj init => Some init
  end.

(** *** The call controller *)

Definition ice_servers : list string :=
  [ "stun:stun.l.google.com:19302";
    "stun:stun1.l.google.com:19302";
    "stun:stun2.l.google.com:19302";
    "turn:openrelay.metered.ca:80" ].

Definition startAudioCall (o : Oracle) (st : State) : State :=
  let st := setCallStatus "Initiating audio call via socket..." st in
  match getUserMedia o with
  | Resolved stream =>
      let st := set_localStreamRef (Some stream) st in
      let st := emit "start-call" (to_device "dashcam-001") st in
      let st := setIsCallActive true st in
      setIsVideoCall false st
  | Rejected name message =>
      setCallStatus ("Microphone error: " ++ name ++ " - " ++ message) st
  end.

Definition startVideoCall (st : State) : State :=
  let st := setCallStatus "Initiating video call via socket..." st in
  let st := emit "start-video-call" (to_device "dashcam-001") st in
  let st := setIsCallActive true st in
  setIsVideoCall true st.

(** [handleTrackReceived]; [isVideoCall] is the value the closure holds. *)
Definition handleTrackReceived (isVideoCall : bool) (o : Oracle)
    (event : RTCTrackEvent) (st : State) : State :=
  let remoteStream := head (streams event) in
  let st :=
    match kind (track event), videoRef st, isVideoCall with
    | video, Some el, true =>
        let st := set_videoRef (Some {| srcObject := remoteStream; muted := true |}) st in
        match play_video o with
        | Resolved _ => setCallStatus "Video connected and playing" st
        | Rejected _ _ => setCallStatus "Video ready - Click to play" st
        end
    | _, _, _ => st
    end in
  match kind (track event), audioRef st with
  | audio, Some el =>
      let st := set_audioRef (Some (set_srcObject remoteStream el)) st in
      match play_audio o, remoteStream with
      | Resolved _, Some stream => setupAudioLevelMonitoring o stream st
      | Resolved _, None => setCallStatus ("Audio play error: " ++ type_error o) st
      | Rejected _ message, _ => setCallStatus ("Audio play error: " ++ message) st
      end
  | _, _ => st
  end.

Definition audio_onicecandidate (from : string) (c : option RTCIceCandidateInit)
    (st : State) : State :=
  match c with
  | Some c => emit "webrtc-signal" (candidate_for from c) st
  | None => st
  end.

Definition video_onicecandidate (from : string) (c : option RTCIceCandidateInit)
    (st : State) : State :=
  match c with
  | Some c => emit "webrtc-video-signal" (candidate_for from c) st
  | None => st
  end.

(** [pc.oniceconnectionstatechange] *)
Definition audio_oniceconnectionstatechange (from : string) (p : nat) (st : State) : State :=
  match iceConnectionState <$> pcs st !! p with
  | Some ice_failed | Some ice_disconnected =>
      let st := setCallStatus "ICE connection failed" st in
      let st := setIsCallActive false st in
      emit "call-ended" (to_peer from) st
  | _ => st
  end.

Definition video_oniceconnectionstatechange (from : string) (p : nat) (st : State) : State :=
  match iceConnectionState <$> pcs st !! p with
  | Some ice_failed | Some ice_disconnected =>
      let st := setCallStatus "ICE connection failed" st in
      let st := setIsCallActive false st in
      emit "video-call-ended" (to_peer from) st
  | _ => st
  end.

(** [pc.onconnectionstatechange] *)
Definition audio_onconnectionstatechange (from : string) (p : nat) (st : State) : State :=
  match connectionState <$> pcs st !! p with
  | Some st_connected => setCallStatus "Audio connected" st
  | Some st_failed =>
      let st := setCallStatus "Audio connection failed" st in
      let st := setIsCallActive false st in
      emit "call-ended" (to_peer from) st
  | Some s => setCallStatus ("Audio connecting... (" ++ state_name s ++ ")") st
  | None => st
  end.

Definition video_onconnectionstatechange (from : string) (p : nat) (st : State) : State :=
  match connectionState <$> pcs st !! p with
  | Some st_connected => setCallStatus "Video connected" st
  | Some st_failed =>
      let st := setCallStatus "Video connection failed" st in
      let st := setIsCallActive false st in
      emit "video-call-ended" (to_peer from) st
  | Some s => setCallStatus ("Video connecting... (" ++ state_name s ++ ")") st
  | None => st
  end.

(** The [catch] of the two signalling handlers. *)
Definition audio_catch (message : string) (st : State) : State :=
  setCallStatus ("Audio connection error: " ++ message) st.
Definition video_catch (message : string) (st : State) : State :=
  setCallStatus ("Video connection error: " ++ message) st.

(** The candidate branch. *)
Definition on_candidate (catch : string -> State -> State) (o : Oracle)
    (c : CandidateWire) (st : State) : State :=
  match parseIceCandidate c, pcRef st, current_pc st ≫= remoteDescription with
  | Some init, Some p, Some _ =>
      match addIceCandidate o with
      | Resolved _ =>
          update_pc p (fun pc => pc_set_remoteCandidates (remoteCandidates pc ++ [init]) pc) st
      | Rejected _ message => catch message st
      end
  | _, _, _ => st       (* console.warn *)
  end.

(** The branch [data.type === "answer"]. *)
Definition on_answer (catch : string -> State -> State) (status : string) (o : Oracle)
    (data : SignalData) (st : State) : State :=
  match pcRef st with
  | Some p =>
      match setRemoteDescription o with
      | Resolved _ =>
          let d := {| sd_type := "answer"; sd_sdp := data_sdp data |} in
          let st := update_pc p (pc_set_remoteDescription (Some d)) st in
          setCallStatus status st
      | Rejected _ message => catch message st
      end
  | None => st
  end.

(** The handler of [webrtc-signal]. *)
Definition on_webrtc_signal (o : Oracle) (from : string) (data : SignalData)
    (st : State) : State :=
  if isVideoCall st then st
  else if bool_decide (data_type data = Some "ready") then
    let st := setCallStatus "Dashcam ready - Creating audio offer..." st in
    let st := set_sessionStorage (<["dashcam-socket-id" := from]> (sessionStorage st)) st in
    let '(p, st) := new_RTCPeerConnection ice_servers st in
    let st := set_pcRef (Some p) st in
    match getUserMedia o with
    | Rejected _ message => audio_catch message st
    | Resolved localStream =>
        let st := set_localStreamRef (Some localStream) st in
        let st := update_pc p (fun pc => pc_set_senders (senders pc ++ getTracks localStream) pc) st in
        let st := update_pc p (pc_set_handlers
                     (Some {| cl_from := from; cl_isVideoCall := isVideoCall st |})) st in
        match createOffer o with
        | Rejected _ message => audio_catch message st
        | Resolved sdp =>
            let offer := {| sd_type := "offer"; sd_sdp := sdp |} in
            let st := update_pc p (pc_set_localDescription (Some offer)) st in
            let st := emit "webrtc-signal"
                           (description_for from (pcs st !! p ≫= localDescription)) st in
            setCallStatus "Audio offer sent..." st
        end
    end
  else if bool_decide (data_type data = Some "answer") then
    on_answer audio_catch "Audio answer received..." o data st
  else
    match data_candidate data with
    | Some c => if wire_truthy c then on_candidate audio_catch o c st else st
    | None => st
    end.

(** The handler of [webrtc-video-signal]. *)
Definition on_webrtc_video_signal (o : Oracle) (from : string) (data : SignalData)
    (st : State) : State :=
  if negb (isVideoCall st) then st
  else if bool_decide (data_type data = Some "ready") then
    let st := setCallStatus "Dashcam ready - Creating video offer..." st in
    let st := set_sessionStorage (<["dashcam-socket-id" := from]> (sessionStorage st)) st in
    let '(p, st) := new_RTCPeerConnection ice_servers st in
    let st := set_pcRef (Some p) st in
    let st := update_pc p (pc_set_handlers
                 (Some {| cl_from := from; cl_isVideoCall := isVideoCall st |})) st in
    match createOffer o with
    | Rejected _ message => video_catch message st
    | Resolved sdp =>
        let offer := {| sd_type := "offer"; sd_sdp := sdp |} in
        let st := update_pc p (pc_set_localDescription (Some offer)) st in
        let st := emit "webrtc-video-signal"
                       (description_for from (pcs st !! p ≫= localDescription)) st in
        setCallStatus "Video offer sent..." st
    end
  else if bool_decide (data_type data = Some "answer") then
    on_answer video_catch "Video answer received..." o data st
  else
    match data_candidate data with
    | Some c => if wire_truthy c then on_candidate video_catch o c st else st
    | None => st
    end.

(** [handleVideoClick] and [handleAudioClick]: a click on the element
    plays it and reports the outcome. *)
Definition handleVideoClick (o : Oracle) (st : State) : State :=
  match videoRef st with
  | Some _ =>
      match play_video o with
      | Resolved _ => setCallStatus "Video playing" st
      | Rejected _ message => setCallStatus ("Video play error: " ++ message) st
      end
  | None => st
  end.

Definition handleAudioClick (o : Oracle) (st : State) : State :=
  match audioRef st with
  | Some _ =>
      match play_audio o with
      | Resolved _ => setCallStatus "Audio playing" st
      | Rejected _ message => setCallStatus ("Audio play error: " ++ message) st
      end
  | None => st
  end.

(** The only timer callback of this variant is the one of [endCall]. *)
Definition run_timer (f : TimerAction) (st : State) : State :=
  match f with
  | status_ready => setCallStatus "Ready to call" st
  | attach_video _ => st
  end.

(** The engine changes the connection state of [p] to [s] and notifies
    [onconnectionstatechange]. *)
Definition connectionstatechange (p : nat) (s : RTCPeerConnectionState)
    (st : State) : State :=
  pc_state_event p (pc_set_connectionState s)
    (fun cl => if cl_isVideoCall cl
               then video_onconnectionstatechange (cl_from cl) p
               else audio_onconnectionstatechange (cl_from cl) p) st.

Definition iceconnectionstatechange (p : nat) (s : RTCIceConnectionState)
    (st : State) : State :=
  pc_state_event p (pc_set_iceConnectionState s)
    (fun cl => if cl_isVideoCall cl
               then video_oniceconnectionstatechange (cl_from cl) p
               else audio_oniceconnectionstatechange (cl_from cl) p) st.

(** The render that follows a handler: the [audio] element is mounted
    while [isCallActive], the [video] element while
    [isCallActive && isVideoCall]; the effect is cleaned up and run again
    when [isVideoCall] changed. *)
Definition render (previous_isVideoCall : bool) (st : State) : State :=
  let st := set_audioRef
              (if isCallActive st then mounted false (audioRef st) else None) st in
  let st := set_videoRef
              (if isCallActive st && isVideoCall st
               then mounted true (videoRef st) else None) st in
  if bool_decide (isVideoCall st = previous_isVideoCall) then st
  else effect_cleanup st.

Definition handle (o : Oracle) (e : Event) (st : State) : State :=
  match e with
  | click_start_audio => if isCallActive st then st else startAudioCall o st
  | click_start_video => if isCallActive st then st else startVideoCall st
  | click_end => if isCallActive st then endCall st else st
  | socket_signal from data => on_webrtc_signal o from data st
  | socket_video_signal from data => on_webrtc_video_signal o from data st
  | socket_call_ended => on_call_ended st
  | socket_video_call_ended => on_video_call_ended st
  | socket_error message => on_error message st
  | socket_connect => setCallStatus "Socket connected, ready to call" st
  | socket_connect_error message =>
      setCallStatus ("Socket connection failed: " ++ message) st
  | pc_track p event =>
      pc_event p (fun cl => handleTrackReceived (cl_isVideoCall cl) o event) st
  | pc_icecandidate p c =>
      pc_event p (fun cl => if cl_isVideoCall cl
                            then video_onicecandidate (cl_from cl) c
                            else audio_onicecandidate (cl_from cl) c) st
  | pc_connectionstatechange p s => connectionstatechange p s st
  | pc_iceconnectionstatechange p s => iceconnectionstatechange p s st
  | timer_fired i =>
      match timers st !! i with
      | Some (_, f) => run_timer f (set_timers (delete i (timers st)) st)
      | None => st
      end
  | animation_frame => animationFrame o st
  end.

Definition step (o : Oracle) (e : Event) (st : State) : State :=
  render (isVideoCall st) (handle o e st).

Definition run (es : list (Oracle * Event)) (st : State) : State :=
  foldl (fun s oe => step oe.1 oe.2 s) st es.

End Part001.

(** ** The grammar of a legacy candidate string, declaratively *)

Open Scope list_scope.

(** [parses items s caps] : a prefix of [s] is made of the literals and of
    the groups of [items], in this order, the groups holding [caps]. *)
Inductive parses : list item -> ustring -> list ustring -> Prop :=
  | parses_nil s :
      parses [] s []
  | parses_lit l items s caps :
      parses items s caps ->
      parses (Lit l :: items) (l ++ s) caps
  | parses_cap cls min items c s caps :
      forallb cls c = true ->
      min <= length c ->
      parses items s caps ->
      parses (Cap cls min :: items) (c ++ s) (c :: caps).

(** A field of the grammar: a non-empty run of code units of one class. *)
Definition field (cls : N -> bool) (x : ustring) : Prop :=
  x <> [] /\ forallb cls x = true.

(** The fixed grammar
    [candidate:<foundation> <component> <protocol> <priority> <ip> <port> typ <type><rest>],
    found anywhere in the string: foundation and ip are runs of non-space
    code units, component, priority and port are decimal digits, protocol
    and type are word characters, rest stays on the line. *)
Definition legacy_candidate (s : ustring) : Prop :=
  exists pre foundation component protocol priority ip port type rest post,
    s = (pre ++ lit "candidate:" ++ foundation ++ lit " " ++ component
         ++ lit " " ++ protocol ++ lit " " ++ priority ++ lit " " ++ ip
         ++ lit " " ++ port ++ lit " typ " ++ type ++ rest ++ post)%list
    /\ field is_nonspace foundation /\ field is_digit component
    /\ field is_word protocol /\ field is_digit priority
    /\ field is_nonspace ip /\ field is_digit port
    /\ field is_word type /\ forallb is_dot rest = true.

(** A candidate message: neither [ready] nor [answer], and a candidate. *)
Definition is_candidate_message (data : SignalData) (c : CandidateWire) : Prop :=
  data_type data <> Some "ready" /\ data_type data <> Some "answer"
  /\ data_candidate data = Some c.

(** [addIceCandidate] on connection [p]. *)
Definition handed_to_engine (init : RTCIceCandidateInit) (p : nat) (st : State) : State :=
  update_pc p (fun pc => pc_set_remoteCandidates (remoteCandidates pc ++ [init]) pc) st.

(** The current connection is not in state [connected] (or there is no
    current connection). *)
Definition not_connected (st : State) : Prop :=
  connectionState <$> current_pc st <> Some st_connected.

(** ** Further notions used to state properties of the code *)

(** The text a match consumed: the literals and the captured groups, in
    the order of the expression. *)
Fixpoint consumed (items : list item) (caps : list ustring) : ustring :=
  match items with
  | [] => []
  | Lit l :: items' => l ++ consumed items' caps
  | Cap _ _ :: items' =>
      match caps with
      | c :: caps' => c ++ consumed items' caps'
      | [] => consumed items' []
      end
  end.

(** An expression that cannot match across a line terminator: no literal
    holds one and no class accepts one. *)
Definition line_local (items : list item) : Prop :=
  Forall (fun it =>
            match it with
            | Lit l => forallb is_dot l = true
            | Cap cls _ => forall c, is_line_terminator c = true -> cls c = false
            end) items.

(** [needle] occurs in [hay]. *)
Definition contains (needle hay : ustring) : Prop :=
  exists before after, hay = before ++ needle ++ after.

(** The text is empty or begins with a line terminator. *)
Definition at_line_end (post : ustring) : Prop :=
  post = [] \/ exists t post', post = t :: post' /\ is_line_terminator t = true.

(** The current connection is in state [connected]. *)
Definition connected (st : State) : Prop :=
  connectionState <$> current_pc st = Some st_connected.

(** The same outcomes, but for [getUserMedia]. *)
Definition with_getUserMedia (r : Result MediaStream) (o : Oracle) : Oracle := {|
  getUserMedia := r;
  createOffer := createOffer o;
  setRemoteDescription := setRemoteDescription o;
  addIceCandidate := addIceCandidate o;
  play_audio := play_audio o;
  play_video := play_video o;
  byteFrequencyLevel := byteFrequencyLevel o;
  type_error := type_error o;
|}.

(** The status [onconnectionstatechange] shows for a state other than
    [failed]. *)
Definition connection_status (video : bool) (s : RTCPeerConnectionState) : string :=
  let mode := if video then "Video" else "Audio" in
  match s with
  | st_connected => mode +:+ " connected"
  | _ => mode +:+ " connecting... (" +:+ state_name s +:+ ")"
  end.

(** The event names of a mode: the signalling channel, the end
    notification sent on failure, the hang-up message. *)
Definition signal_channel (video : bool) : string :=
  if video then "webrtc-video-signal" else "webrtc-signal".

Definition ended_event (video : bool) : string :=
  if video then "video-call-ended" else "call-ended".

Definition end_event (video : bool) : string :=
  if video then "end-video-call" else "end-call".

(** The number of groups a match returns. *)
Fixpoint groups (items : list item) : nat :=
  match items with
  | [] => 0
  | Lit _ :: items' => groups items'
  | Cap _ _ :: items' => S (groups items')
  end.

(** The record [parseIceCandidate] builds from the groups of a match. *)
Definition decoded (parts : list ustring) : RTCIceCandidateInit :=
  let group i : ustring := default [] (parts !! i) in
  let rest := group 7 in
  {| candidate :=
       Val (lit "candidate:" ++ group 0 ++ lit " " ++ group 1
            ++ lit " " ++ group 2 ++ lit " " ++ group 3 ++ lit " " ++ group 4
            ++ lit " " ++ group 5 ++ lit " typ " ++ group 6 ++ rest);
     sdpMid := Val (Part001.or_default (lit "0")
                      (Part001.group1 (re_match sdpMid_re rest)));
     sdpMLineIndex :=
       Val (Part001.parseInt
              (Part001.or_default (lit "0")
                 (Part001.group1 (re_match sdpMLineIndex_re rest))));
     usernameFragment :=
       match Part001.group1 (re_match ufrag_re rest) with
       | Some (u :: us) => Val (u :: us)
       | _ => Undefined
       end |}.

(** The connection a successful [ready] branch creates. *)
Definition negotiating (servers : list string) (from : string) (video : bool)
    (tracks : list MediaStreamTrack) (sdp : string) : RTCPeerConnection := {|
  iceServers := servers;
  connectionState := st_new;
  iceConnectionState := ice_new;
  localDescription := Some {| sd_type := "offer"; sd_sdp := sdp |};
  remoteDescription := None;
  senders := tracks;
  remoteCandidates := [];
  handlers := Some {| cl_from := from; cl_isVideoCall := video |};
|}.

(** What a successful [ready] branch leaves, from state [st], for the
    message sent by [from]. *)
Definition started (st : State) (from sdp : string) (video : bool)
    (servers : list string) (tracks : list MediaStreamTrack) (st' : State) : Prop :=
  sessionStorage st' !! "dashcam-socket-id" = Some from
  /\ pcRef st' = Some (length (pcs st))
  /\ pcs st' = pcs st ++ [negotiating servers from video tracks sdp]
  /\ emitted st'
     = emitted st
       ++ [(signal_channel video,
            description_for from (Some {| sd_type := "offer"; sd_sdp := sdp |}))]
  /\ callStatus st'
     = (if video then "Video offer sent..." else "Audio offer sent...")
  /\ isCallActive st' = isCallActive st /\ isVideoCall st' = video.

(** The three events that hang up. *)
Definition is_hang_up (e : Event) : bool :=
  match e with
  | click_end | socket_call_ended | socket_video_call_ended => true
  | _ => false
  end.

(** The two clicks that start a call. *)
Definition is_start (e : Event) : bool :=
  match e with
  | click_start_audio | click_start_video => true
  | _ => false
  end.

(** A click on a media element changes the status text and nothing else. *)
Definition same_session (st st' : State) : Prop :=
  pcRef st' = pcRef st /\ pcs st' = pcs st
  /\ audioRef st' = audioRef st /\ videoRef st' = videoRef st
  /\ localStreamRef st' = localStreamRef st /\ stopped st' = stopped st
  /\ isCallActive st' = isCallActive st /\ isVideoCall st' = isVideoCall st
  /\ emitted st' = emitted st /\ timers st' = timers st
  /\ rafQueue st' = rafQueue st.

(** ** Sample data: a microphone, outcomes of the browser calls, messages *)

Module Sample.

Definition mic : MediaStream :=
  {| getTracks := [ {| track_id := 1; kind := audio |} ] |}.

(** Every browser call succeeds. *)
Definition granted : Oracle := {|
  getUserMedia := Resolved mic;
  createOffer := Resolved "v=0 offer";
  setRemoteDescription := Resolved ();
  addIceCandidate := Resolved ();
  play_audio := Resolved ();
  play_video := Resolved ();
  byteFrequencyLevel := fun _ => 42%Z;
  type_error := "parameter 1 is not of type 'MediaStream'";
|}.

(** The operator refuses the microphone. *)
Definition denied : Oracle := {|
  getUserMedia := Rejected "NotAllowedError" "Permission denied";
  createOffer := Resolved "v=0 offer";
  setRemoteDescription := Resolved ();
  addIceCandidate := Resolved ();
  play_audio := Resolved ();
  play_video := Resolved ();
  byteFrequencyLevel := fun _ => 42%Z;
  type_error := "parameter 1 is not of type 'MediaStream'";
|}.

Definition ready : SignalData :=
  {| data_type := Some "ready"; data_sdp := ""; data_candidate := None |}.

Definition answer : SignalData :=
  {| data_type := Some "answer"; data_sdp := "v=0 answer"; data_candidate := None |}.

Definition candidate_message (c : CandidateWire) : SignalData :=
  {| data_type := None; data_sdp := ""; data_candidate := Some c |}.

Definition host_candidate : RTCIceCandidateInit := {|
  candidate := Val (lit "candidate:1 1 udp 2122260223 192.168.1.5 54321 typ host");
  sdpMid := Val (lit "0");
  sdpMLineIndex := Val 0%N;
  usernameFragment := Undefined;
|}.

(** A structured candidate whose candidate string is empty. *)
Definition empty_candidate : RTCIceCandidateInit := {|
  candidate := Val [];
  sdpMid := Val (lit "0");
  sdpMLineIndex := Val 0%N;
  usernameFragment := Undefined;
|}.

Definition remote_audio : MediaStreamTrack := {| track_id := 7; kind := audio |}.
Definition remote_video : MediaStreamTrack := {| track_id := 8; kind := video |}.
Definition remote_stream : MediaStream := {| getTracks := [remote_audio; remote_video] |}.

(** The operator started an audio call and the device answered [ready]:
    the offer is out, no answer yet. *)
Definition offer_sent : State :=
  Part001.run [ (granted, click_start_audio);
                (granted, socket_signal "p1" ready) ] initial.

(** An audio call of [part_001], connected to peer [p1]. *)
Definition in_call : State :=
  Part001.run [ (granted, socket_signal "p1" answer);
                (granted, pc_connectionstatechange 0 st_connected) ] offer_sent.

(** The same call in the variant [App.tsx]. *)
Definition in_call_app : State :=
  AppTsx.run [ (granted, click_start_audio);
               (granted, socket_signal "p1" ready);
               (granted, socket_signal "p1" answer);
               (granted, pc_connectionstatechange 0 st_connected) ] initial.

(** The device's audio track arrived and plays: the sampling loop runs. *)
Definition sampling : State :=
  Part001.run [ (granted, pc_track 0 {| track := remote_audio;
                                        streams := [remote_stream] |}) ] in_call.

(** A video call of [part_001] in which the device sent an audio and a
    video track. *)
Definition video_call : State :=
  Part001.run
    [ (granted, click_start_video);
      (granted, socket_video_signal "p1" ready);
      (granted, socket_video_signal "p1" answer);
      (granted, pc_connectionstatechange 0 st_connected);
      (granted, pc_track 0 {| track := remote_audio; streams := [remote_stream] |});
      (granted, pc_track 0 {| track := remote_video; streams := [remote_stream] |}) ]
    initial.

(** Then the engine reports [disconnected]. *)
Definition left_connected : State :=
  Part001.run [ (granted, pc_connectionstatechange 0 st_disconnected) ] sampling.

(** A second capture of the microphone: another stream, another track. *)
Definition second_mic : MediaStream :=
  {| getTracks := [ {| track_id := 2; kind := audio |} ] |}.

(** The browser refuses [play] (no user gesture). *)
Definition autoplay_blocked : Oracle := {|
  getUserMedia := Resolved mic;
  createOffer := Resolved "v=0 offer";
  setRemoteDescription := Resolved ();
  addIceCandidate := Resolved ();
  play_audio := Rejected "NotAllowedError" "play() failed";
  play_video := Rejected "NotAllowedError" "play() failed";
  byteFrequencyLevel := fun _ => 42%Z;
  type_error := "parameter 1 is not of type 'MediaStream'";
|}.

End Sample.

(** Unfolding of the field updates, for goals on an explicit record. *)
Ltac state_simpl :=
  cbn [set_pcRef set_audioRef set_videoRef set_localStreamRef
       setCallStatus setAudioLevel setIsCallActive setIsVideoCall setVideoStats
       set_pcs set_stopped set_sessionStorage set_emitted set_timers
       set_rafQueue set_sampleLog
       emit setTimeout requestAnimationFrame update_pc close stop_tracks
       pcRef audioRef videoRef localStreamRef callStatus audioLevel
       isCallActive isVideoCall videoStats pcs stopped sessionStorage
       emitted timers rafQueue sampleLog] in *.

(** Case analysis on a state: its fields become variables. *)
Ltac destruct_state st :=
  destruct st as [pc_ref a_ref v_ref ls_ref status level active vid stats
                  conns stp storage out tms raf log];
  simpl in *.

Ltac break_match :=
  repeat match goal with
         | |- context [match ?x with _ => _ end] => destruct x
         | |- context [if ?x then _ else _] => destruct x
         end.

Ltac unfold_handlers :=
  unfold Part001.startAudioCall, Part001.startVideoCall,
         AppTsx.startAudioCall, AppTsx.startVideoCall,
         Part001.on_webrtc_signal, Part001.on_webrtc_video_signal,
         AppTsx.on_webrtc_signal, AppTsx.on_webrtc_video_signal,
         Part001.on_answer, Part001.on_candidate,
         AppTsx.on_answer, AppTsx.on_candidate, on_error,
         on_call_ended, on_video_call_ended,
         Part001.connectionstatechange, Part001.iceconnectionstatechange,
         AppTsx.connectionstatechange,
         pc_event, pc_state_event,
         Part001.handleTrackReceived, AppTsx.handleTrackReceived,
         AppTsx.attach_video_now,
         setupAudioLevelMonitoring, updateLevel,
         Part001.audio_onicecandidate, Part001.video_onicecandidate,
         AppTsx.audio_onicecandidate, AppTsx.video_onicecandidate,
         Part001.audio_onconnectionstatechange, Part001.video_onconnectionstatechange,
         AppTsx.audio_onconnectionstatechange, AppTsx.video_onconnectionstatechange,
         Part001.audio_oniceconnectionstatechange,
         Part001.video_oniceconnectionstatechange,
         Part001.audio_catch, Part001.video_catch,
         AppTsx.audio_catch, AppTsx.video_catch,
         Part001.run_timer, AppTsx.run_timer, new_RTCPeerConnection.

Ltac one_message :=
  first [ exists []; split; [rewrite app_nil_r; reflexivity | simpl; lia]
        | eexists [_]; split; [reflexivity | simpl; lia] ].

(** ** Properties of the matcher *)

Section Matcher.

Example candidate_re_sample :
  re_match candidate_re
    (lit "a=candidate:1 1 udp 2122260223 192.168.1.5 54321 typ host generation 0")
  = Some [lit "1"; lit "1"; lit "udp"; lit "2122260223"; lit "192.168.1.5";
          lit "54321"; lit "host"; lit " generation 0"].
Proof. vm_compute. reflexivity. Qed.

Example candidate_re_backtracks :
  re_match [Cap is_nonspace 1; Lit (lit "b"); Cap is_dot 0] (lit "abb c")
  = Some [lit "ab"; lit " c"].
Proof. vm_compute. reflexivity. Qed.

Lemma starts_with_app l s : starts_with l (l ++ s) = true.
Proof.
  induction l as [|a l IH]; simpl; [reflexivity|].
  rewrite N.eqb_refl. exact IH.
Qed.

Lemma starts_with_split l s :
  starts_with l s = true -> s = l ++ drop (length l) s.
Proof.
  revert s. induction l as [|a l IH]; intros [|b s] H; simpl in *;
    try reflexivity; try discriminate.
  apply andb_prop in H as [Hab Hl].
  apply N.eqb_eq in Hab. subst b. f_equal. apply IH, Hl.
Qed.

Lemma span_take cls s n :
  n <= span cls s -> forallb cls (take n s) = true.
Proof.
  revert n. induction s as [|c s IH]; intros [|n] H; simpl in *;
    try reflexivity; try lia.
  destruct (cls c) eqn:Hc; [|lia].
  simpl. apply IH. lia.
Qed.

Lemma span_app cls c s :
  forallb cls c = true -> length c <= span cls (c ++ s).
Proof.
  induction c as [|x c IH]; simpl; intros H; [lia|].
  apply andb_prop in H as [Hx Hc]. rewrite Hx.
  specialize (IH Hc). lia.
Qed.

Lemma span_length cls s : span cls s <= length s.
Proof.
  induction s as [|c s IH]; simpl; [lia|].
  destruct (cls c); simpl; lia.
Qed.

(** What a successful backtracking returns. *)
Lemma backtrack_some k min s n r :
  backtrack k min s n = Some r ->
  exists m caps, m <= n /\ min <= m /\ k (drop m s) = Some caps
                 /\ r = take m s :: caps.
Proof.
  induction n as [|n IH]; simpl.
  - destruct (0 <? min)%nat eqn:Hmin; [discriminate|].
    apply Nat.ltb_ge in Hmin.
    destruct (k (drop 0 s)) as [caps|] eqn:Hk; [|discriminate].
    intros [= <-]. exists 0, caps. repeat split; auto.
  - destruct (S n <? min)%nat eqn:Hmin; [discriminate|].
    apply Nat.ltb_ge in Hmin.
    destruct (k (drop (S n) s)) as [caps|] eqn:Hk.
    + intros [= <-]. exists (S n), caps. repeat split; auto.
    + intros H. destruct (IH H) as (m & caps & Hm & Hmin' & Hk' & ->).
      exists m, caps. repeat split; auto.
Qed.

(** Backtracking finds a match whenever some admissible length has one. *)
Lemma backtrack_finds k min s n m :
  min <= m -> m <= n -> is_Some (k (drop m s)) ->
  is_Some (backtrack k min s n).
Proof.
  intros Hmin. induction n as [|n IH]; intros Hm Hk.
  - assert (m = 0) as -> by lia. simpl.
    destruct (0 <? min)%nat eqn:E; [apply Nat.ltb_lt in E; lia|].
    destruct Hk as [caps ->]. eauto.
  - simpl. destruct (S n <? min)%nat eqn:E; [apply Nat.ltb_lt in E; lia|].
    destruct (k (drop (S n) s)) as [caps|] eqn:Hk'; [eauto|].
    apply IH; [|exact Hk].
    destruct (decide (m = S n)) as [->|]; [|lia].
    rewrite Hk' in Hk. destruct Hk as [? [=]].
Qed.

Lemma match_here_sound items s caps :
  match_here items s = Some caps -> parses items s caps.
Proof.
  revert s caps. induction items as [|[l|cls min] items IH]; intros s caps; simpl.
  - intros [= <-]. constructor.
  - destruct (starts_with l s) eqn:Hl; [|discriminate].
    intros H. rewrite (starts_with_split _ _ Hl).
    constructor. apply IH, H.
  - intros H. apply backtrack_some in H as (m & caps' & Hm & Hmin & Hk & ->).
    rewrite <- (take_drop m s) at 1.
    constructor.
    + apply span_take, Hm.
    + rewrite length_take. pose proof (span_length cls s). lia.
    + apply IH, Hk.
Qed.

Lemma match_here_complete items s caps :
  parses items s caps -> is_Some (match_here items s).
Proof.
  induction 1 as [s|l items s caps _ IH|cls min items c s caps Hc Hmin _ IH]; simpl.
  - eauto.
  - rewrite starts_with_app, drop_app_length. exact IH.
  - apply (backtrack_finds _ _ _ _ (length c)); [exact Hmin| |].
    + apply span_app, Hc.
    + rewrite drop_app_length. exact IH.
Qed.

Lemma re_match_sound items s caps :
  re_match items s = Some caps ->
  exists pre s', s = pre ++ s' /\ parses items s' caps.
Proof.
  induction s as [|c s IH]; simpl.
  - destruct (match_here items []) as [caps'|] eqn:H; [|discriminate].
    intros [= <-]. exists [], []. split; [reflexivity|].
    apply match_here_sound, H.
  - destruct (match_here items (c :: s)) as [caps'|] eqn:H.
    + intros [= <-]. exists [], (c :: s). split; [reflexivity|].
      apply match_here_sound, H.
    + intros H'. destruct (IH H') as (pre & s' & -> & Hp).
      exists (c :: pre), s'. split; [reflexivity|exact Hp].
Qed.

Lemma re_match_complete items pre s caps :
  parses items s caps -> is_Some (re_match items (pre ++ s)).
Proof.
  intros Hp. induction pre as [|c pre IH]; simpl.
  - apply match_here_complete in Hp as [caps' Hc].
    destruct s; simpl; rewrite Hc; eauto.
  - destruct (match_here items (c :: pre ++ s)); [eauto|exact IH].
Qed.

(** The non-global [match] answers [null] exactly when no position of the
    string parses. *)
Lemma re_match_none items s :
  re_match items s = None <->
  ~ exists pre s' caps, s = pre ++ s' /\ parses items s' caps.
Proof.
  split.
  - intros Hnone (pre & s' & caps & -> & Hp).
    apply (re_match_complete _ pre) in Hp as [? Hsome]. congruence.
  - intros Hno. destruct (re_match items s) as [caps|] eqn:H; [|reflexivity].
    exfalso. apply Hno. apply re_match_sound in H as (pre & s' & ? & ?). eauto.
Qed.

End Matcher.

(** ** The grammar and the expression of [parseIceCandidate] agree *)

Section Grammar.

Lemma field_length cls x : field cls x -> 1 <= length x.
Proof. intros [Hne _]. destruct x; [congruence|simpl; lia]. Qed.

Lemma length_field cls x : 1 <= length x -> forallb cls x = true -> field cls x.
Proof. intros Hlen Hall. split; [|exact Hall]. intros ->. simpl in Hlen. lia. Qed.

Lemma legacy_candidate_parses s :
  legacy_candidate s <->
  exists pre s' caps, s = pre ++ s' /\ parses candidate_re s' caps.
Proof.
  split.
  - intros (pre & foundation & component & protocol & priority & ip & port
            & type & rest & post & -> & Hf & Hc & Hp & Hpr & Hip & Hport & Ht & Hrest).
    eexists pre, _, [foundation; component; protocol; priority; ip; port; type; rest].
    split; [reflexivity|]. unfold candidate_re.
    repeat first
      [ apply parses_lit
      | apply parses_cap;
        [ first [ apply Hf | apply Hc | apply Hp | apply Hpr | apply Hip
                | apply Hport | apply Ht | exact Hrest ]
        | first [ eapply field_length; eassumption | simpl; lia ]
        | ] ].
    apply parses_nil.
  - intros (pre & s' & caps & -> & H). unfold candidate_re in H.
    repeat match goal with
           | H : parses (_ :: _) _ _ |- _ => inversion H; subst; clear H
           end.
    match goal with H : parses [] ?post _ |- _ => inversion H; subst; clear H end.
    unfold legacy_candidate.
    do 10 eexists. split; [reflexivity|].
    repeat split; eauto using length_field.
    all: try (intros ->; simpl in *; lia).
Qed.

(** Whether a string follows the grammar is decided by running the
    expression. *)
Lemma legacy_candidate_re_match s :
  legacy_candidate s <-> is_Some (re_match candidate_re s).
Proof.
  rewrite legacy_candidate_parses. split.
  - intros (pre & s' & caps & -> & Hp). eapply re_match_complete, Hp.
  - intros [caps H]. apply re_match_sound in H as (pre & s' & ? & ?). eauto.
Qed.

#[global] Instance legacy_candidate_dec s : Decision (legacy_candidate s).
Proof.
  destruct (re_match candidate_re s) as [caps|] eqn:H.
  - left. apply legacy_candidate_re_match. eauto.
  - right. intros Hl. apply legacy_candidate_re_match in Hl as [? Hs]. congruence.
Defined.

End Grammar.

(** ** Scenarios *)

Section Scenarios.

(** An audio call: the offer goes to the peer that sent [ready], on the
    audio channel, with the microphone attached; the answer is applied;
    [connected] shows in the status. *)
Example audio_call_scenario :
  emitted Sample.offer_sent
  = [ ("start-call", to_device "dashcam-001");
      ("webrtc-signal",
       description_for "p1" (Some {| sd_type := "offer"; sd_sdp := "v=0 offer" |})) ]
  /\ senders <$> current_pc Sample.offer_sent = Some (getTracks Sample.mic)
  /\ current_pc Sample.offer_sent ≫= remoteDescription = None
  /\ current_pc Sample.in_call ≫= remoteDescription
     = Some {| sd_type := "answer"; sd_sdp := "v=0 answer" |}
  /\ callStatus Sample.in_call = "Audio connected"
  /\ isCallActive Sample.in_call = true.
Proof. vm_compute. repeat split; reflexivity. Qed.

(** A video call: both sinks are bound; a further video track replaces the
    binding of the video sink and leaves the audio sink alone. *)
Example video_call_scenario :
  let other := {| getTracks := [ {| track_id := 9; kind := video |} ] |} in
  let st' := Part001.run
               [ (Sample.granted,
                  pc_track 0 {| track := {| track_id := 9; kind := video |};
                                streams := [other] |}) ]
               Sample.video_call in
  (srcObject <$> audioRef Sample.video_call) = Some (Some Sample.remote_stream)
  /\ (srcObject <$> videoRef Sample.video_call) = Some (Some Sample.remote_stream)
  /\ (srcObject <$> videoRef st') = Some (Some other)
  /\ audioRef st' = audioRef Sample.video_call.
Proof. vm_compute. repeat split; reflexivity. Qed.

(** Hanging up: the peer is notified on the channel of the mode, the
    connection is closed, the render unmounts both elements. *)
Example hangup_scenario :
  let st' := Part001.run [ (Sample.granted, click_end) ] Sample.video_call in
  last (emitted st') = Some ("end-video-call", to_peer "p1")
  /\ pcRef st' = None
  /\ connectionState <$> pcs st' !! 0 = Some st_closed
  /\ audioRef st' = None /\ videoRef st' = None
  /\ timers st' = [(2000, status_ready)].
Proof. vm_compute. repeat split; reflexivity. Qed.

(** The grammar is decidable by computation. *)
Example grammar_decided :
  bool_decide (legacy_candidate (lit "x candidate:1 1 udp 1 1.2.3.4 9 typ host")) = true
  /\ bool_decide (legacy_candidate (lit "candidate:1 1 udp 1 1.2.3.4 9 typ")) = false.
Proof. vm_compute. split; reflexivity. Qed.

End Scenarios.

(** ** Call controller: starting a call *)

Section StartCall.

(** A render of a rendered state changes nothing, as long as the mode is
    the one of the previous render: the elements are mounted already and
    the effect does not re-run. *)
Lemma Part001_render_again b st :
  let shown := Part001.render b st in
  Part001.render (isVideoCall shown) shown = shown.
Proof.
  cbv zeta. unfold Part001.render, effect_cleanup. cbv zeta.
  destruct_state st.
  destruct (bool_decide (vid = b)), pc_ref as [p|], active, vid, a_ref, v_ref; cbn;
    rewrite ?bool_decide_eq_true_2 by reflexivity; reflexivity.
Qed.

Lemma AppTsx_render_again b st :
  let shown := AppTsx.render b st in
  AppTsx.render (isVideoCall shown) shown = shown.
Proof.
  cbv zeta. unfold AppTsx.render, effect_cleanup. cbv zeta.
  destruct_state st.
  destruct (bool_decide (vid = b)), pc_ref as [p|], active, vid, a_ref, v_ref; cbn;
    rewrite ?bool_decide_eq_true_2 by reflexivity; reflexivity.
Qed.

(** The guard is in the buttons, not in the functions: [startAudioCall],
    called directly on a video call that was just started, sends the start
    message of an audio call and flips the mode, in both variants.  No
    event of the component makes that call. *)
Remark start_functions_carry_no_guard :
  let st := AppTsx.step Sample.granted click_start_video initial in
  let st' := Part001.step Sample.granted click_start_video initial in
  isCallActive st = true /\ isCallActive st' = true
  /\ emitted (AppTsx.startAudioCall st)
     = emitted st ++ [("start-call", to_device "dashcam-002")]
  /\ emitted (Part001.startAudioCall Sample.granted st')
     = emitted st' ++ [("start-call", to_device "dashcam-001")]
  /\ isVideoCall st = true /\ isVideoCall (AppTsx.startAudioCall st) = false
  /\ isVideoCall st' = true
  /\ isVideoCall (Part001.startAudioCall Sample.granted st') = false.
Proof. cbv zeta. repeat split; reflexivity. Qed.

(** C1: while a call is active, starting a call again is a no-op.
    [startAudioCall] and [startVideoCall] are the [onClick] of the two
    start buttons and have no other caller; both buttons are rendered with
    [disabled={isCallActive}].  So in every state with [isCallActive] true
    a start request changes no field of the state: nothing is sent, no
    connection is created, and mode, connection, status and peer id are
    the ones of the running session.  In a state the component shows
    (the result of a render) the whole step, render included, gives the
    same state back. *)
Theorem start_buttons_disabled_while_active (o : Oracle) (st : State) :
  isCallActive st = true ->
  (AppTsx.handle o click_start_audio st = st
   /\ AppTsx.handle o click_start_video st = st
   /\ Part001.handle o click_start_audio st = st
   /\ Part001.handle o click_start_video st = st)
  /\ (forall b st0, st = AppTsx.render b st0 ->
        AppTsx.step o click_start_audio st = st
        /\ AppTsx.step o click_start_video st = st)
  /\ (forall b st0, st = Part001.render b st0 ->
        Part001.step o click_start_audio st = st
        /\ Part001.step o click_start_video st = st).
Proof.
  intros Hactive. split; [|split].
  - cbn [AppTsx.handle Part001.handle]. rewrite Hactive. auto.
  - intros b st0 Hshown. unfold AppTsx.step. cbn [AppTsx.handle].
    rewrite Hactive, Hshown. split; apply AppTsx_render_again.
  - intros b st0 Hshown. unfold Part001.step. cbn [Part001.handle].
    rewrite Hactive, Hshown. split; apply Part001_render_again.
Qed.

Lemma start_buttons_disabled_while_active_witness :
  isCallActive Sample.in_call = true
  /\ Part001.handle Sample.granted click_start_audio Sample.in_call = Sample.in_call
  /\ Part001.step Sample.granted click_start_video Sample.in_call = Sample.in_call.
Proof.
  assert (H : isCallActive Sample.in_call = true) by reflexivity.
  split; [exact H|].
  destruct (start_buttons_disabled_while_active Sample.granted Sample.in_call H)
    as ((_ & _ & Ha & _) & _ & Hstep).
  split; [exact Ha|].
  assert (Hshown : Sample.in_call
                   = Part001.render false
                       (Part001.handle Sample.granted
                          (pc_connectionstatechange 0 st_connected)
                          (Part001.step Sample.granted (socket_signal "p1" Sample.answer)
                             Sample.offer_sent)))
    by (vm_compute; reflexivity).
  exact (proj2 (Hstep _ _ Hshown)).
Defined.

End StartCall.

(** ** Call controller: ending a call *)

Section EndCall.

(** Detaching a sink twice is detaching it once. *)
Lemma detach_twice (ref : option HTMLMediaElement) :
  set_srcObject None <$> (set_srcObject None <$> ref) = set_srcObject None <$> ref.
Proof. destruct ref as [[src m]|]; reflexivity. Qed.

Lemma detached (ref : option HTMLMediaElement) (el : HTMLMediaElement) :
  set_srcObject None <$> ref = Some el -> srcObject el = None.
Proof. destruct ref as [[src m]|]; simpl; [intros [= <-]; reflexivity|discriminate]. Qed.

(** What [endCall] leaves in each field it writes. *)
Lemma endCall_fields (st : State) :
  let st' := endCall st in
  pcRef st' = None /\ localStreamRef st' = None
  /\ callStatus st' = "Call ended" /\ audioLevel st' = 0%Z
  /\ isCallActive st' = false /\ isVideoCall st' = false /\ videoStats st' = ""
  /\ audioRef st' = (set_srcObject None <$> audioRef st)
  /\ videoRef st' = (set_srcObject None <$> videoRef st)
  /\ timers st' = timers st ++ [(2000, status_ready)].
Proof.
  destruct st as [[p|] ? ? [ls|] ? ? ? ? ? ? ? ? ? ? ? ?];
    repeat split; reflexivity.
Qed.

(** On a state that is already at the baseline, [endCall] only queues its
    timer. *)
Lemma endCall_at_baseline (s : State) :
  pcRef s = None -> localStreamRef s = None ->
  callStatus s = "Call ended" -> audioLevel s = 0%Z ->
  isCallActive s = false -> isVideoCall s = false -> videoStats s = "" ->
  set_srcObject None <$> audioRef s = audioRef s ->
  set_srcObject None <$> videoRef s = videoRef s ->
  endCall s = setTimeout status_ready 2000 s.
Proof.
  destruct s as [? aref vref ? ? ? ? ? ? ? ? ? ? ? ? ?]; simpl.
  intros -> -> -> -> -> -> -> Ha Hv.
  unfold endCall; state_simpl. rewrite Ha, Hv. reflexivity.
Qed.

(** The cleanup of [endCall]: the stored connection is closed and every
    local capture track is stopped. *)
Lemma endCall_releases (st : State) :
  (forall p pc, pcRef st = Some p -> pcs st !! p = Some pc ->
     connectionState <$> pcs (endCall st) !! p = Some st_closed)
  /\ (forall stream t, localStreamRef st = Some stream -> t ∈ getTracks stream ->
        track_id t ∈ stopped (endCall st)).
Proof.
  split.
  - intros p pc Hp Hpc.
    destruct st as [? ? ? [ls|] ? ? ? ? ? ? ? ? ? ? ? ?]; simpl in *; subst;
      unfold endCall; simpl; rewrite list_lookup_alter_eq, Hpc; reflexivity.
  - intros stream t Hls Ht.
    destruct st as [[p|] ? ? ? ? ? ? ? ? ? ? ? ? ? ? ?]; simpl in *; subst;
      unfold endCall; simpl;
      apply elem_of_union_r, elem_of_list_to_set, list_elem_of_fmap;
      exists t; auto.
Qed.

(** C3, as stated, fails on the status: right after [endCall] the status
    is ["Call ended"], not the ready message. *)
Lemma endCall_status_is_call_ended :
  callStatus (endCall initial) = "Call ended"
  /\ callStatus (endCall (endCall initial)) = "Call ended"
  /\ callStatus (endCall (endCall initial)) <> "Ready to call"
  /\ callStatus (endCall Sample.in_call) <> "Ready to call".
Proof. repeat split; try reflexivity; discriminate. Qed.

(** C3 (amended): [endCall] is total, and for every state, after one call
    and after two calls in a row (a session existing or not), the audio
    level is 0, there is no peer connection, no local capture, and nothing
    is attached to the audio or the video sink.  The status is
    ["Call ended"]; each call queues a timer of 2000 ms whose callback sets
    the status to the ready message.  The second call changes nothing but
    the timer queue, and sends nothing. *)
Theorem endCall_idle_baseline (st : State) :
  let idle (s : State) :=
    callStatus s = "Call ended" /\ audioLevel s = 0%Z
    /\ pcRef s = None /\ localStreamRef s = None
    /\ isCallActive s = false /\ isVideoCall s = false
    /\ (forall el, audioRef s = Some el -> srcObject el = None)
    /\ (forall el, videoRef s = Some el -> srcObject el = None)
    /\ (2000, status_ready) ∈ timers s in
  idle (endCall st) /\ idle (endCall (endCall st))
  /\ endCall (endCall st) = setTimeout status_ready 2000 (endCall st)
  /\ emitted (endCall (endCall st)) = emitted (endCall st)
  /\ (forall o s, callStatus (AppTsx.run_timer o status_ready s) = "Ready to call")
  /\ (forall s, callStatus (Part001.run_timer status_ready s) = "Ready to call").
Proof.
  assert (Hidle : forall s,
    let s' := endCall s in
    callStatus s' = "Call ended" /\ audioLevel s' = 0%Z
    /\ pcRef s' = None /\ localStreamRef s' = None
    /\ isCallActive s' = false /\ isVideoCall s' = false
    /\ (forall el, audioRef s' = Some el -> srcObject el = None)
    /\ (forall el, videoRef s' = Some el -> srcObject el = None)
    /\ (2000, status_ready) ∈ timers s').
  { intros s. destruct (endCall_fields s)
      as (Hpc & Hls & Hst & Hlvl & Hact & Hvid & _ & Ha & Hv & Ht).
    cbv zeta. rewrite Hpc, Hls, Hst, Hlvl, Hact, Hvid, Ha, Hv, Ht.
    repeat split; eauto using detached.
    apply elem_of_app. right. apply list_elem_of_singleton. reflexivity. }
  cbv zeta. split; [apply Hidle|]. split; [apply Hidle|].
  assert (Htwice : endCall (endCall st) = setTimeout status_ready 2000 (endCall st)).
  { destruct (endCall_fields st)
      as (Hpc & Hls & Hst & Hlvl & Hact & Hvid & Hstats & Ha & Hv & Ht).
    apply endCall_at_baseline; try assumption.
    - rewrite Ha. apply detach_twice.
    - rewrite Hv. apply detach_twice. }
  split; [exact Htwice|]. split.
  { rewrite Htwice. generalize (endCall st). intros []. reflexivity. }
  split; reflexivity.
Qed.

End EndCall.

(** ** Transport failure *)

Section TransportFailure.

(** C2, as stated, fails: when the engine reports [failed] in the middle of
    a call, no cleanup runs.  The connection stays stored in [pcRef] and
    open, the microphone track is not stopped; [endCall] on the same state
    would have released both.  A second report sends a second
    notification.  The variant App.tsx sends no notification at all. *)
Lemma failed_runs_no_cleanup :
  let failed := (Sample.granted, pc_connectionstatechange 0 st_failed) in
  let st1 := Part001.run [failed] Sample.in_call in
  let st2 := Part001.run [failed; failed] Sample.in_call in
  let app1 := AppTsx.run [failed] Sample.in_call_app in
  (isCallActive st1 = false
   /\ pcRef st1 = Some 0
   /\ connectionState <$> current_pc st1 = Some st_failed
   /\ localStreamRef st1 = Some Sample.mic
   /\ elements (stopped st1) = [])
  /\ (pcRef (endCall Sample.in_call) = None
      /\ connectionState <$> pcs (endCall Sample.in_call) !! 0 = Some st_closed
      /\ elements (stopped (endCall Sample.in_call)) = [1])
  /\ (emitted st1 = emitted Sample.in_call ++ [("call-ended", to_peer "p1")]
      /\ emitted st2 = emitted Sample.in_call
                       ++ [("call-ended", to_peer "p1"); ("call-ended", to_peer "p1")]
      /\ pcRef st2 = Some 0
      /\ connectionState <$> current_pc st2 = Some st_failed)
  /\ (emitted app1 = emitted Sample.in_call_app
      /\ pcRef app1 = Some 0
      /\ connectionState <$> current_pc app1 = Some st_failed
      /\ localStreamRef app1 = Some Sample.mic
      /\ elements (stopped app1) = []).
Proof. vm_compute. repeat split; reflexivity. Qed.

(** The handlers of [failed] in [part_001]. *)
Lemma Part001_failed_handler (video : bool) (from : string) (p : nat)
    (pc : RTCPeerConnection) (st : State) :
  pcs st !! p = Some pc -> connectionState pc = st_failed ->
  (if video then Part001.video_onconnectionstatechange from p st
   else Part001.audio_onconnectionstatechange from p st)
  = emit (if video then "video-call-ended" else "call-ended") (to_peer from)
      (setIsCallActive false
         (setCallStatus (if video then "Video connection failed"
                         else "Audio connection failed") st)).
Proof.
  intros Hp Hs.
  unfold Part001.video_onconnectionstatechange, Part001.audio_onconnectionstatechange.
  rewrite Hp. simpl. rewrite Hs. destruct video; reflexivity.
Qed.

Lemma AppTsx_failed_handler (video : bool) (p : nat)
    (pc : RTCPeerConnection) (st : State) :
  pcs st !! p = Some pc -> connectionState pc = st_failed ->
  (if video then AppTsx.video_onconnectionstatechange p st
   else AppTsx.audio_onconnectionstatechange p st)
  = setIsCallActive false
      (setCallStatus (if video then "Video connection failed"
                      else "Audio connection failed") st).
Proof.
  intros Hp Hs.
  unfold AppTsx.video_onconnectionstatechange, AppTsx.audio_onconnectionstatechange.
  rewrite Hp. simpl. rewrite Hs. destruct video; reflexivity.
Qed.

(** One report of [failed], in [part_001]. *)
Lemma Part001_failed_once (p : nat) (pc : RTCPeerConnection) (cl : Closure) (st : State) :
  pcs st !! p = Some pc -> connectionState pc <> st_closed -> handlers pc = Some cl ->
  Part001.connectionstatechange p st_failed st
  = emit (if cl_isVideoCall cl then "video-call-ended" else "call-ended")
      (to_peer (cl_from cl))
      (setIsCallActive false
         (setCallStatus (if cl_isVideoCall cl then "Video connection failed"
                         else "Audio connection failed")
            (set_pcs (<[p := pc_set_connectionState st_failed pc]> (pcs st)) st))).
Proof.
  intros Hp Hopen Hh.
  unfold Part001.connectionstatechange, pc_state_event. rewrite Hp, Hh.
  destruct (is_closed (connectionState pc)) eqn:Hc.
  { destruct (connectionState pc); try discriminate. congruence. }
  assert (Halter : alter (pc_set_connectionState st_failed) p (pcs st)
                   = <[p := pc_set_connectionState st_failed pc]> (pcs st)).
  { symmetry. apply list_eq. intros i. destruct (decide (i = p)) as [->|Hne].
    - rewrite list_lookup_alter_eq, Hp. simpl.
      apply list_lookup_insert_eq. eapply lookup_lt_Some, Hp.
    - rewrite list_lookup_alter_ne, list_lookup_insert_ne by congruence. reflexivity. }
  unfold update_pc. rewrite Halter.
  assert (Hnew : pcs (set_pcs (<[p := pc_set_connectionState st_failed pc]> (pcs st)) st)
                 !! p = Some (pc_set_connectionState st_failed pc)).
  { apply list_lookup_insert_eq. eapply lookup_lt_Some, Hp. }
  destruct (cl_isVideoCall cl).
  - apply (Part001_failed_handler true (cl_from cl) p _ _ Hnew). reflexivity.
  - apply (Part001_failed_handler false (cl_from cl) p _ _ Hnew). reflexivity.
Qed.

Lemma AppTsx_failed_once (p : nat) (pc : RTCPeerConnection) (cl : Closure) (st : State) :
  pcs st !! p = Some pc -> connectionState pc <> st_closed -> handlers pc = Some cl ->
  AppTsx.connectionstatechange p st_failed st
  = setIsCallActive false
      (setCallStatus (if cl_isVideoCall cl then "Video connection failed"
                      else "Audio connection failed")
         (set_pcs (<[p := pc_set_connectionState st_failed pc]> (pcs st)) st)).
Proof.
  intros Hp Hopen Hh.
  unfold AppTsx.connectionstatechange, pc_state_event. rewrite Hp, Hh.
  destruct (is_closed (connectionState pc)) eqn:Hc.
  { destruct (connectionState pc); try discriminate. congruence. }
  assert (Halter : alter (pc_set_connectionState st_failed) p (pcs st)
                   = <[p := pc_set_connectionState st_failed pc]> (pcs st)).
  { symmetry. apply list_eq. intros i. destruct (decide (i = p)) as [->|Hne].
    - rewrite list_lookup_alter_eq, Hp. simpl.
      apply list_lookup_insert_eq. eapply lookup_lt_Some, Hp.
    - rewrite list_lookup_alter_ne, list_lookup_insert_ne by congruence. reflexivity. }
  unfold update_pc. rewrite Halter.
  assert (Hnew : pcs (set_pcs (<[p := pc_set_connectionState st_failed pc]> (pcs st)) st)
                 !! p = Some (pc_set_connectionState st_failed pc)).
  { apply list_lookup_insert_eq. eapply lookup_lt_Some, Hp. }
  destruct (cl_isVideoCall cl).
  - apply (AppTsx_failed_handler true p _ _ Hnew). reflexivity.
  - apply (AppTsx_failed_handler false p _ _ Hnew). reflexivity.
Qed.

(** C2 (amended): when the engine reports [failed] for an open connection
    that has its handlers, the status becomes the connection-failed
    message of the mode and the call is marked inactive.  In [part_001]
    one end notification ([call-ended] or [video-call-ended], addressed to
    the peer) is sent per report; App.tsx sends none.  No cleanup runs:
    the connection stays stored and open, local capture is neither stopped
    nor forgotten, the handler leaves the sinks, the audio level, the mode
    and the timers as they are. *)
Theorem failed_marks_inactive_and_notifies
    (p : nat) (pc : RTCPeerConnection) (cl : Closure) (st : State) :
  pcs st !! p = Some pc -> connectionState pc <> st_closed -> handlers pc = Some cl ->
  let failed_status :=
    if cl_isVideoCall cl then "Video connection failed" else "Audio connection failed" in
  let notification :=
    (if cl_isVideoCall cl then "video-call-ended" else "call-ended",
     to_peer (cl_from cl)) in
  let untouched (st' : State) :=
    pcRef st' = pcRef st
    /\ pcs st' = <[p := pc_set_connectionState st_failed pc]> (pcs st)
    /\ localStreamRef st' = localStreamRef st /\ stopped st' = stopped st
    /\ audioRef st' = audioRef st /\ videoRef st' = videoRef st
    /\ audioLevel st' = audioLevel st /\ isVideoCall st' = isVideoCall st
    /\ timers st' = timers st in
  let st1 := Part001.connectionstatechange p st_failed st in
  let st2 := Part001.connectionstatechange p st_failed st1 in
  let app1 := AppTsx.connectionstatechange p st_failed st in
  (callStatus st1 = failed_status /\ isCallActive st1 = false
   /\ emitted st1 = emitted st ++ [notification] /\ untouched st1)
  /\ (callStatus st2 = failed_status /\ isCallActive st2 = false
      /\ emitted st2 = emitted st ++ [notification; notification] /\ untouched st2)
  /\ (callStatus app1 = failed_status /\ isCallActive app1 = false
      /\ emitted app1 = emitted st /\ untouched app1).
Proof.
  intros Hp Hopen Hh. cbv zeta.
  pose proof (Part001_failed_once p pc cl st Hp Hopen Hh) as H1.
  assert (Hlt : p < length (pcs st)) by (eapply lookup_lt_Some, Hp).
  split; [|split].
  - rewrite H1. repeat split; reflexivity.
  - rewrite (Part001_failed_once p (pc_set_connectionState st_failed pc) cl).
    + rewrite H1. state_simpl.
      rewrite list_insert_insert_eq, <- app_assoc. repeat split; reflexivity.
    + rewrite H1. state_simpl. apply list_lookup_insert_eq, Hlt.
    + discriminate.
    + exact Hh.
  - rewrite (AppTsx_failed_once p pc cl st Hp Hopen Hh). repeat split; reflexivity.
Qed.

Lemma failed_marks_inactive_and_notifies_witness :
  callStatus (Part001.connectionstatechange 0 st_failed Sample.in_call)
    = "Audio connection failed"
  /\ isCallActive (Part001.connectionstatechange 0 st_failed Sample.in_call) = false
  /\ pcRef (Part001.connectionstatechange 0 st_failed Sample.in_call) = Some 0.
Proof.
  destruct (failed_marks_inactive_and_notifies 0
              {| iceServers := Part001.ice_servers;
                 connectionState := st_connected;
                 iceConnectionState := ice_new;
                 localDescription := Some {| sd_type := "offer"; sd_sdp := "v=0 offer" |};
                 remoteDescription := Some {| sd_type := "answer"; sd_sdp := "v=0 answer" |};
                 senders := getTracks Sample.mic;
                 remoteCandidates := [];
                 handlers := Some {| cl_from := "p1"; cl_isVideoCall := false |} |}
              {| cl_from := "p1"; cl_isVideoCall := false |}
              Sample.in_call)
    as [(Hs & Ha & _ & Hpc & _) _].
  - reflexivity.
  - discriminate.
  - reflexivity.
  - split; [exact Hs|]. split; [exact Ha|exact Hpc].
Defined.

End TransportFailure.

(** ** Candidates *)

Section Candidates.

(** The two handlers of each variant dispatch a candidate message to the
    candidate branch. *)
Lemma Part001_signal_candidate o from data c st :
  is_candidate_message data c ->
  Part001.on_webrtc_signal o from data st
  = (if isVideoCall st then st
     else if wire_truthy c then Part001.on_candidate Part001.audio_catch o c st else st)
  /\ Part001.on_webrtc_video_signal o from data st
     = (if isVideoCall st
        then if wire_truthy c then Part001.on_candidate Part001.video_catch o c st else st
        else st).
Proof.
  intros (Hr & Ha & Hc).
  unfold Part001.on_webrtc_signal, Part001.on_webrtc_video_signal.
  rewrite !bool_decide_eq_false_2 by assumption. rewrite Hc.
  destruct (isVideoCall st); split; reflexivity.
Qed.

Lemma AppTsx_signal_candidate o from data c st :
  is_candidate_message data c ->
  AppTsx.on_webrtc_signal o from data st
  = (if isVideoCall st then st
     else if wire_truthy c then AppTsx.on_candidate AppTsx.audio_catch o c st else st)
  /\ AppTsx.on_webrtc_video_signal o from data st
     = (if isVideoCall st
        then if wire_truthy c then AppTsx.on_candidate AppTsx.video_catch o c st else st
        else st).
Proof.
  intros (Hr & Ha & Hc).
  unfold AppTsx.on_webrtc_signal, AppTsx.on_webrtc_video_signal.
  rewrite !bool_decide_eq_false_2 by assumption. rewrite Hc.
  destruct (isVideoCall st); split; reflexivity.
Qed.

(** Without a remote description the candidate branch does nothing. *)
Lemma Part001_on_candidate_early catch o c st :
  current_pc st ≫= remoteDescription = None ->
  Part001.on_candidate catch o c st = st.
Proof.
  intros H. unfold Part001.on_candidate. rewrite H.
  destruct (Part001.parseIceCandidate c), (pcRef st); reflexivity.
Qed.

Lemma AppTsx_on_candidate_early catch o c st :
  current_pc st ≫= remoteDescription = None ->
  AppTsx.on_candidate catch o c st = st.
Proof.
  intros H. unfold AppTsx.on_candidate, AppTsx.candidate_accepted. rewrite H.
  destruct (pcRef st); reflexivity.
Qed.

(** C4: a candidate message that arrives while no remote description is
    applied to the current connection (or while there is no connection)
    leaves the whole state as it is, on both channels and in both variants:
    the candidate is not handed to the engine, it is kept nowhere, the
    status does not change and nothing is sent. *)
Theorem candidate_before_remote_description_dropped
    (o : Oracle) (from : string) (data : SignalData) (c : CandidateWire) (st : State) :
  is_candidate_message data c ->
  current_pc st ≫= remoteDescription = None ->
  Part001.on_webrtc_signal o from data st = st
  /\ Part001.on_webrtc_video_signal o from data st = st
  /\ AppTsx.on_webrtc_signal o from data st = st
  /\ AppTsx.on_webrtc_video_signal o from data st = st.
Proof.
  intros Hmsg Hnone.
  destruct (Part001_signal_candidate o from data c st Hmsg) as [-> ->].
  destruct (AppTsx_signal_candidate o from data c st Hmsg) as [-> ->].
  rewrite !Part001_on_candidate_early, !AppTsx_on_candidate_early by exact Hnone.
  destruct (isVideoCall st), (wire_truthy c); auto.
Qed.

Lemma candidate_before_remote_description_dropped_witness :
  Part001.on_webrtc_signal Sample.granted "p1"
    (Sample.candidate_message (CandObj Sample.host_candidate)) Sample.offer_sent
  = Sample.offer_sent
  /\ remoteCandidates <$> current_pc Sample.offer_sent = Some [].
Proof.
  destruct (candidate_before_remote_description_dropped Sample.granted "p1"
              (Sample.candidate_message (CandObj Sample.host_candidate))
              (CandObj Sample.host_candidate) Sample.offer_sent) as [H _].
  - repeat split; discriminate.
  - reflexivity.
  - split; [exact H|reflexivity].
Defined.

(** C5: a legacy string that does not follow the grammar makes
    [parseIceCandidate] return [null]; the function is total (it cannot
    throw), and the handler that received the string leaves the whole
    state as it is. *)
Theorem malformed_candidate_discarded (s : ustring) :
  ~ legacy_candidate s ->
  Part001.parseIceCandidate (CandStr s) = None
  /\ forall o from data st,
       is_candidate_message data (CandStr s) ->
       Part001.on_webrtc_signal o from data st = st
       /\ Part001.on_webrtc_video_signal o from data st = st.
Proof.
  intros Hbad.
  assert (Hnone : Part001.parseIceCandidate (CandStr s) = None).
  { unfold Part001.parseIceCandidate.
    destruct (re_match candidate_re s) as [parts|] eqn:Hm; [|reflexivity].
    exfalso. apply Hbad, legacy_candidate_re_match. eauto. }
  split; [exact Hnone|].
  intros o from data st Hmsg.
  destruct (Part001_signal_candidate o from data _ st Hmsg) as [-> ->].
  unfold Part001.on_candidate. rewrite Hnone.
  destruct (isVideoCall st), (wire_truthy (CandStr s)); auto.
Qed.

Lemma malformed_candidate_discarded_witness :
  Part001.parseIceCandidate (CandStr (lit "candidate:1 1 udp host")) = None
  /\ Part001.on_webrtc_signal Sample.granted "p1"
       (Sample.candidate_message (CandStr (lit "candidate:1 1 udp host")))
       Sample.in_call
     = Sample.in_call.
Proof.
  assert (Hbad : ~ legacy_candidate (lit "candidate:1 1 udp host")).
  { intros H. apply legacy_candidate_re_match in H.
    vm_compute in H. destruct H as [parts [=]]. }
  destruct (malformed_candidate_discarded _ Hbad) as [Hnone Hstate].
  split; [exact Hnone|].
  apply Hstate. repeat split; discriminate.
Defined.

(** The converse: a string that follows the grammar is decoded. *)
Lemma well_formed_candidate_decoded (s : ustring) :
  legacy_candidate s -> is_Some (Part001.parseIceCandidate (CandStr s)).
Proof.
  intros H. apply legacy_candidate_re_match in H as [parts Hp].
  unfold Part001.parseIceCandidate. rewrite Hp. eauto.
Qed.

End Candidates.

(** ** Structured candidates *)

Section StructuredCandidates.

(** C6, as stated, fails in [part_001]: [parseIceCandidate] returns a
    structured candidate without looking at any field, and the handler
    hands a candidate whose candidate string is empty to the engine.  The
    handler of App.tsx, which has no codec, drops the same message. *)
Lemma empty_structured_candidate_reaches_engine :
  let message := Sample.candidate_message (CandObj Sample.empty_candidate) in
  let st' := Part001.on_webrtc_signal Sample.granted "p1" message Sample.in_call in
  candidate Sample.empty_candidate = Val []
  /\ Part001.parseIceCandidate (CandObj Sample.empty_candidate)
     = Some Sample.empty_candidate
  /\ remoteCandidates <$> current_pc Sample.in_call = Some []
  /\ remoteCandidates <$> current_pc st' = Some [Sample.empty_candidate]
  /\ AppTsx.on_webrtc_signal Sample.granted "p1" message Sample.in_call_app
     = Sample.in_call_app.
Proof. vm_compute. repeat split; reflexivity. Qed.

(** C6 (amended): [parseIceCandidate] passes every structured candidate
    through unchanged and validates none of its fields.  In [part_001] the
    handler hands it to the engine as soon as the current connection has a
    remote description, an empty candidate string included.  In App.tsx,
    which has no codec, the handler hands it over only when its candidate
    string is non-empty and neither [sdpMid] nor [sdpMLineIndex] is
    undefined, and drops it otherwise. *)
Theorem structured_candidate_passthrough (init : RTCIceCandidateInit) :
  Part001.parseIceCandidate (CandObj init) = Some init
  /\ forall o from data p st,
       is_candidate_message data (CandObj init) ->
       pcRef st = Some p ->
       is_Some (current_pc st ≫= remoteDescription) ->
       addIceCandidate o = Resolved () ->
       (isVideoCall st = false ->
          Part001.on_webrtc_signal o from data st = handed_to_engine init p st
          /\ AppTsx.on_webrtc_signal o from data st
             = if truthy (candidate init) && defined (sdpMid init)
                  && defined (sdpMLineIndex init)
               then handed_to_engine init p st else st)
       /\ (isVideoCall st = true ->
             Part001.on_webrtc_video_signal o from data st = handed_to_engine init p st
             /\ AppTsx.on_webrtc_video_signal o from data st
                = if truthy (candidate init) && defined (sdpMid init)
                     && defined (sdpMLineIndex init)
                  then handed_to_engine init p st else st).
Proof.
  split; [reflexivity|].
  intros o from data p st Hmsg Hp [d Hd] Hadd.
  destruct (Part001_signal_candidate o from data _ st Hmsg) as [-> ->].
  destruct (AppTsx_signal_candidate o from data _ st Hmsg) as [-> ->].
  unfold Part001.on_candidate, AppTsx.on_candidate, AppTsx.candidate_accepted.
  rewrite Hp, Hd, Hadd. simpl.
  split; intros ->; (split; [reflexivity|]);
    destruct (truthy (candidate init) && defined (sdpMid init)
              && defined (sdpMLineIndex init)); reflexivity.
Qed.

Lemma structured_candidate_passthrough_witness :
  Part001.on_webrtc_signal Sample.granted "p1"
    (Sample.candidate_message (CandObj Sample.host_candidate)) Sample.in_call
  = handed_to_engine Sample.host_candidate 0 Sample.in_call.
Proof.
  destruct (structured_candidate_passthrough Sample.host_candidate) as [_ H].
  apply (H Sample.granted "p1"
           (Sample.candidate_message (CandObj Sample.host_candidate)) 0 Sample.in_call).
  - repeat split; discriminate.
  - reflexivity.
  - eexists. reflexivity.
  - reflexivity.
  - reflexivity.
Defined.

End StructuredCandidates.

(** ** Inbound tracks *)

Section InboundTracks.

(** [updateLevel] touches neither sink. *)
Lemma updateLevel_refs o stream st :
  audioRef (updateLevel o stream st) = audioRef st
  /\ videoRef (updateLevel o stream st) = videoRef st
  /\ timers (updateLevel o stream st) = timers st.
Proof.
  unfold updateLevel.
  destruct (connectionState <$> current_pc st) as [[]|]; repeat split; reflexivity.
Qed.

(** Routing in [part_001]. *)
Lemma Part001_audio_track mode o event st :
  kind (track event) = audio ->
  let st' := Part001.handleTrackReceived mode o event st in
  videoRef st' = videoRef st
  /\ forall el, audioRef st = Some el ->
       audioRef st' = Some (set_srcObject (head (streams event)) el).
Proof.
  intros Hk. unfold Part001.handleTrackReceived. rewrite Hk. cbv zeta.
  destruct (audioRef st) as [el|] eqn:Ha; [|split; [reflexivity|discriminate]].
  unfold setupAudioLevelMonitoring.
  destruct (play_audio o), (head (streams event)); split;
    try (intros ? [= <-]);
    rewrite ?(proj1 (updateLevel_refs _ _ _)),
            ?(proj1 (proj2 (updateLevel_refs _ _ _))); reflexivity.
Qed.

Lemma Part001_video_track mode o event st :
  kind (track event) = video ->
  let st' := Part001.handleTrackReceived mode o event st in
  audioRef st' = audioRef st
  /\ (mode = true -> forall el, videoRef st = Some el ->
        videoRef st' = Some {| srcObject := head (streams event); muted := true |})
  /\ (mode = false -> st' = st).
Proof.
  intros Hk. unfold Part001.handleTrackReceived. rewrite Hk. cbv zeta.
  destruct_state st.
  destruct v_ref as [el|], mode, (play_video o);
    repeat split; try discriminate; reflexivity.
Qed.

(** Routing in App.tsx: the audio sink at once, the video sink by a timer
    of 100 ms that finds the [video] element or does nothing. *)
Lemma AppTsx_audio_track o event st :
  kind (track event) = audio ->
  let st' := AppTsx.handleTrackReceived o event st in
  videoRef st' = videoRef st /\ timers st' = timers st
  /\ forall el, audioRef st = Some el ->
       audioRef st' = Some (set_srcObject (Some {| getTracks := [track event] |}) el).
Proof.
  intros Hk. unfold AppTsx.handleTrackReceived. rewrite Hk. cbv zeta.
  destruct (audioRef st) as [el|] eqn:Ha;
    [|split; [reflexivity|split; [reflexivity|discriminate]]].
  unfold setupAudioLevelMonitoring.
  destruct (play_audio o); split; [|split| |split];
    try (intros ? [= <-]);
    rewrite ?(proj1 (updateLevel_refs _ _ _)),
            ?(proj1 (proj2 (updateLevel_refs _ _ _))),
            ?(proj2 (proj2 (updateLevel_refs _ _ _))); reflexivity.
Qed.

Lemma AppTsx_video_track o event st :
  kind (track event) = video ->
  let st' := AppTsx.handleTrackReceived o event st in
  audioRef st' = audioRef st /\ videoRef st' = videoRef st
  /\ (videoRef st = None -> st' = st)
  /\ (is_Some (videoRef st) -> st' = setTimeout (attach_video (track event)) 100 st).
Proof.
  intros Hk. unfold AppTsx.handleTrackReceived. rewrite Hk. cbv zeta.
  destruct_state st.
  destruct v_ref as [el|]; repeat split; try discriminate; try reflexivity.
  intros [? [=]].
Qed.

Lemma AppTsx_attach_video_now o t st :
  audioRef (AppTsx.attach_video_now o t st) = audioRef st
  /\ (videoRef st = None -> AppTsx.attach_video_now o t st = st)
  /\ (is_Some (videoRef st) ->
        videoRef (AppTsx.attach_video_now o t st)
        = Some {| srcObject := Some {| getTracks := [t] |}; muted := true |}).
Proof.
  unfold AppTsx.attach_video_now.
  destruct_state st.
  destruct v_ref as [el|], (play_video o);
    repeat split; try discriminate; try reflexivity.
  all: intros [? [=]].
Qed.

(** After a render of App.tsx the [video] element exists only in a video
    call. *)
Lemma AppTsx_render_video_sink b st :
  isVideoCall (AppTsx.render b st) = isVideoCall st
  /\ (isVideoCall st = false -> videoRef (AppTsx.render b st) = None).
Proof.
  unfold AppTsx.render, effect_cleanup. cbv zeta.
  destruct_state st.
  destruct pc_ref as [p|], (bool_decide (vid = b)); simpl; split; try reflexivity;
    intros ->; rewrite andb_false_r; reflexivity.
Qed.

(** Routing in [part_001]: the audio sink. *)
Lemma Part001_audio_sink mode o event st :
  kind (track event) = audio ->
  let st' := Part001.handleTrackReceived mode o event st in
  videoRef st' = videoRef st
  /\ (forall el, audioRef st = Some el ->
        srcObject <$> audioRef st' = Some (head (streams event))
        /\ muted <$> audioRef st' = Some (muted el))
  /\ (audioRef st = None -> st' = st).
Proof.
  intros Hk. unfold Part001.handleTrackReceived. rewrite Hk. cbv zeta.
  destruct (audioRef st) as [el|] eqn:Ha;
    [|split; [reflexivity|split; [discriminate|reflexivity]]].
  unfold setupAudioLevelMonitoring.
  destruct (play_audio o), (head (streams event)); split; [|split| |split| |split| |split];
    try discriminate; try (intros ? [= <-]);
    rewrite ?(proj1 (updateLevel_refs _ _ _)),
            ?(proj1 (proj2 (updateLevel_refs _ _ _))); split; reflexivity.
Qed.

(** Routing in App.tsx: the audio sink. *)
Lemma AppTsx_audio_sink o event st :
  kind (track event) = audio ->
  let st' := AppTsx.handleTrackReceived o event st in
  videoRef st' = videoRef st /\ timers st' = timers st
  /\ (forall el, audioRef st = Some el ->
        srcObject <$> audioRef st' = Some (Some {| getTracks := [track event] |})
        /\ muted <$> audioRef st' = Some (muted el))
  /\ (audioRef st = None -> st' = st).
Proof.
  intros Hk. unfold AppTsx.handleTrackReceived. rewrite Hk. cbv zeta.
  destruct (audioRef st) as [el|] eqn:Ha;
    [|split; [reflexivity|split; [reflexivity|split; [discriminate|reflexivity]]]].
  unfold setupAudioLevelMonitoring.
  destruct (play_audio o); split; [|split; [|split]| |split; [|split]];
    try discriminate; try (intros ? [= <-]);
    rewrite ?(proj1 (updateLevel_refs _ _ _)),
            ?(proj1 (proj2 (updateLevel_refs _ _ _))),
            ?(proj2 (proj2 (updateLevel_refs _ _ _))); try split; reflexivity.
Qed.

(** What a render leaves of the [audio] element: App.tsx always mounts it,
    [part_001] mounts it in an active call only. *)
Lemma render_audio_sink b st :
  is_Some (audioRef (AppTsx.render b st))
  /\ isCallActive (Part001.render b st) = isCallActive st
  /\ (isCallActive st = true -> is_Some (audioRef (Part001.render b st)))
  /\ (isCallActive st = false ->
        audioRef (Part001.render b st) = None /\ videoRef (Part001.render b st) = None).
Proof.
  unfold AppTsx.render, Part001.render, effect_cleanup. cbv zeta.
  destruct_state st.
  destruct pc_ref as [p|], (bool_decide (vid = b)), a_ref, active; cbn;
    repeat split; try discriminate; eauto.
Qed.


(** C7, as stated, fails for audio tracks in [part_001].  The handler
    assigns [event.streams[0]] to the sink: an audio track whose event
    carries no stream leaves the sink of a running call without a source.
    And the [audio] element exists in an active call only: after the
    engine reported ICE state [disconnected] the call is marked inactive,
    the element is unmounted, and an audio track of the still connected
    connection is dropped without any change of the state. *)
Lemma audio_track_not_attached :
  let without_stream := {| track := Sample.remote_audio; streams := [] |} in
  let with_stream := {| track := Sample.remote_audio;
                        streams := [Sample.remote_stream] |} in
  let unbound := Part001.step Sample.granted (pc_track 0 without_stream) Sample.sampling in
  let inactive := Part001.step Sample.granted
                    (pc_iceconnectionstatechange 0 ice_disconnected) Sample.in_call in
  let dropped := Part001.step Sample.granted (pc_track 0 with_stream) inactive in
  srcObject <$> audioRef Sample.sampling = Some (Some Sample.remote_stream)
  /\ isCallActive Sample.sampling = true
  /\ srcObject <$> audioRef unbound = Some None
  /\ connectionState <$> current_pc inactive = Some st_connected
  /\ audioRef inactive = None
  /\ audioRef dropped = None
  /\ dropped = inactive.
Proof. cbv zeta. repeat apply conj; vm_compute; reflexivity. Qed.

(** C7 (amended): routing of an inbound track.  An audio track never
    touches the video sink.  It is bound to the audio sink when the
    [audio] element is mounted: in App.tsx, where every render mounts the
    element, the source of the sink becomes a new stream holding exactly
    that track; in [part_001] the source becomes the first stream of the
    event (no source when the event carries none), and the element is
    mounted by a render only while the call is active, otherwise the track
    is dropped and the state stays as it is.  A video track never touches
    the audio sink; in [part_001] it is bound to the video sink only when
    the mode held by the handler is video, and in an audio-only session it
    changes nothing at all; in App.tsx it reaches the video sink only
    through the [video] element, which a render mounts in a video call
    only, so that in an audio-only session the track changes nothing. *)
Theorem track_routing (mode : bool) (o : Oracle) (event : RTCTrackEvent) (st : State) :
  let st' := Part001.handleTrackReceived mode o event st in
  let app' := AppTsx.handleTrackReceived o event st in
  (kind (track event) = audio ->
     videoRef st' = videoRef st /\ videoRef app' = videoRef st
     /\ timers app' = timers st
     /\ (forall el, audioRef st = Some el ->
           srcObject <$> audioRef st' = Some (head (streams event))
           /\ muted <$> audioRef st' = Some (muted el)
           /\ srcObject <$> audioRef app' = Some (Some {| getTracks := [track event] |})
           /\ muted <$> audioRef app' = Some (muted el))
     /\ (audioRef st = None -> st' = st /\ app' = st)
     /\ (forall b st0, st = AppTsx.render b st0 ->
           srcObject <$> audioRef app' = Some (Some {| getTracks := [track event] |}))
     /\ (forall b st0, st = Part001.render b st0 ->
           (isCallActive st = true ->
              srcObject <$> audioRef st' = Some (head (streams event)))
           /\ (isCallActive st = false -> st' = st)))
  /\ (kind (track event) = video ->
        audioRef st' = audioRef st
        /\ (mode = true -> forall el, videoRef st = Some el ->
              videoRef st' = Some {| srcObject := head (streams event); muted := true |})
        /\ (mode = false -> st' = st)
        /\ audioRef app' = audioRef st /\ videoRef app' = videoRef st
        /\ (is_Some (videoRef st) ->
              app' = setTimeout (attach_video (track event)) 100 st
              /\ videoRef (AppTsx.attach_video_now o (track event) app')
                 = Some {| srcObject := Some {| getTracks := [track event] |};
                           muted := true |})
        /\ forall b st0, st = AppTsx.render b st0 -> isVideoCall st = false ->
             app' = st)
  /\ (videoRef st' <> videoRef st -> kind (track event) = video /\ mode = true).
Proof.
  cbv zeta. split; [|split].
  - intros Hk.
    destruct (Part001_audio_sink mode o event st Hk) as (Pv & Pbound & Pdropped).
    destruct (AppTsx_audio_sink o event st Hk) as (Av & At & Abound & Adropped).
    cbv zeta in *.
    split; [exact Pv|]. split; [exact Av|]. split; [exact At|].
    split; [|split; [|split]].
    + intros el Hel. destruct (Pbound el Hel) as [P1 P2].
      destruct (Abound el Hel) as [A1 A2]. auto.
    + intros Hnone. auto.
    + intros b st0 Hshown.
      destruct (render_audio_sink b st0) as ([el Hel] & _).
      rewrite <- Hshown in Hel. apply (Abound el Hel).
    + intros b st0 Hshown.
      destruct (render_audio_sink b st0) as (_ & Hactive & Hmounted & Hunmounted).
      rewrite <- Hshown in Hactive, Hmounted, Hunmounted. split.
      * intros Hon. rewrite Hactive in Hon.
        destruct (Hmounted Hon) as [el Hel]. apply (Pbound el Hel).
      * intros Hoff. rewrite Hactive in Hoff.
        apply Pdropped. apply (Hunmounted Hoff).
  - intros Hk.
    destruct (Part001_video_track mode o event st Hk) as (Pa & Pon & Poff).
    destruct (AppTsx_video_track o event st Hk) as (Ha & Hv & Hnone & Hsome).
    cbv zeta in *.
    split; [exact Pa|]. split; [exact Pon|]. split; [exact Poff|].
    split; [exact Ha|]. split; [exact Hv|]. split.
    + intros Hel. split; [apply Hsome, Hel|].
      apply AppTsx_attach_video_now. rewrite Hv. exact Hel.
    + intros b st0 -> Hmode. apply Hnone.
      destruct (AppTsx_render_video_sink b st0) as [Heq Hoff].
      apply Hoff. rewrite <- Heq. exact Hmode.
  - intros Hne. destruct (kind (track event)) eqn:Hk.
    + destruct (Part001_audio_sink mode o event st Hk) as [Hv _]. contradiction.
    + destruct (Part001_video_track mode o event st Hk) as (_ & _ & Hsame).
      split; [reflexivity|]. destruct mode; [reflexivity|].
      rewrite Hsame in Hne by reflexivity. contradiction.
Qed.

Lemma track_routing_witness :
  let audio_event := {| track := Sample.remote_audio;
                        streams := [Sample.remote_stream] |} in
  let video_event := {| track := Sample.remote_video;
                        streams := [Sample.remote_stream] |} in
  srcObject <$> audioRef (Part001.handleTrackReceived false Sample.granted audio_event
                            Sample.in_call)
  = Some (Some Sample.remote_stream)
  /\ srcObject <$> audioRef (AppTsx.handleTrackReceived Sample.granted audio_event
                               Sample.in_call_app)
     = Some (Some {| getTracks := [Sample.remote_audio] |})
  /\ Part001.handleTrackReceived false Sample.granted video_event Sample.in_call
     = Sample.in_call.
Proof.
  cbv zeta.
  assert (Hmounted : audioRef Sample.in_call
                     = Some {| srcObject := None; muted := false |})
    by (vm_compute; reflexivity).
  assert (Hmounted' : audioRef Sample.in_call_app
                      = Some {| srcObject := None; muted := false |})
    by (vm_compute; reflexivity).
  split; [|split].
  - destruct (track_routing false Sample.granted
                {| track := Sample.remote_audio; streams := [Sample.remote_stream] |}
                Sample.in_call) as (H & _).
    destruct (H eq_refl) as (_ & _ & _ & Hbound & _).
    exact (proj1 (Hbound _ Hmounted)).
  - destruct (track_routing false Sample.granted
                {| track := Sample.remote_audio; streams := [Sample.remote_stream] |}
                Sample.in_call_app) as (H & _).
    destruct (H eq_refl) as (_ & _ & _ & Hbound & _).
    exact (proj1 (proj2 (proj2 (Hbound _ Hmounted')))).
  - destruct (track_routing false Sample.granted
                {| track := Sample.remote_video; streams := [Sample.remote_stream] |}
                Sample.in_call) as (_ & H & _).
    destruct (H eq_refl) as (_ & _ & Hsame & _).
    exact (Hsame eq_refl).
Defined.

End InboundTracks.

(** ** Audio-level sampling *)

Section Sampling.

Example sampling_loop_runs :
  sampleLog Sample.sampling = [42%Z]
  /\ rafQueue Sample.sampling = [Sample.remote_stream]
  /\ sampleLog (frames Sample.granted 3 Sample.sampling) = [42%Z; 42%Z; 42%Z; 42%Z]
  /\ rafQueue Sample.left_connected = [Sample.remote_stream].
Proof. vm_compute. repeat split; reflexivity. Qed.

(** [updateLevel] either does nothing or takes one sample and queues
    itself again. *)
Lemma updateLevel_cases o stream st :
  (not_connected st /\ updateLevel o stream st = st)
  \/ (connectionState <$> current_pc st = Some st_connected
      /\ sampleLog (updateLevel o stream st)
         = sampleLog st ++ [byteFrequencyLevel o stream]
      /\ rafQueue (updateLevel o stream st) = rafQueue st ++ [stream]).
Proof.
  unfold updateLevel, not_connected.
  destruct (connectionState <$> current_pc st) as [[]|];
    first [ left; split; [discriminate|reflexivity]
          | right; repeat split; reflexivity ].
Qed.

Lemma updateLevel_not_connected o stream st :
  not_connected st -> updateLevel o stream st = st.
Proof.
  intros H. destruct (updateLevel_cases o stream st) as [[_ ?]|[? _]];
    [assumption|contradiction].
Qed.

(** A frame that finds the connection in another state than [connected]
    runs the queued callbacks for nothing and leaves the queue empty. *)
Lemma animationFrame_not_connected o st :
  not_connected st -> animationFrame o st = set_rafQueue [] st.
Proof.
  intros H. unfold animationFrame.
  assert (Hq : not_connected (set_rafQueue [] st)) by exact H.
  generalize dependent (set_rafQueue [] st). intros s Hs.
  induction (rafQueue st) as [|stream q IH]; simpl; [reflexivity|].
  rewrite updateLevel_not_connected by exact Hs. exact IH.
Qed.

Lemma animationFrame_idle o st :
  rafQueue st = [] -> animationFrame o st = st.
Proof.
  intros H. unfold animationFrame. rewrite H. simpl.
  destruct st; simpl in *; subst; reflexivity.
Qed.

Lemma frames_idle o n st :
  rafQueue st = [] -> frames o n st = st.
Proof.
  intros H. induction n as [|n IH]; simpl; [reflexivity|].
  rewrite animationFrame_idle by exact H. exact IH.
Qed.

Lemma frames_not_connected o n st :
  not_connected st ->
  frames o n st = match n with 0 => st | S _ => set_rafQueue [] st end.
Proof.
  intros H. destruct n as [|n]; simpl; [reflexivity|].
  rewrite animationFrame_not_connected by exact H.
  apply frames_idle. reflexivity.
Qed.

(** C8: [updateLevel] takes a sample only when it finds the current
    connection in state [connected].  When it finds any other state it
    takes no sample and does not queue itself again: whatever the number
    of animation frames that follow, no sample is added (so at most one),
    the queue is empty from the first frame on, and an empty queue stays
    empty and silent. *)
Theorem sampling_gated_on_connected (o : Oracle) (stream : MediaStream) (st : State) :
  (sampleLog (updateLevel o stream st) <> sampleLog st ->
     connectionState <$> current_pc st = Some st_connected)
  /\ (not_connected st -> updateLevel o stream st = st)
  /\ (not_connected st -> forall n,
        sampleLog (frames o n st) = sampleLog st
        /\ length (sampleLog (frames o n st)) <= length (sampleLog st) + 1
        /\ (1 <= n -> rafQueue (frames o n st) = []))
  /\ (rafQueue st = [] -> forall n, frames o n st = st).
Proof.
  split; [|split; [|split]].
  - intros Hne. destruct (updateLevel_cases o stream st) as [[_ Heq]|[Hc _]];
      [rewrite Heq in Hne; contradiction|exact Hc].
  - apply updateLevel_not_connected.
  - intros Hnc n. rewrite (frames_not_connected o n st Hnc).
    destruct n as [|n]; simpl; repeat split; try lia; reflexivity.
  - intros Hq n. apply frames_idle, Hq.
Qed.

Lemma sampling_gated_on_connected_witness :
  sampleLog (frames Sample.granted 3 Sample.left_connected)
  = sampleLog Sample.left_connected
  /\ rafQueue (frames Sample.granted 3 Sample.left_connected) = [].
Proof.
  destruct (sampling_gated_on_connected Sample.granted Sample.remote_stream
              Sample.left_connected) as (_ & _ & H & _).
  destruct (H ltac:(vm_compute; discriminate) 3) as (Hlog & _ & Hq).
  split; [exact Hlog|]. apply Hq. lia.
Defined.

End Sampling.

(** ** Capture failures *)

Section CaptureFailure.

(** C9, as stated, fails in the [ready] branch of the audio handler, which
    both variants have: when the microphone is refused there, the call
    stays active, the connection that was just created stays in [pcRef],
    and the status is the connection-error message of the handler's
    catch-all. *)
Lemma capture_failure_in_ready_keeps_session_active :
  let calling := Part001.step Sample.granted click_start_audio initial in
  let st' := Part001.on_webrtc_signal Sample.denied "p1" Sample.ready calling in
  let calling_app := AppTsx.step Sample.granted click_start_audio initial in
  let app' := AppTsx.on_webrtc_signal Sample.denied "p1" Sample.ready calling_app in
  (isCallActive st' = true
   /\ callStatus st' = "Audio connection error: Permission denied"
   /\ pcRef st' = Some 0
   /\ connectionState <$> current_pc st' = Some st_new)
  /\ (isCallActive app' = true
      /\ callStatus app' = "Audio connection error"
      /\ pcRef app' = Some 0
      /\ connectionState <$> current_pc app' = Some st_new).
Proof. vm_compute. repeat split; reflexivity. Qed.

(** C9 (amended): a failure of [getUserMedia] is never retried, and
    nothing is sent or scheduled after it.  In [startAudioCall] of
    [part_001] it ends the attempt: the only effect is the status
    ["Microphone error: <name> - <message>"], so the call does not become
    active.  In the [ready] branch of the audio handler (both variants) it
    is caught by the handler's catch-all: no offer is sent, no local
    capture is stored, the status is the connection-error message of the
    audio handler, and [isCallActive] keeps its value. *)
Theorem capture_failure_handling (o : Oracle) (name message : string) (st : State) :
  getUserMedia o = Rejected name message ->
  Part001.startAudioCall o st
  = setCallStatus ("Microphone error: " +:+ name +:+ " - " +:+ message) st
  /\ forall from data,
       isVideoCall st = false -> data_type data = Some "ready" ->
       let st' := Part001.on_webrtc_signal o from data st in
       let app' := AppTsx.on_webrtc_signal o from data st in
       (callStatus st' = "Audio connection error: " +:+ message
        /\ isCallActive st' = isCallActive st
        /\ emitted st' = emitted st /\ timers st' = timers st
        /\ localStreamRef st' = localStreamRef st /\ stopped st' = stopped st)
       /\ (callStatus app' = "Audio connection error"
           /\ isCallActive app' = isCallActive st
           /\ emitted app' = emitted st /\ timers app' = timers st
           /\ localStreamRef app' = localStreamRef st /\ stopped app' = stopped st).
Proof.
  intros Hfail. split.
  - unfold Part001.startAudioCall. rewrite Hfail.
    destruct st; reflexivity.
  - intros from data Hmode Hready. cbv zeta.
    unfold Part001.on_webrtc_signal, AppTsx.on_webrtc_signal.
    rewrite Hmode, !bool_decide_eq_true_2 by exact Hready.
    unfold new_RTCPeerConnection. rewrite Hfail.
    repeat split; reflexivity.
Qed.

Lemma capture_failure_handling_witness :
  Part001.startAudioCall Sample.denied initial
  = setCallStatus "Microphone error: NotAllowedError - Permission denied" initial
  /\ isCallActive (Part001.startAudioCall Sample.denied initial) = false.
Proof.
  destruct (capture_failure_handling Sample.denied
              "NotAllowedError" "Permission denied" initial) as [H _].
  - reflexivity.
  - split; [exact H|]. rewrite H. reflexivity.
Defined.

End CaptureFailure.

(** ** A second [ready] *)

Section SecondReady.

Lemma alter_new {A : Type} (f : A -> A) (l : list A) (x : A) :
  alter f (length l) (l ++ [x]) = l ++ [f x].
Proof. induction l as [|a l IH]; simpl; [reflexivity|]. f_equal. exact IH. Qed.

(** What every [ready] branch does to the connections: one fresh object is
    appended and becomes [pcRef.current]; no track is stopped. *)
Lemma ready_appends (o : Oracle) (from : string) (data : SignalData) (st : State) :
  data_type data = Some "ready" ->
  (isVideoCall st = false ->
     (exists pc, pcs (Part001.on_webrtc_signal o from data st) = pcs st ++ [pc])
     /\ pcRef (Part001.on_webrtc_signal o from data st) = Some (length (pcs st))
     /\ stopped (Part001.on_webrtc_signal o from data st) = stopped st
     /\ (exists pc, pcs (AppTsx.on_webrtc_signal o from data st) = pcs st ++ [pc])
     /\ pcRef (AppTsx.on_webrtc_signal o from data st) = Some (length (pcs st))
     /\ stopped (AppTsx.on_webrtc_signal o from data st) = stopped st)
  /\ (isVideoCall st = true ->
        (exists pc, pcs (Part001.on_webrtc_video_signal o from data st) = pcs st ++ [pc])
        /\ pcRef (Part001.on_webrtc_video_signal o from data st) = Some (length (pcs st))
        /\ stopped (Part001.on_webrtc_video_signal o from data st) = stopped st
        /\ localStreamRef (Part001.on_webrtc_video_signal o from data st)
           = localStreamRef st
        /\ (exists pc, pcs (AppTsx.on_webrtc_video_signal o from data st) = pcs st ++ [pc])
        /\ pcRef (AppTsx.on_webrtc_video_signal o from data st) = Some (length (pcs st))
        /\ stopped (AppTsx.on_webrtc_video_signal o from data st) = stopped st
        /\ localStreamRef (AppTsx.on_webrtc_video_signal o from data st)
           = localStreamRef st).
Proof.
  intros Hready.
  unfold Part001.on_webrtc_signal, AppTsx.on_webrtc_signal,
         Part001.on_webrtc_video_signal, AppTsx.on_webrtc_video_signal,
         Part001.audio_catch, Part001.video_catch,
         AppTsx.audio_catch, AppTsx.video_catch, new_RTCPeerConnection.
  rewrite !bool_decide_eq_true_2 by exact Hready.
  destruct_state st.
  split; intros ->; simpl;
    destruct (getUserMedia o) as [ls|? ?]; destruct (createOffer o) as [sdp|? ?];
    state_simpl; rewrite ?alter_new;
    repeat split; eauto.
Qed.

(** The local capture a successful [ready] branch of the audio handler
    stores. *)
Lemma ready_stores_capture (o : Oracle) (from : string) (data : SignalData)
    (stream : MediaStream) (st : State) :
  data_type data = Some "ready" -> isVideoCall st = false ->
  getUserMedia o = Resolved stream ->
  localStreamRef (Part001.on_webrtc_signal o from data st) = Some stream
  /\ localStreamRef (AppTsx.on_webrtc_signal o from data st) = Some stream.
Proof.
  intros Hready Hmode Hmic.
  unfold Part001.on_webrtc_signal, AppTsx.on_webrtc_signal.
  rewrite Hmode, !bool_decide_eq_true_2 by exact Hready.
  unfold new_RTCPeerConnection. rewrite Hmic.
  destruct (createOffer o); split; reflexivity.
Qed.

(** C10: when a [ready] message arrives while [pcRef] holds a connection,
    the handler of the current mode creates a fresh connection and stores
    it in [pcRef]; the previous connection object is left exactly as it
    was (in particular it is not closed), and no track is stopped: the
    previous local capture is replaced in [localStreamRef] by the new one
    (audio handler) or left in place (video handler), still running. *)
Theorem second_ready_abandons_connection
    (o : Oracle) (from : string) (data : SignalData)
    (p : nat) (old : RTCPeerConnection) (st : State) :
  data_type data = Some "ready" ->
  pcRef st = Some p -> pcs st !! p = Some old ->
  let fresh := length (pcs st) in
  let abandoned (st' : State) :=
    pcRef st' = Some fresh /\ fresh <> p
    /\ is_Some (pcs st' !! fresh)
    /\ pcs st' !! p = Some old
    /\ stopped st' = stopped st in
  (isVideoCall st = false ->
     abandoned (Part001.on_webrtc_signal o from data st)
     /\ abandoned (AppTsx.on_webrtc_signal o from data st)
     /\ forall stream, getUserMedia o = Resolved stream ->
          localStreamRef (Part001.on_webrtc_signal o from data st) = Some stream
          /\ localStreamRef (AppTsx.on_webrtc_signal o from data st) = Some stream)
  /\ (isVideoCall st = true ->
        abandoned (Part001.on_webrtc_video_signal o from data st)
        /\ abandoned (AppTsx.on_webrtc_video_signal o from data st)
        /\ localStreamRef (Part001.on_webrtc_video_signal o from data st)
           = localStreamRef st
        /\ localStreamRef (AppTsx.on_webrtc_video_signal o from data st)
           = localStreamRef st).
Proof.
  intros Hready Hp Hold. cbv zeta.
  assert (Hlt : p < length (pcs st)) by (eapply lookup_lt_Some, Hold).
  assert (Habandoned : forall st',
            (exists pc, pcs st' = pcs st ++ [pc]) ->
            pcRef st' = Some (length (pcs st)) -> stopped st' = stopped st ->
            pcRef st' = Some (length (pcs st)) /\ length (pcs st) <> p
            /\ is_Some (pcs st' !! length (pcs st))
            /\ pcs st' !! p = Some old
            /\ stopped st' = stopped st).
  { intros st' [pc Hpcs] Href Hstopped.
    split; [exact Href|]. split; [lia|]. rewrite Hpcs. split; [|split].
    - exists pc. apply list_lookup_middle. reflexivity.
    - rewrite lookup_app_l by exact Hlt. exact Hold.
    - exact Hstopped. }
  destruct (ready_appends o from data st Hready) as [Haudio Hvideo].
  split; intros Hmode.
  - destruct (Haudio Hmode) as (H1 & H2 & H3 & H4 & H5 & H6).
    split; [apply Habandoned; assumption|].
    split; [apply Habandoned; assumption|].
    intros stream Hmic. apply ready_stores_capture; assumption.
  - destruct (Hvideo Hmode) as (H1 & H2 & H3 & H4 & H5 & H6 & H7 & H8).
    split; [apply Habandoned; assumption|].
    split; [apply Habandoned; assumption|].
    split; assumption.
Qed.

Lemma second_ready_abandons_connection_witness :
  let st' := Part001.on_webrtc_signal Sample.granted "p1" Sample.ready Sample.in_call in
  pcRef Sample.in_call = Some 0 /\ pcRef st' = Some 1
  /\ connectionState <$> pcs st' !! 0 = Some st_connected
  /\ stopped st' = stopped Sample.in_call.
Proof.
  cbv zeta.
  destruct (second_ready_abandons_connection Sample.granted "p1" Sample.ready 0
              {| iceServers := Part001.ice_servers;
                 connectionState := st_connected;
                 iceConnectionState := ice_new;
                 localDescription := Some {| sd_type := "offer"; sd_sdp := "v=0 offer" |};
                 remoteDescription := Some {| sd_type := "answer"; sd_sdp := "v=0 answer" |};
                 senders := getTracks Sample.mic;
                 remoteCandidates := [];
                 handlers := Some {| cl_from := "p1"; cl_isVideoCall := false |} |}
              Sample.in_call) as [H _].
  - reflexivity.
  - reflexivity.
  - reflexivity.
  - destruct (H eq_refl) as ((Href & _ & _ & Hold & Hstopped) & _).
    split; [reflexivity|]. split; [exact Href|].
    split; [rewrite Hold; reflexivity|exact Hstopped].
Defined.

End SecondReady.

(** ** More on the candidate codec *)

Section Codec.

Lemma span_drop_span cls s : span cls (drop (span cls s) s) = 0.
Proof.
  induction s as [|c s IH]; simpl; [reflexivity|].
  destruct (cls c) eqn:Hc; simpl; [exact IH|]. rewrite Hc. reflexivity.
Qed.

Lemma span_zero cls post :
  span cls post = 0 ->
  post = [] \/ exists t post', post = t :: post' /\ cls t = false.
Proof.
  destruct post as [|t post']; simpl; [auto|].
  destruct (cls t) eqn:Ht; [discriminate|]. right. eauto.
Qed.

(** A successful match splits the text into what it consumed and what
    follows. *)
Lemma match_here_consumed items s caps :
  match_here items s = Some caps ->
  exists post, s = consumed items caps ++ post.
Proof.
  revert s caps. induction items as [|[l|cls min] items IH]; intros s caps; simpl.
  - intros [= <-]. exists s. reflexivity.
  - destruct (starts_with l s) eqn:Hl; [|discriminate].
    intros H. destruct (IH _ _ H) as [post Hpost].
    exists post. rewrite <- app_assoc, <- Hpost. apply starts_with_split, Hl.
  - intros H. apply backtrack_some in H as (m & caps' & _ & _ & Hk & ->).
    destruct (IH _ _ Hk) as [post Hpost].
    exists post. rewrite <- app_assoc, <- Hpost. symmetry. apply take_drop.
Qed.

(** When the expression ends with a greedy star group, that group runs as
    far as its class allows. *)
Lemma match_here_greedy_end items cls s caps :
  match_here (items ++ [Cap cls 0]) s = Some caps ->
  exists post, s = consumed (items ++ [Cap cls 0]) caps ++ post
               /\ span cls post = 0.
Proof.
  revert s caps. induction items as [|[l|cls' min] items IH]; intros s caps; simpl.
  - intros H.
    assert (Hall : caps = [take (span cls s) s]).
    { destruct (span cls s) as [|n]; simpl in H; congruence. }
    subst caps. exists (drop (span cls s) s). split.
    + rewrite app_nil_r. symmetry. apply take_drop.
    + apply span_drop_span.
  - destruct (starts_with l s) eqn:Hl; [|discriminate].
    intros H. destruct (IH _ _ H) as (post & Hpost & Hend).
    exists post. split; [|exact Hend].
    rewrite <- app_assoc, <- Hpost. apply starts_with_split, Hl.
  - intros H. apply backtrack_some in H as (m & caps' & _ & _ & Hk & ->).
    destruct (IH _ _ Hk) as (post & Hpost & Hend).
    exists post. split; [|exact Hend].
    rewrite <- app_assoc, <- Hpost. symmetry. apply take_drop.
Qed.

Lemma match_here_groups items s caps :
  match_here items s = Some caps -> length caps = groups items.
Proof.
  revert s caps. induction items as [|[l|cls min] items IH]; intros s caps; simpl.
  - intros [= <-]. reflexivity.
  - destruct (starts_with l s); [apply IH|discriminate].
  - intros H. apply backtrack_some in H as (m & caps' & _ & _ & Hk & ->).
    simpl. f_equal. eapply IH, Hk.
Qed.

(** The leftmost match, as a match at some position. *)
Lemma re_match_position items s caps :
  re_match items s = Some caps ->
  exists pre s', s = pre ++ s' /\ match_here items s' = Some caps.
Proof.
  induction s as [|c s IH]; simpl.
  - destruct (match_here items []) as [caps'|] eqn:H; [|discriminate].
    intros [= <-]. exists [], []. auto.
  - destruct (match_here items (c :: s)) as [caps'|] eqn:H.
    + intros [= <-]. exists [], (c :: s). auto.
    + intros H'. destruct (IH H') as (pre & s' & -> & Hm).
      exists (c :: pre), s'. auto.
Qed.

Lemma re_match_at_start items s caps :
  match_here items s = Some caps -> re_match items s = Some caps.
Proof. intros H. destruct s; simpl; rewrite H; reflexivity. Qed.

Lemma parseIceCandidate_decoded s :
  Part001.parseIceCandidate (CandStr s) = decoded <$> re_match candidate_re s.
Proof.
  unfold Part001.parseIceCandidate.
  destruct (re_match candidate_re s); reflexivity.
Qed.

Lemma decoded_candidate parts :
  length parts = groups candidate_re ->
  candidate (decoded parts) = Val (consumed candidate_re parts).
Proof.
  intros Hlen.
  do 8 (destruct parts as [|? parts]; [discriminate Hlen|]).
  destruct parts; [|discriminate Hlen].
  unfold decoded. simpl. rewrite app_nil_r. reflexivity.
Qed.

Lemma line_terminator_cases c :
  is_line_terminator c = true -> c = 10%N \/ c = 13%N \/ c = 8232%N \/ c = 8233%N.
Proof.
  unfold is_line_terminator. rewrite !orb_true_iff, !N.eqb_eq. tauto.
Qed.

Lemma candidate_re_line_local : line_local candidate_re.
Proof.
  assert (Hs : forall c, is_line_terminator c = true -> is_nonspace c = false).
  { intros c H. unfold is_nonspace, is_space. rewrite H, !orb_true_r. reflexivity. }
  assert (Hd : forall c, is_line_terminator c = true -> is_digit c = false).
  { intros c H. destruct (line_terminator_cases c H) as [->|[->|[->| ->]]]; reflexivity. }
  assert (Hw : forall c, is_line_terminator c = true -> is_word c = false).
  { intros c H. destruct (line_terminator_cases c H) as [->|[->|[->| ->]]]; reflexivity. }
  assert (Hdot : forall c, is_line_terminator c = true -> is_dot c = false).
  { intros c H. unfold is_dot. rewrite H. reflexivity. }
  unfold line_local, candidate_re.
  repeat (apply Forall_cons; split; [first [reflexivity | assumption]|]).
  apply Forall_nil. exact I.
Qed.

Lemma starts_with_length l x : starts_with l x = true -> length l <= length x.
Proof.
  intros H. apply starts_with_split in H.
  apply (f_equal length) in H. rewrite length_app in H. lia.
Qed.

Lemma starts_with_line_local l x t post :
  forallb is_dot l = true -> is_line_terminator t = true ->
  starts_with l (x ++ t :: post) = starts_with l x.
Proof.
  intros Hl Ht. revert x. induction l as [|a l IH]; intros x; [reflexivity|].
  simpl in Hl. apply andb_prop in Hl as [Ha Hl].
  destruct x as [|b x]; simpl.
  - destruct (N.eqb_spec a t) as [->|]; [|reflexivity].
    unfold is_dot in Ha. rewrite Ht in Ha. discriminate.
  - rewrite (IH Hl). reflexivity.
Qed.

Lemma span_line_local cls x t post :
  cls t = false -> span cls (x ++ t :: post) = span cls x.
Proof.
  intros Ht. induction x as [|b x IH]; simpl; [rewrite Ht; reflexivity|].
  rewrite IH. reflexivity.
Qed.

Lemma backtrack_line_local k min x t post n :
  (forall y, k (y ++ t :: post) = k y) -> n <= length x ->
  backtrack k min (x ++ t :: post) n = backtrack k min x n.
Proof.
  intros Hk. induction n as [|n IH]; intros Hn;
    cbn [backtrack]; rewrite drop_app_le, take_app_le by lia; rewrite Hk.
  - reflexivity.
  - destruct (S n <? min)%nat; [reflexivity|].
    destruct (k (drop (S n) x)); [reflexivity|].
    apply IH. lia.
Qed.

(** A line-local expression does not see what follows a line terminator. *)
Lemma match_here_line_local items x t post :
  line_local items -> is_line_terminator t = true ->
  match_here items (x ++ t :: post) = match_here items x.
Proof.
  intros Hloc Ht. revert x.
  induction Hloc as [|[l|cls min] items Hit _ IH]; intros x; simpl; [reflexivity| |].
  - rewrite (starts_with_line_local l x t post Hit Ht).
    destruct (starts_with l x) eqn:Hl; [|reflexivity].
    rewrite drop_app_le by (apply starts_with_length, Hl). apply IH.
  - rewrite (span_line_local cls x t post (Hit t Ht)).
    apply backtrack_line_local; [exact IH|apply span_length].
Qed.

Lemma Val_inj {A : Type} (a b : A) : Val a = Val b -> a = b.
Proof. intros [= ->]. reflexivity. Qed.

(** What a successful decoding of a string went through. *)
Lemma parseIceCandidate_inv s init :
  Part001.parseIceCandidate (CandStr s) = Some init ->
  exists pre post parts,
    s = pre ++ consumed candidate_re parts ++ post
    /\ match_here candidate_re (consumed candidate_re parts ++ post) = Some parts
    /\ span is_dot post = 0
    /\ length parts = groups candidate_re
    /\ init = decoded parts.
Proof.
  rewrite parseIceCandidate_decoded.
  destruct (re_match candidate_re s) as [parts|] eqn:Hm; [|discriminate].
  intros [= <-].
  apply re_match_position in Hm as (pre & s' & -> & Hm).
  pose proof (match_here_groups _ _ _ Hm) as Hlen.
  change candidate_re with
    ([ Lit (lit "candidate:"); Cap is_nonspace 1;
       Lit (lit " "); Cap is_digit 1;
       Lit (lit " "); Cap is_word 1;
       Lit (lit " "); Cap is_digit 1;
       Lit (lit " "); Cap is_nonspace 1;
       Lit (lit " "); Cap is_digit 1;
       Lit (lit " typ "); Cap is_word 1 ] ++ [Cap is_dot 0]) in Hm.
  pose proof Hm as Hm'.
  apply match_here_greedy_end in Hm' as (post & Hs' & Hend).
  exists pre, post, parts. subst s'. repeat split; assumption.
Qed.

Lemma at_line_end_span post : span is_dot post = 0 -> at_line_end post.
Proof.
  intros H. apply span_zero in H as [->|(t & post' & -> & Ht)]; [left; reflexivity|].
  right. exists t, post'. split; [reflexivity|].
  unfold is_dot in Ht. destruct (is_line_terminator t); [reflexivity|discriminate].
Qed.

Lemma consumed_candidate_re_prefix parts :
  starts_with (lit "candidate:") (consumed candidate_re parts) = true.
Proof. apply (starts_with_app (lit "candidate:")). Qed.

(** X1: when [parseIceCandidate] decodes a string, the candidate string of
    the result is a contiguous part of the input: it begins with
    [candidate:] and it ends where its line ends (at the end of the input
    or before a line terminator); what precedes it and the following
    lines are dropped. *)
Theorem decoded_candidate_is_matched_text (s : ustring) (init : RTCIceCandidateInit) :
  Part001.parseIceCandidate (CandStr s) = Some init ->
  exists pre c post,
    s = pre ++ c ++ post
    /\ candidate init = Val c
    /\ starts_with (lit "candidate:") c = true
    /\ at_line_end post.
Proof.
  intros H.
  apply parseIceCandidate_inv in H as (pre & post & parts & Hs & _ & Hend & Hlen & ->).
  exists pre, (consumed candidate_re parts), post.
  split; [exact Hs|]. split; [apply decoded_candidate, Hlen|].
  split; [apply consumed_candidate_re_prefix|apply at_line_end_span, Hend].
Qed.

Lemma decoded_candidate_is_matched_text_witness :
  exists pre c post,
    lit "a=candidate:1 1 udp 2122260223 192.168.1.5 54321 typ host generation 0"
      ++ [13%N; 10%N] ++ lit "a=end-of-candidates"
    = pre ++ c ++ post
    /\ candidate
         {| candidate :=
              Val (lit "candidate:1 1 udp 2122260223 192.168.1.5 54321 typ host generation 0");
            sdpMid := Val (lit "0");
            sdpMLineIndex := Val 0%N;
            usernameFragment := Undefined |} = Val c
    /\ starts_with (lit "candidate:") c = true
    /\ at_line_end post.
Proof.
  apply decoded_candidate_is_matched_text. vm_compute. reflexivity.
Defined.

(** X2: decoding is idempotent.  The candidate string of a decoded record
    follows the grammar, and decoding it again gives the same record. *)
Theorem decoding_is_idempotent (s c : ustring) (init : RTCIceCandidateInit) :
  Part001.parseIceCandidate (CandStr s) = Some init ->
  candidate init = Val c ->
  Part001.parseIceCandidate (CandStr c) = Some init /\ legacy_candidate c.
Proof.
  intros H Hc.
  apply parseIceCandidate_inv in H as (pre & post & parts & _ & Hm & Hend & Hlen & ->).
  rewrite (decoded_candidate parts Hlen) in Hc. apply Val_inj in Hc. subst c.
  assert (Hhere : match_here candidate_re (consumed candidate_re parts) = Some parts).
  { apply at_line_end_span in Hend as [->|(t & post' & -> & Ht)].
    - rewrite app_nil_r in Hm. exact Hm.
    - rewrite (match_here_line_local _ _ t post' candidate_re_line_local Ht) in Hm.
      exact Hm. }
  apply re_match_at_start in Hhere.
  split.
  - rewrite parseIceCandidate_decoded, Hhere. reflexivity.
  - apply legacy_candidate_re_match. rewrite Hhere. eauto.
Qed.

Lemma decoding_is_idempotent_witness :
  Part001.parseIceCandidate
    (CandStr (lit "candidate:1 1 udp 2122260223 192.168.1.5 54321 typ host ufrag abcd"))
  = Some {| candidate :=
              Val (lit "candidate:1 1 udp 2122260223 192.168.1.5 54321 typ host ufrag abcd");
            sdpMid := Val (lit "0");
            sdpMLineIndex := Val 0%N;
            usernameFragment := Val (lit "abcd") |}
  /\ legacy_candidate
       (lit "candidate:1 1 udp 2122260223 192.168.1.5 54321 typ host ufrag abcd").
Proof.
  apply (decoding_is_idempotent
           (lit "x candidate:1 1 udp 2122260223 192.168.1.5 54321 typ host ufrag abcd"
            ++ [10%N] ++ lit "sdpMid 3")).
  - vm_compute. reflexivity.
  - reflexivity.
Defined.

(** X3: every record decoded from a string has what the engine and the
    validation of the other variant ask for: a non-empty candidate string,
    a non-empty [sdpMid], a defined [sdpMLineIndex], and a
    [usernameFragment] that is either undefined or non-empty.  The
    candidate branch of App.tsx would accept it. *)
Theorem decoded_candidate_has_required_fields (s : ustring) (init : RTCIceCandidateInit) :
  Part001.parseIceCandidate (CandStr s) = Some init ->
  truthy (candidate init) = true
  /\ truthy (sdpMid init) = true
  /\ (exists n, sdpMLineIndex init = Val n)
  /\ (usernameFragment init = Undefined \/ truthy (usernameFragment init) = true)
  /\ forall st, is_Some (current_pc st ≫= remoteDescription) ->
       AppTsx.candidate_accepted (CandObj init) st = Some init.
Proof.
  rewrite parseIceCandidate_decoded.
  destruct (re_match candidate_re s) as [parts|]; [|discriminate].
  intros [= <-].
  assert (Hc : truthy (candidate (decoded parts)) = true) by reflexivity.
  assert (Hmid : truthy (sdpMid (decoded parts)) = true).
  { unfold decoded. simpl.
    destruct (Part001.group1 _) as [[|? ?]|]; reflexivity. }
  split; [exact Hc|]. split; [exact Hmid|]. split; [eexists; reflexivity|]. split.
  - unfold decoded. simpl.
    destruct (Part001.group1 (re_match ufrag_re _)) as [[|? ?]|]; auto.
  - intros st [d Hd]. unfold AppTsx.candidate_accepted. rewrite Hd, Hc.
    reflexivity.
Qed.

Lemma decoded_candidate_has_required_fields_witness :
  truthy (sdpMid Sample.host_candidate) = true
  /\ exists n, sdpMLineIndex Sample.host_candidate = Val n.
Proof.
  destruct (decoded_candidate_has_required_fields
              (lit "candidate:1 1 udp 2122260223 192.168.1.5 54321 typ host")
              Sample.host_candidate) as (_ & Hmid & Hidx & _).
  - vm_compute. reflexivity.
  - split; [exact Hmid|exact Hidx].
Defined.

Lemma re_match_lit_contains l items x caps :
  re_match (Lit l :: items) x = Some caps -> contains l x.
Proof.
  intros H. apply re_match_position in H as (pre & x' & -> & H).
  simpl in H. destruct (starts_with l x') eqn:Hl; [|discriminate].
  exists pre, (drop (length l) x'). f_equal. apply starts_with_split, Hl.
Qed.

Lemma contains_inside needle before hay after :
  contains needle hay -> contains needle (before ++ hay ++ after).
Proof.
  intros (a & b & ->). exists (before ++ a), (b ++ after).
  rewrite <- !app_assoc. reflexivity.
Qed.

(** The last group of a match of the candidate expression is a part of
    the consumed text. *)
Lemma rest_in_consumed parts :
  length parts = groups candidate_re ->
  exists before,
    consumed candidate_re parts = before ++ default [] (parts !! 7).
Proof.
  intros Hlen.
  do 8 (destruct parts as [|? parts]; [discriminate Hlen|]).
  destruct parts; [|discriminate Hlen].
  cbn [consumed candidate_re lookup list_lookup default].
  rewrite app_nil_r.
  eexists. rewrite !app_assoc. reflexivity.
Qed.

(** X4: defaults of the attributes.  When the input holds no [sdpMid ]
    the decoded [sdpMid] is ["0"]; when it holds no [sdpMLineIndex ] the
    decoded index is 0; when it holds no [ufrag ] the username fragment is
    undefined. *)
Theorem absent_attributes_take_defaults (s : ustring) (init : RTCIceCandidateInit) :
  Part001.parseIceCandidate (CandStr s) = Some init ->
  (~ contains (lit "sdpMid ") s -> sdpMid init = Val (lit "0"))
  /\ (~ contains (lit "sdpMLineIndex ") s -> sdpMLineIndex init = Val 0%N)
  /\ (~ contains (lit "ufrag ") s -> usernameFragment init = Undefined).
Proof.
  intros H.
  apply parseIceCandidate_inv in H as (pre & post & parts & -> & _ & _ & Hlen & ->).
  destruct (rest_in_consumed parts Hlen) as [before Hrest].
  assert (Hin : forall needle,
            contains needle (default [] (parts !! 7)) ->
            contains needle (pre ++ consumed candidate_re parts ++ post)).
  { intros needle Hc. rewrite Hrest, <- app_assoc, app_assoc.
    apply contains_inside, Hc. }
  unfold decoded. cbn [sdpMid sdpMLineIndex usernameFragment].
  split; [|split]; intros Hno.
  - destruct (re_match sdpMid_re _) as [caps|] eqn:Hm; [|reflexivity].
    exfalso. apply Hno, Hin. eapply re_match_lit_contains, Hm.
  - destruct (re_match sdpMLineIndex_re _) as [caps|] eqn:Hm; [|reflexivity].
    exfalso. apply Hno, Hin. eapply re_match_lit_contains, Hm.
  - destruct (re_match ufrag_re _) as [caps|] eqn:Hm; [|reflexivity].
    exfalso. apply Hno, Hin. eapply re_match_lit_contains, Hm.
Qed.

Lemma contains_re_match l x : contains l x -> is_Some (re_match [Lit l] x).
Proof.
  intros (a & b & ->). apply (re_match_complete [Lit l] a (l ++ b) []).
  apply parses_lit, parses_nil.
Qed.

Lemma absent_attributes_take_defaults_witness :
  sdpMid Sample.host_candidate = Val (lit "0")
  /\ sdpMLineIndex Sample.host_candidate = Val 0%N.
Proof.
  destruct (absent_attributes_take_defaults
              (lit "candidate:1 1 udp 2122260223 192.168.1.5 54321 typ host")
              Sample.host_candidate) as (Hmid & Hidx & _).
  - vm_compute. reflexivity.
  - split.
    + apply Hmid. intros Hc. apply contains_re_match in Hc.
      vm_compute in Hc. destruct Hc as [? [=]].
    + apply Hidx. intros Hc. apply contains_re_match in Hc.
      vm_compute in Hc. destruct Hc as [? [=]].
Defined.

End Codec.

(** ** More on audio-level sampling *)

Section SamplingLive.

Lemma updateLevel_connected o stream st :
  connected st ->
  let st' := updateLevel o stream st in
  connected st'
  /\ sampleLog st' = sampleLog st ++ [byteFrequencyLevel o stream]
  /\ rafQueue st' = rafQueue st ++ [stream]
  /\ audioLevel st' = byteFrequencyLevel o stream
  /\ emitted st' = emitted st /\ isCallActive st' = isCallActive st.
Proof.
  unfold connected, updateLevel. intros H. rewrite H. repeat split. exact H.
Qed.

Lemma default_last_cons {A : Type} (a x : A) (l : list A) :
  default a (last (x :: l)) = default x (last l).
Proof.
  revert a x. induction l as [|y l IH]; intros a x; [reflexivity|].
  change (last (x :: y :: l)) with (last (y :: l)).
  rewrite (IH a y), (IH x y). reflexivity.
Qed.

(** The callbacks of one frame, run from a connected state. *)
Lemma run_callbacks_connected o q st :
  connected st ->
  let st' := foldl (fun s stream => updateLevel o stream s) st q in
  connected st'
  /\ sampleLog st' = sampleLog st ++ (byteFrequencyLevel o <$> q)
  /\ rafQueue st' = rafQueue st ++ q
  /\ audioLevel st' = default (audioLevel st) (last (byteFrequencyLevel o <$> q))
  /\ emitted st' = emitted st /\ isCallActive st' = isCallActive st.
Proof.
  revert st. induction q as [|stream q IH]; intros st Hc; cbn [foldl fmap list_fmap].
  - rewrite !app_nil_r. repeat split; auto.
  - destruct (updateLevel_connected o stream st Hc) as (Hc' & L1 & L2 & L3 & L4 & L5).
    destruct (IH _ Hc') as (H1 & H2 & H3 & H4 & H5 & H6).
    cbv zeta in *.
    split; [exact H1|].
    rewrite H2, H3, H4, H5, H6, L1, L2, L3, L4, L5, <- !app_assoc, default_last_cons.
    repeat split.
Qed.

Lemma animationFrame_connected o st :
  connected st ->
  let st' := animationFrame o st in
  connected st'
  /\ sampleLog st' = sampleLog st ++ (byteFrequencyLevel o <$> rafQueue st)
  /\ rafQueue st' = rafQueue st
  /\ audioLevel st' = default (audioLevel st)
                         (last (byteFrequencyLevel o <$> rafQueue st))
  /\ emitted st' = emitted st /\ isCallActive st' = isCallActive st.
Proof.
  intros Hc. unfold animationFrame.
  assert (Hc0 : connected (set_rafQueue [] st)) by exact Hc.
  destruct (run_callbacks_connected o (rafQueue st) _ Hc0)
    as (H1 & H2 & H3 & H4 & H5 & H6).
  cbv zeta in *. rewrite H2, H3, H4, H5, H6. repeat split. exact H1.
Qed.

(** X5: while the current connection stays [connected], sampling goes on:
    every animation frame takes one sample per monitored stream, in the
    order the loops were started, and queues every loop again; the level
    shown is the last sample taken; nothing is sent and the call stays as
    active as it was. *)
Theorem sampling_continues_while_connected (o : Oracle) (n : nat) (st : State) :
  connected st ->
  connected (frames o n st)
  /\ rafQueue (frames o n st) = rafQueue st
  /\ sampleLog (frames o n st)
     = sampleLog st ++ concat (replicate n (byteFrequencyLevel o <$> rafQueue st))
  /\ (0 < n -> audioLevel (frames o n st)
               = default (audioLevel st)
                   (last (byteFrequencyLevel o <$> rafQueue st)))
  /\ emitted (frames o n st) = emitted st
  /\ isCallActive (frames o n st) = isCallActive st.
Proof.
  revert st. induction n as [|n IH]; intros st Hc; cbn [frames replicate concat].
  - rewrite app_nil_r. repeat split; [exact Hc|lia].
  - destruct (animationFrame_connected o st Hc) as (Hc' & L1 & L2 & L3 & L4 & L5).
    destruct (IH _ Hc') as (H1 & H2 & H3 & H4 & H5 & H6).
    cbv zeta in *.
    split; [exact H1|].
    rewrite H2, H3, H5, H6, L1, L2, L4, L5, <- !app_assoc.
    repeat split.
    intros _. destruct n as [|n]; [exact L3|].
    rewrite H4 by lia. rewrite L2, L3.
    destruct (last (byteFrequencyLevel o <$> rafQueue st)); reflexivity.
Qed.

Lemma sampling_continues_while_connected_witness :
  sampleLog (frames Sample.granted 3 Sample.sampling)
  = sampleLog Sample.sampling
    ++ concat (replicate 3 (byteFrequencyLevel Sample.granted <$> rafQueue Sample.sampling))
  /\ rafQueue (frames Sample.granted 3 Sample.sampling) = rafQueue Sample.sampling.
Proof.
  destruct (sampling_continues_while_connected Sample.granted 3 Sample.sampling)
    as (_ & Hq & Hlog & _).
  - reflexivity.
  - split; [exact Hlog|exact Hq].
Defined.

End SamplingLive.

(** ** More on the signalling handlers *)

Section Signalling.

(** The handlers dispatch an [answer] message to the answer branch. *)
Lemma signal_answer o from data st :
  data_type data = Some "answer" ->
  Part001.on_webrtc_signal o from data st
  = (if isVideoCall st then st
     else Part001.on_answer Part001.audio_catch "Audio answer received..." o data st)
  /\ Part001.on_webrtc_video_signal o from data st
     = (if isVideoCall st
        then Part001.on_answer Part001.video_catch "Video answer received..." o data st
        else st)
  /\ AppTsx.on_webrtc_signal o from data st
     = (if isVideoCall st then st
        else AppTsx.on_answer AppTsx.audio_catch "Audio answer received..." o data st)
  /\ AppTsx.on_webrtc_video_signal o from data st
     = (if isVideoCall st
        then AppTsx.on_answer AppTsx.video_catch "Video answer received..." o data st
        else st).
Proof.
  intros Ha.
  unfold Part001.on_webrtc_signal, Part001.on_webrtc_video_signal,
         AppTsx.on_webrtc_signal, AppTsx.on_webrtc_video_signal.
  rewrite Ha.
  rewrite !(bool_decide_eq_false_2 (Some "answer" = Some "ready")) by discriminate.
  rewrite !(bool_decide_eq_true_2 (Some "answer" = Some "answer")) by reflexivity.
  destruct (isVideoCall st); repeat split; reflexivity.
Qed.

(** Reading the remote description of the current connection after an
    update of that connection. *)
Lemma current_pc_update p f pc st :
  pcRef st = Some p -> pcs st !! p = Some pc ->
  current_pc (update_pc p f st) = Some (f pc).
Proof.
  intros Hp Hpc. unfold current_pc, update_pc.
  destruct_state st. subst. simpl. rewrite list_lookup_alter_eq, Hpc. reflexivity.
Qed.

Lemma current_pc_setCallStatus status st :
  current_pc (setCallStatus status st) = current_pc st.
Proof. reflexivity. Qed.

Lemma Part001_answer_then_candidate catch shown o data init p pc st :
  pcRef st = Some p -> pcs st !! p = Some pc ->
  setRemoteDescription o = Resolved () -> addIceCandidate o = Resolved () ->
  let st1 := Part001.on_answer catch shown o data st in
  let st2 := Part001.on_candidate catch o (CandObj init) st1 in
  current_pc st1 ≫= remoteDescription
  = Some {| sd_type := "answer"; sd_sdp := data_sdp data |}
  /\ callStatus st1 = shown
  /\ isVideoCall st1 = isVideoCall st
  /\ remoteCandidates <$> current_pc st2 = Some (remoteCandidates pc ++ [init])
  /\ callStatus st2 = shown /\ emitted st2 = emitted st.
Proof.
  intros Hp Hpc Hset Hadd.
  unfold Part001.on_answer, Part001.on_candidate. rewrite Hp, Hset. cbv zeta.
  rewrite current_pc_setCallStatus, (current_pc_update p _ pc st Hp Hpc).
  cbn [mbind option_bind remoteDescription pc_set_remoteDescription
       Part001.parseIceCandidate].
  assert (Hp1 : pcRef (setCallStatus shown
                         (update_pc p (pc_set_remoteDescription
                            (Some {| sd_type := "answer"; sd_sdp := data_sdp data |})) st))
                = Some p) by exact Hp.
  rewrite Hp1, Hadd.
  repeat split.
  unfold current_pc, update_pc.
  destruct_state st. subst. simpl.
  rewrite !list_lookup_alter_eq, Hpc. reflexivity.
Qed.

Lemma AppTsx_answer_then_candidate catch shown o data init p pc st :
  pcRef st = Some p -> pcs st !! p = Some pc ->
  setRemoteDescription o = Resolved () -> addIceCandidate o = Resolved () ->
  truthy (candidate init) && defined (sdpMid init) && defined (sdpMLineIndex init) = true ->
  let st1 := AppTsx.on_answer catch shown o data st in
  let st2 := AppTsx.on_candidate catch o (CandObj init) st1 in
  current_pc st1 ≫= remoteDescription
  = Some {| sd_type := "answer"; sd_sdp := data_sdp data |}
  /\ callStatus st1 = shown
  /\ isVideoCall st1 = isVideoCall st
  /\ remoteCandidates <$> current_pc st2 = Some (remoteCandidates pc ++ [init])
  /\ callStatus st2 = shown /\ emitted st2 = emitted st.
Proof.
  intros Hp Hpc Hset Hadd Hvalid.
  unfold AppTsx.on_answer, AppTsx.on_candidate, AppTsx.candidate_accepted.
  rewrite Hp, Hset. cbv zeta.
  rewrite current_pc_setCallStatus, (current_pc_update p _ pc st Hp Hpc).
  cbn [mbind option_bind remoteDescription pc_set_remoteDescription].
  assert (Hp1 : pcRef (setCallStatus shown
                         (update_pc p (pc_set_remoteDescription
                            (Some {| sd_type := "answer"; sd_sdp := data_sdp data |})) st))
                = Some p) by exact Hp.
  rewrite Hp1, Hvalid, Hadd.
  repeat split.
  unfold current_pc, update_pc.
  destruct_state st. subst. simpl.
  rewrite !list_lookup_alter_eq, Hpc. reflexivity.
Qed.

(** X6: an answer opens the way for candidates.  When an [answer] arrives
    for the current connection and the engine accepts it, the remote
    description of that connection is the answer; a structured candidate
    that arrives next on the same channel is handed to the engine, behind
    the candidates it already holds, without any change of status and
    without any message sent.  (In App.tsx the candidate has to pass the
    validation of the handler.) *)
Theorem answer_enables_candidates
    (o : Oracle) (from from' : string) (answer candidate_message : SignalData)
    (init : RTCIceCandidateInit) (p : nat) (pc : RTCPeerConnection) (st : State) :
  data_type answer = Some "answer" ->
  is_candidate_message candidate_message (CandObj init) ->
  pcRef st = Some p -> pcs st !! p = Some pc ->
  setRemoteDescription o = Resolved () -> addIceCandidate o = Resolved () ->
  let applied (handler : Oracle -> string -> SignalData -> State -> State)
              (shown : string) :=
    let st1 := handler o from answer st in
    let st2 := handler o from' candidate_message st1 in
    current_pc st1 ≫= remoteDescription
    = Some {| sd_type := "answer"; sd_sdp := data_sdp answer |}
    /\ callStatus st1 = shown
    /\ remoteCandidates <$> current_pc st2 = Some (remoteCandidates pc ++ [init])
    /\ callStatus st2 = shown /\ emitted st2 = emitted st in
  (isVideoCall st = false ->
     applied Part001.on_webrtc_signal "Audio answer received...")
  /\ (isVideoCall st = true ->
        applied Part001.on_webrtc_video_signal "Video answer received...")
  /\ (truthy (candidate init) && defined (sdpMid init)
      && defined (sdpMLineIndex init) = true ->
      (isVideoCall st = false ->
         applied AppTsx.on_webrtc_signal "Audio answer received...")
      /\ (isVideoCall st = true ->
            applied AppTsx.on_webrtc_video_signal "Video answer received...")).
Proof.
  intros Ha Hc Hp Hpc Hset Hadd. cbv zeta.
  destruct (signal_answer o from answer st Ha) as (E1 & E2 & E3 & E4).
  rewrite E1, E2, E3, E4.
  split; [|split; [|intros Hvalid; split]]; intros Hmode; rewrite Hmode.
  - destruct (Part001_answer_then_candidate Part001.audio_catch
                "Audio answer received..." o answer init p pc st Hp Hpc Hset Hadd)
      as (H1 & H2 & H3 & H4 & H5 & H6).
    destruct (Part001_signal_candidate o from' candidate_message _
                (Part001.on_answer Part001.audio_catch "Audio answer received..."
                   o answer st) Hc) as [-> _].
    rewrite H3, Hmode. cbn [wire_truthy]. auto.
  - destruct (Part001_answer_then_candidate Part001.video_catch
                "Video answer received..." o answer init p pc st Hp Hpc Hset Hadd)
      as (H1 & H2 & H3 & H4 & H5 & H6).
    destruct (Part001_signal_candidate o from' candidate_message _
                (Part001.on_answer Part001.video_catch "Video answer received..."
                   o answer st) Hc) as [_ ->].
    rewrite H3, Hmode. cbn [wire_truthy]. auto.
  - destruct (AppTsx_answer_then_candidate AppTsx.audio_catch
                "Audio answer received..." o answer init p pc st Hp Hpc Hset Hadd Hvalid)
      as (H1 & H2 & H3 & H4 & H5 & H6).
    destruct (AppTsx_signal_candidate o from' candidate_message _
                (AppTsx.on_answer AppTsx.audio_catch "Audio answer received..."
                   o answer st) Hc) as [-> _].
    rewrite H3, Hmode. cbn [wire_truthy]. auto.
  - destruct (AppTsx_answer_then_candidate AppTsx.video_catch
                "Video answer received..." o answer init p pc st Hp Hpc Hset Hadd Hvalid)
      as (H1 & H2 & H3 & H4 & H5 & H6).
    destruct (AppTsx_signal_candidate o from' candidate_message _
                (AppTsx.on_answer AppTsx.video_catch "Video answer received..."
                   o answer st) Hc) as [_ ->].
    rewrite H3, Hmode. cbn [wire_truthy]. auto.
Qed.

Lemma answer_enables_candidates_witness :
  let st1 := Part001.on_webrtc_signal Sample.granted "p1" Sample.answer Sample.offer_sent in
  let st2 := Part001.on_webrtc_signal Sample.granted "p1"
               (Sample.candidate_message (CandObj Sample.host_candidate)) st1 in
  current_pc st1 ≫= remoteDescription
  = Some {| sd_type := "answer"; sd_sdp := "v=0 answer" |}
  /\ remoteCandidates <$> current_pc st2 = Some [Sample.host_candidate].
Proof.
  cbv zeta.
  destruct (answer_enables_candidates Sample.granted "p1" "p1" Sample.answer
              (Sample.candidate_message (CandObj Sample.host_candidate))
              Sample.host_candidate 0
              {| iceServers := Part001.ice_servers;
                 connectionState := st_new;
                 iceConnectionState := ice_new;
                 localDescription := Some {| sd_type := "offer"; sd_sdp := "v=0 offer" |};
                 remoteDescription := None;
                 senders := getTracks Sample.mic;
                 remoteCandidates := [];
                 handlers := Some {| cl_from := "p1"; cl_isVideoCall := false |} |}
              Sample.offer_sent) as [H _].
  - reflexivity.
  - repeat split; discriminate.
  - reflexivity.
  - reflexivity.
  - reflexivity.
  - reflexivity.
  - destruct (H eq_refl) as (H1 & _ & H3 & _). split; [exact H1|exact H3].
Defined.

(** X7: an answer that cannot be applied.  Without a current connection
    an [answer] changes nothing at all.  When the engine rejects it, the
    only effect is the connection-error status of the handler: the
    connections are as before, so candidates keep being dropped. *)
Theorem answer_not_applied (o : Oracle) (from : string) (data : SignalData) (st : State) :
  data_type data = Some "answer" ->
  (pcRef st = None ->
     Part001.on_webrtc_signal o from data st = st
     /\ Part001.on_webrtc_video_signal o from data st = st
     /\ AppTsx.on_webrtc_signal o from data st = st
     /\ AppTsx.on_webrtc_video_signal o from data st = st)
  /\ (forall name message p,
        setRemoteDescription o = Rejected name message -> pcRef st = Some p ->
        (isVideoCall st = false ->
           Part001.on_webrtc_signal o from data st
           = setCallStatus ("Audio connection error: " +:+ message) st
           /\ AppTsx.on_webrtc_signal o from data st
              = setCallStatus "Audio connection error" st)
        /\ (isVideoCall st = true ->
              Part001.on_webrtc_video_signal o from data st
              = setCallStatus ("Video connection error: " +:+ message) st
              /\ AppTsx.on_webrtc_video_signal o from data st
                 = setCallStatus "Video connection error" st)).
Proof.
  intros Ha.
  destruct (signal_answer o from data st Ha) as (E1 & E2 & E3 & E4).
  rewrite E1, E2, E3, E4.
  unfold Part001.on_answer, AppTsx.on_answer.
  split.
  - intros ->. destruct (isVideoCall st); auto.
  - intros name message p -> ->. split; intros ->; split; reflexivity.
Qed.

Lemma answer_not_applied_witness :
  Part001.on_webrtc_signal Sample.granted "p1" Sample.answer initial = initial.
Proof.
  destruct (answer_not_applied Sample.granted "p1" Sample.answer initial) as [H _].
  - reflexivity.
  - destruct (H eq_refl) as [H1 _]. exact H1.
Defined.

Lemma lookup_new {A : Type} (l : list A) (x : A) : (l ++ [x]) !! length l = Some x.
Proof. apply list_lookup_middle. reflexivity. Qed.

Lemma ready_audio_started
    (o : Oracle) (from sdp : string) (data : SignalData) (stream : MediaStream)
    (st : State) :
  data_type data = Some "ready" -> createOffer o = Resolved sdp ->
  isVideoCall st = false -> getUserMedia o = Resolved stream ->
  started st from sdp false Part001.ice_servers (getTracks stream)
    (Part001.on_webrtc_signal o from data st)
  /\ started st from sdp false AppTsx.ice_servers (getTracks stream)
       (AppTsx.on_webrtc_signal o from data st).
Proof.
  intros Hready Hoffer Hmode Hcapture.
  unfold started, Part001.on_webrtc_signal, AppTsx.on_webrtc_signal,
         Part001.on_webrtc_video_signal, AppTsx.on_webrtc_video_signal,
         new_RTCPeerConnection, negotiating, signal_channel.
  rewrite !bool_decide_eq_true_2 by exact Hready. rewrite Hoffer.
  destruct_state st. cbn in Hmode. subst vid. rewrite Hcapture. simpl;
    state_simpl; rewrite ?alter_new; cbn [pc_set_senders pc_set_handlers
      pc_set_localDescription iceServers connectionState iceConnectionState
      localDescription remoteDescription senders remoteCandidates handlers];
    rewrite ?lookup_new; cbn [mbind option_bind localDescription];
    rewrite ?lookup_insert_eq; repeat split.
Qed.

Lemma ready_video_started
    (o : Oracle) (from sdp : string) (data : SignalData) (st : State) :
  data_type data = Some "ready" -> createOffer o = Resolved sdp ->
  isVideoCall st = true ->
  started st from sdp true Part001.ice_servers []
    (Part001.on_webrtc_video_signal o from data st)
  /\ started st from sdp true AppTsx.ice_servers []
       (AppTsx.on_webrtc_video_signal o from data st).
Proof.
  intros Hready Hoffer Hmode.
  unfold started, Part001.on_webrtc_signal, AppTsx.on_webrtc_signal,
         Part001.on_webrtc_video_signal, AppTsx.on_webrtc_video_signal,
         new_RTCPeerConnection, negotiating, signal_channel.
  rewrite !bool_decide_eq_true_2 by exact Hready. rewrite Hoffer.
  destruct_state st. cbn in Hmode. subst vid. simpl;
    state_simpl; rewrite ?alter_new; cbn [pc_set_senders pc_set_handlers
      pc_set_localDescription iceServers connectionState iceConnectionState
      localDescription remoteDescription senders remoteCandidates handlers];
    rewrite ?lookup_new; cbn [mbind option_bind localDescription];
    rewrite ?lookup_insert_eq; repeat split.
Qed.

(** X8: a [ready] message starts the negotiation.  When capture (audio
    mode only) and the offer succeed, the handler of the mode stores the
    sender of the message as the peer, creates one connection with the
    endpoints of the variant, gives it the local tracks (none in video
    mode) and the offer as local description, stores it in [pcRef], and
    sends exactly one message: the offer, to the sender, on the channel of
    the mode.  [isCallActive] and the mode are not touched. *)
Theorem ready_starts_negotiation
    (o : Oracle) (from sdp : string) (data : SignalData) (st : State) :
  data_type data = Some "ready" -> createOffer o = Resolved sdp ->
  (isVideoCall st = false -> forall stream, getUserMedia o = Resolved stream ->
     started st from sdp false Part001.ice_servers (getTracks stream)
       (Part001.on_webrtc_signal o from data st)
     /\ started st from sdp false AppTsx.ice_servers (getTracks stream)
          (AppTsx.on_webrtc_signal o from data st))
  /\ (isVideoCall st = true ->
        started st from sdp true Part001.ice_servers []
          (Part001.on_webrtc_video_signal o from data st)
        /\ started st from sdp true AppTsx.ice_servers []
             (AppTsx.on_webrtc_video_signal o from data st)).
Proof.
  intros Hready Hoffer. split.
  - intros Hmode stream Hcapture.
    exact (ready_audio_started o from sdp data stream st Hready Hoffer Hmode Hcapture).
  - intros Hmode.
    exact (ready_video_started o from sdp data st Hready Hoffer Hmode).
Qed.

Lemma ready_starts_negotiation_witness :
  started (Part001.startVideoCall initial) "p1" "v=0 offer" true Part001.ice_servers []
    (Part001.on_webrtc_video_signal Sample.granted "p1" Sample.ready
       (Part001.startVideoCall initial)).
Proof.
  destruct (ready_starts_negotiation Sample.granted "p1" "v=0 offer" Sample.ready
              (Part001.startVideoCall initial)) as [_ H].
  - reflexivity.
  - reflexivity.
  - destruct (H eq_refl) as [H1 _]. exact H1.
Defined.

End Signalling.

(** ** Hanging up *)

Section HangUp.

(** What [endCall] sends. *)
Lemma endCall_emitted st :
  emitted (endCall st)
  = emitted st
    ++ match pcRef st with
       | Some p =>
           [(end_event (isVideoCall st),
             to_peer match current_pc st ≫= remoteDescription with
                     | Some d =>
                         if nonempty (sd_type d)
                         then default "" (sessionStorage st !! "dashcam-socket-id")
                         else ""
                     | None => ""
                     end)]
       | None => []
       end.
Proof.
  destruct st as [[p|] ? ? [ls|] ? ? ? [|] ? ? ? ? ? ? ? ?];
    cbn; rewrite ?app_nil_r; reflexivity.
Qed.

(** An applied answer, seen from the state. *)
Lemma Part001_on_answer_applied catch shown o data p pc st :
  pcRef st = Some p -> pcs st !! p = Some pc ->
  setRemoteDescription o = Resolved () ->
  let st1 := Part001.on_answer catch shown o data st in
  current_pc st1 ≫= remoteDescription
  = Some {| sd_type := "answer"; sd_sdp := data_sdp data |}
  /\ pcRef st1 = Some p /\ sessionStorage st1 = sessionStorage st
  /\ isVideoCall st1 = isVideoCall st /\ emitted st1 = emitted st.
Proof.
  intros Hp Hpc Hset. unfold Part001.on_answer. rewrite Hp, Hset. cbv zeta.
  rewrite current_pc_setCallStatus, (current_pc_update p _ pc st Hp Hpc).
  repeat split. exact Hp.
Qed.

Lemma AppTsx_on_answer_applied catch shown o data p pc st :
  pcRef st = Some p -> pcs st !! p = Some pc ->
  setRemoteDescription o = Resolved () ->
  let st1 := AppTsx.on_answer catch shown o data st in
  current_pc st1 ≫= remoteDescription
  = Some {| sd_type := "answer"; sd_sdp := data_sdp data |}
  /\ pcRef st1 = Some p /\ sessionStorage st1 = sessionStorage st
  /\ isVideoCall st1 = isVideoCall st /\ emitted st1 = emitted st.
Proof.
  intros Hp Hpc Hset. unfold AppTsx.on_answer. rewrite Hp, Hset. cbv zeta.
  rewrite current_pc_setCallStatus, (current_pc_update p _ pc st Hp Hpc).
  repeat split. exact Hp.
Qed.

Lemma started_hangup st from sdp video servers tracks st1 :
  started st from sdp video servers tracks st1 ->
  emitted (endCall st1) = emitted st1 ++ [(end_event video, to_peer "")].
Proof.
  intros (_ & Hp & Hpcs & _ & _ & _ & Hv).
  rewrite endCall_emitted, Hp, Hv. unfold current_pc. rewrite Hp. cbn [mbind option_bind].
  rewrite Hpcs, lookup_new. reflexivity.
Qed.

Lemma answered_hangup st1 st2 from video p sdp :
  sessionStorage st1 !! "dashcam-socket-id" = Some from ->
  isVideoCall st1 = video ->
  current_pc st2 ≫= remoteDescription
  = Some {| sd_type := "answer"; sd_sdp := sdp |} ->
  pcRef st2 = Some p -> sessionStorage st2 = sessionStorage st1 ->
  isVideoCall st2 = isVideoCall st1 ->
  emitted (endCall st2) = emitted st2 ++ [(end_event video, to_peer from)].
Proof.
  intros Hs Hv Hd Hp Hs2 Hv2.
  rewrite endCall_emitted, Hp, Hv2, Hv, Hs2, Hs, Hd. reflexivity.
Qed.

(** X9: whom a hang-up is addressed to.  After a [ready] from a peer the
    peer's id is stored, but a hang-up before any answer is applied is
    addressed to the empty string; once the answer is applied, the
    hang-up is addressed to the peer that sent [ready], on the end event
    of the mode. *)
Theorem hangup_addresses_the_peer
    (o : Oracle) (from from' sdp : string) (ready answer : SignalData) (st : State) :
  data_type ready = Some "ready" -> data_type answer = Some "answer" ->
  createOffer o = Resolved sdp -> setRemoteDescription o = Resolved () ->
  let addressed (handler : Oracle -> string -> SignalData -> State -> State)
                (video : bool) :=
    let st1 := handler o from ready st in
    let st2 := handler o from' answer st1 in
    emitted (endCall st1) = emitted st1 ++ [(end_event video, to_peer "")]
    /\ emitted (endCall st2) = emitted st2 ++ [(end_event video, to_peer from)] in
  (isVideoCall st = false -> forall stream, getUserMedia o = Resolved stream ->
     addressed Part001.on_webrtc_signal false
     /\ addressed AppTsx.on_webrtc_signal false)
  /\ (isVideoCall st = true ->
        addressed Part001.on_webrtc_video_signal true
        /\ addressed AppTsx.on_webrtc_video_signal true).
Proof.
  intros Hready Hanswer Hoffer Hset. cbv zeta.
  pose proof (fun Hmode stream Hcapture =>
                ready_audio_started o from sdp ready stream st Hready Hoffer Hmode Hcapture)
    as Haudio.
  pose proof (ready_video_started o from sdp ready st Hready Hoffer) as Hvideo.
  assert (Hafter : forall video servers tracks st1 st2,
            started st from sdp video servers tracks st1 ->
            (forall p pc, pcRef st1 = Some p -> pcs st1 !! p = Some pc ->
               current_pc st2 ≫= remoteDescription
               = Some {| sd_type := "answer"; sd_sdp := data_sdp answer |}
               /\ pcRef st2 = Some p /\ sessionStorage st2 = sessionStorage st1
               /\ isVideoCall st2 = isVideoCall st1 /\ emitted st2 = emitted st1) ->
            emitted (endCall st1) = emitted st1 ++ [(end_event video, to_peer "")]
            /\ emitted (endCall st2) = emitted st2 ++ [(end_event video, to_peer from)]).
  { intros video servers tracks st1 st2 S Hans.
    split; [eapply started_hangup, S|].
    destruct S as (Hs & Hp & Hpcs & _ & _ & _ & Hv).
    destruct (Hans _ _ Hp ltac:(rewrite Hpcs; apply lookup_new))
      as (A1 & A2 & A3 & A4 & A5).
    eapply answered_hangup; eauto. }
  destruct (signal_answer o from' answer
              (Part001.on_webrtc_signal o from ready st) Hanswer) as (E1 & _).
  destruct (signal_answer o from' answer
              (Part001.on_webrtc_video_signal o from ready st) Hanswer) as (_ & E2 & _).
  destruct (signal_answer o from' answer
              (AppTsx.on_webrtc_signal o from ready st) Hanswer) as (_ & _ & E3 & _).
  destruct (signal_answer o from' answer
              (AppTsx.on_webrtc_video_signal o from ready st) Hanswer) as (_ & _ & _ & E4).
  split.
  - intros Hmode stream Hmic. destruct (Haudio Hmode stream Hmic) as [S1 S2].
    split; (eapply Hafter; [eassumption|]).
    + pose proof S1 as (_ & _ & _ & _ & _ & _ & Hv). rewrite Hv in E1. rewrite E1.
      intros p pc Hp Hpc. apply (Part001_on_answer_applied _ _ _ _ p pc); assumption.
    + pose proof S2 as (_ & _ & _ & _ & _ & _ & Hv). rewrite Hv in E3. rewrite E3.
      intros p pc Hp Hpc. apply (AppTsx_on_answer_applied _ _ _ _ p pc); assumption.
  - intros Hmode. destruct (Hvideo Hmode) as [S1 S2].
    split; (eapply Hafter; [eassumption|]).
    + pose proof S1 as (_ & _ & _ & _ & _ & _ & Hv). rewrite Hv in E2. rewrite E2.
      intros p pc Hp Hpc. apply (Part001_on_answer_applied _ _ _ _ p pc); assumption.
    + pose proof S2 as (_ & _ & _ & _ & _ & _ & Hv). rewrite Hv in E4. rewrite E4.
      intros p pc Hp Hpc. apply (AppTsx_on_answer_applied _ _ _ _ p pc); assumption.
Qed.

Lemma hangup_addresses_the_peer_witness :
  let st := Part001.startVideoCall initial in
  let st1 := Part001.on_webrtc_video_signal Sample.granted "p1" Sample.ready st in
  let st2 := Part001.on_webrtc_video_signal Sample.granted "p1" Sample.answer st1 in
  emitted (endCall st1) = emitted st1 ++ [("end-video-call", to_peer "")]
  /\ emitted (endCall st2) = emitted st2 ++ [("end-video-call", to_peer "p1")].
Proof.
  cbv zeta.
  destruct (hangup_addresses_the_peer Sample.granted "p1" "p1" "v=0 offer"
              Sample.ready Sample.answer (Part001.startVideoCall initial)) as [_ H].
  - reflexivity.
  - reflexivity.
  - reflexivity.
  - reflexivity.
  - destruct (H eq_refl) as [H1 _]. exact H1.
Defined.

End HangUp.

(** ** More on the connection events *)

Section ConnectionEvents.

Lemma alter_insert {A : Type} (f : A -> A) (l : list A) (i : nat) (x : A) :
  l !! i = Some x -> alter f i l = <[i := f x]> l.
Proof.
  intros Hx. apply list_eq. intros j. destruct (decide (j = i)) as [->|Hne].
  - rewrite list_lookup_alter_eq, Hx. simpl. symmetry.
    apply list_lookup_insert_eq. eapply lookup_lt_Some, Hx.
  - rewrite list_lookup_alter_ne, list_lookup_insert_ne by congruence. reflexivity.
Qed.

(** A state event on an open connection that has its handlers. *)
Lemma pc_state_event_open p f k pc cl st :
  pcs st !! p = Some pc -> connectionState pc <> st_closed -> handlers pc = Some cl ->
  pc_state_event p f k st = k cl (set_pcs (<[p := f pc]> (pcs st)) st).
Proof.
  intros Hp Hopen Hh. unfold pc_state_event. rewrite Hp, Hh.
  destruct (connectionState pc) eqn:Hs; try congruence; cbn [is_closed];
    unfold update_pc; rewrite (alter_insert f _ _ _ Hp); reflexivity.
Qed.

Lemma lookup_set_pcs_insert p (pc : RTCPeerConnection) st :
  p < length (pcs st) -> pcs (set_pcs (<[p := pc]> (pcs st)) st) !! p = Some pc.
Proof. intros H. cbn [pcs set_pcs]. destruct st. apply list_lookup_insert_eq, H. Qed.

(** X10: a report of a connection state other than [failed] only changes
    the status text: ["<Mode> connected"] for [connected],
    ["<Mode> connecting... (<state>)"] for any other state.  In particular
    a report of [disconnected] keeps the call active and sends nothing, in
    both variants. *)
Theorem non_failure_reports_only_change_status
    (p : nat) (pc : RTCPeerConnection) (cl : Closure)
    (s : RTCPeerConnectionState) (st : State) :
  pcs st !! p = Some pc -> connectionState pc <> st_closed -> handlers pc = Some cl ->
  s <> st_failed ->
  let st' := setCallStatus (connection_status (cl_isVideoCall cl) s)
               (set_pcs (<[p := pc_set_connectionState s pc]> (pcs st)) st) in
  Part001.connectionstatechange p s st = st'
  /\ AppTsx.connectionstatechange p s st = st'
  /\ isCallActive st' = isCallActive st /\ emitted st' = emitted st
  /\ pcRef st' = pcRef st /\ localStreamRef st' = localStreamRef st.
Proof.
  intros Hp Hopen Hh Hs. cbv zeta.
  assert (Hlt : p < length (pcs st)) by (eapply lookup_lt_Some, Hp).
  unfold Part001.connectionstatechange, AppTsx.connectionstatechange.
  rewrite !(pc_state_event_open p _ _ pc cl st Hp Hopen Hh).
  destruct (cl_isVideoCall cl);
    unfold Part001.audio_onconnectionstatechange, Part001.video_onconnectionstatechange,
           AppTsx.audio_onconnectionstatechange, AppTsx.video_onconnectionstatechange;
    rewrite !(lookup_set_pcs_insert p _ st Hlt);
    destruct s; try congruence; repeat split.
Qed.

Lemma non_failure_reports_only_change_status_witness :
  callStatus (Part001.connectionstatechange 0 st_disconnected Sample.in_call)
  = "Audio connecting... (disconnected)"
  /\ isCallActive (Part001.connectionstatechange 0 st_disconnected Sample.in_call) = true.
Proof.
  destruct (non_failure_reports_only_change_status 0
              {| iceServers := Part001.ice_servers;
                 connectionState := st_connected;
                 iceConnectionState := ice_new;
                 localDescription := Some {| sd_type := "offer"; sd_sdp := "v=0 offer" |};
                 remoteDescription := Some {| sd_type := "answer"; sd_sdp := "v=0 answer" |};
                 senders := getTracks Sample.mic;
                 remoteCandidates := [];
                 handlers := Some {| cl_from := "p1"; cl_isVideoCall := false |} |}
              {| cl_from := "p1"; cl_isVideoCall := false |}
              st_disconnected Sample.in_call) as (H1 & _ & H3 & _).
  - reflexivity.
  - discriminate.
  - reflexivity.
  - discriminate.
  - rewrite H1. split; reflexivity.
Defined.

(** What the ICE handlers of [part_001] do. *)
Lemma Part001_ice_handler (video : bool) (from : string) (p : nat)
    (pc : RTCPeerConnection) (st : State) :
  pcs st !! p = Some pc ->
  (if video then Part001.video_oniceconnectionstatechange from p st
   else Part001.audio_oniceconnectionstatechange from p st)
  = match iceConnectionState pc with
    | ice_failed | ice_disconnected =>
        emit (ended_event video) (to_peer from)
          (setIsCallActive false (setCallStatus "ICE connection failed" st))
    | _ => st
    end.
Proof.
  intros Hp.
  unfold Part001.video_oniceconnectionstatechange,
         Part001.audio_oniceconnectionstatechange.
  rewrite Hp. cbn [fmap option_fmap option_map].
  destruct video, (iceConnectionState pc); reflexivity.
Qed.

End ConnectionEvents.

(** ** The ICE state *)

Section IceEvents.

(** X11: the ICE state.  In [part_001] a report of ICE state [failed] or
    [disconnected] sets the status ["ICE connection failed"], marks the
    call inactive and sends the end notification of the mode to the peer;
    any other ICE state changes nothing but the state of the connection.
    A failure that the engine reports on both levels therefore sends the
    notification twice.  App.tsx does not observe the ICE state. *)
Theorem ice_failure_ends_the_call
    (p : nat) (pc : RTCPeerConnection) (cl : Closure)
    (s : RTCIceConnectionState) (st : State) :
  pcs st !! p = Some pc -> connectionState pc <> st_closed -> handlers pc = Some cl ->
  let notification := (ended_event (cl_isVideoCall cl), to_peer (cl_from cl)) in
  let moved := set_pcs (<[p := pc_set_iceConnectionState s pc]> (pcs st)) st in
  Part001.iceconnectionstatechange p s st
  = match s with
    | ice_failed | ice_disconnected =>
        emit notification.1 notification.2
          (setIsCallActive false (setCallStatus "ICE connection failed" moved))
    | _ => moved
    end
  /\ (forall o, AppTsx.handle o (pc_iceconnectionstatechange p s) st = moved)
  /\ emitted (Part001.connectionstatechange p st_failed
                (Part001.iceconnectionstatechange p ice_failed st))
     = emitted st ++ [notification; notification].
Proof.
  intros Hp Hopen Hh. cbv zeta.
  assert (Hlt : p < length (pcs st)) by (eapply lookup_lt_Some, Hp).
  assert (Hice : forall s',
    Part001.iceconnectionstatechange p s' st
    = match s' with
      | ice_failed | ice_disconnected =>
          emit (ended_event (cl_isVideoCall cl)) (to_peer (cl_from cl))
            (setIsCallActive false
               (setCallStatus "ICE connection failed"
                  (set_pcs (<[p := pc_set_iceConnectionState s' pc]> (pcs st)) st)))
      | _ => set_pcs (<[p := pc_set_iceConnectionState s' pc]> (pcs st)) st
      end).
  { intros s'. unfold Part001.iceconnectionstatechange.
    rewrite (pc_state_event_open p _ _ pc cl st Hp Hopen Hh).
    pose proof (lookup_set_pcs_insert p (pc_set_iceConnectionState s' pc) st Hlt) as Hnew.
    destruct (cl_isVideoCall cl).
    - rewrite (Part001_ice_handler true (cl_from cl) p _ _ Hnew). destruct s'; reflexivity.
    - rewrite (Part001_ice_handler false (cl_from cl) p _ _ Hnew). destruct s'; reflexivity. }
  split; [apply Hice|]. split.
  - intros o. cbn [AppTsx.handle].
    apply (pc_state_event_open p _ (fun _ st => st) pc cl st Hp Hopen Hh).
  - rewrite (Hice ice_failed).
    rewrite (Part001_failed_once p (pc_set_iceConnectionState ice_failed pc) cl).
    + unfold ended_event. state_simpl. rewrite <- app_assoc. reflexivity.
    + apply (lookup_set_pcs_insert p _ st Hlt).
    + exact Hopen.
    + exact Hh.
Qed.

Lemma ice_failure_ends_the_call_witness :
  emitted (Part001.connectionstatechange 0 st_failed
             (Part001.iceconnectionstatechange 0 ice_failed Sample.in_call))
  = emitted Sample.in_call
    ++ [("call-ended", to_peer "p1"); ("call-ended", to_peer "p1")].
Proof.
  destruct (ice_failure_ends_the_call 0
              {| iceServers := Part001.ice_servers;
                 connectionState := st_connected;
                 iceConnectionState := ice_new;
                 localDescription := Some {| sd_type := "offer"; sd_sdp := "v=0 offer" |};
                 remoteDescription := Some {| sd_type := "answer"; sd_sdp := "v=0 answer" |};
                 senders := getTracks Sample.mic;
                 remoteCandidates := [];
                 handlers := Some {| cl_from := "p1"; cl_isVideoCall := false |} |}
              {| cl_from := "p1"; cl_isVideoCall := false |}
              ice_failed Sample.in_call) as (_ & _ & H).
  - reflexivity.
  - discriminate.
  - reflexivity.
  - exact H.
Defined.

End IceEvents.

(** ** Local candidates *)

Section LocalCandidates.

Lemma pc_event_open p k pc cl st :
  pcs st !! p = Some pc -> connectionState pc <> st_closed -> handlers pc = Some cl ->
  pc_event p k st = k cl st.
Proof.
  intros Hp Hopen Hh. unfold pc_event. rewrite Hp, Hh.
  destruct (connectionState pc); try congruence; reflexivity.
Qed.

(** X12: a candidate the engine discovers on an open connection is sent,
    in structured form, to the peer whose [ready] created that connection
    and on the channel of the mode it was created in, whatever
    [sessionStorage] and [pcRef] hold by then; the end of gathering (no
    candidate) sends nothing, and so does any event of a closed
    connection or of a connection without handlers. *)
Theorem local_candidates_go_to_the_ready_peer
    (o : Oracle) (p : nat) (pc : RTCPeerConnection) (st : State) :
  pcs st !! p = Some pc ->
  let sent (c : option RTCIceCandidateInit) (cl : Closure) :=
    match c with
    | Some c => emit (signal_channel (cl_isVideoCall cl)) (candidate_for (cl_from cl) c) st
    | None => st
    end in
  (forall c cl, connectionState pc <> st_closed -> handlers pc = Some cl ->
     Part001.handle o (pc_icecandidate p c) st = sent c cl
     /\ AppTsx.handle o (pc_icecandidate p c) st = sent c cl)
  /\ (forall c, connectionState pc = st_closed \/ handlers pc = None ->
        Part001.handle o (pc_icecandidate p c) st = st
        /\ AppTsx.handle o (pc_icecandidate p c) st = st).
Proof.
  intros Hp. cbv zeta. split.
  - intros c cl Hopen Hh. cbn [Part001.handle AppTsx.handle].
    rewrite !(pc_event_open p _ pc cl st Hp Hopen Hh).
    destruct (cl_isVideoCall cl), c; split; reflexivity.
  - intros c Hoff. cbn [Part001.handle AppTsx.handle]. unfold pc_event. rewrite Hp.
    destruct Hoff as [-> | ->]; [split; reflexivity|].
    destruct (is_closed (connectionState pc)); split; reflexivity.
Qed.

Lemma local_candidates_go_to_the_ready_peer_witness :
  Part001.handle Sample.granted (pc_icecandidate 0 (Some Sample.host_candidate))
    Sample.in_call
  = emit "webrtc-signal" (candidate_for "p1" Sample.host_candidate) Sample.in_call.
Proof.
  destruct (local_candidates_go_to_the_ready_peer Sample.granted 0
              {| iceServers := Part001.ice_servers;
                 connectionState := st_connected;
                 iceConnectionState := ice_new;
                 localDescription := Some {| sd_type := "offer"; sd_sdp := "v=0 offer" |};
                 remoteDescription := Some {| sd_type := "answer"; sd_sdp := "v=0 answer" |};
                 senders := getTracks Sample.mic;
                 remoteCandidates := [];
                 handlers := Some {| cl_from := "p1"; cl_isVideoCall := false |} |}
              Sample.in_call) as [H _].
  - reflexivity.
  - destruct (H (Some Sample.host_candidate) {| cl_from := "p1"; cl_isVideoCall := false |})
      as [H1 _]; [discriminate|reflexivity|exact H1].
Defined.

End LocalCandidates.

(** ** Relay errors, late timers, late tracks *)

Section Lifecycle.

(** What a render changes: the two refs, and the state of the current
    connection when the mode changed. *)
Lemma Part001_render_fields b st :
  let st' := Part001.render b st in
  pcRef st' = pcRef st /\ localStreamRef st' = localStreamRef st
  /\ stopped st' = stopped st /\ emitted st' = emitted st
  /\ timers st' = timers st /\ callStatus st' = callStatus st
  /\ isCallActive st' = isCallActive st /\ isVideoCall st' = isVideoCall st
  /\ audioRef st' = (if isCallActive st then mounted false (audioRef st) else None)
  /\ videoRef st' = (if isCallActive st && isVideoCall st
                     then mounted true (videoRef st) else None)
  /\ pcs st' = (if bool_decide (isVideoCall st = b) then pcs st
                else pcs (effect_cleanup st)).
Proof.
  unfold Part001.render, effect_cleanup. cbv zeta.
  destruct_state st.
  destruct (bool_decide (vid = b)), pc_ref; repeat split.
Qed.

Lemma AppTsx_render_fields b st :
  let st' := AppTsx.render b st in
  pcRef st' = pcRef st /\ localStreamRef st' = localStreamRef st
  /\ stopped st' = stopped st /\ emitted st' = emitted st
  /\ timers st' = timers st /\ callStatus st' = callStatus st
  /\ isCallActive st' = isCallActive st /\ isVideoCall st' = isVideoCall st
  /\ audioRef st' = mounted false (audioRef st)
  /\ videoRef st' = (if isCallActive st && isVideoCall st
                     then mounted true (videoRef st) else None)
  /\ pcs st' = (if bool_decide (isVideoCall st = b) then pcs st
                else pcs (effect_cleanup st)).
Proof.
  unfold AppTsx.render, effect_cleanup. cbv zeta.
  destruct_state st.
  destruct (bool_decide (vid = b)), pc_ref; repeat split.
Qed.

(** X13: a relay error releases nothing.  The [error] handler shows the
    message, marks the call inactive and resets the mode; it sends
    nothing, keeps [pcRef] and the local capture, and stops no track.  In
    an audio call the connections are untouched.  In a video call the mode
    changes, so the cleanup of the effect closes the current connection,
    which nevertheless stays in [pcRef]. *)
Theorem relay_error_releases_nothing (o : Oracle) (message : string) (st : State) :
  let left_behind (st' : State) :=
    callStatus st' = "Error: " +:+ message
    /\ isCallActive st' = false /\ isVideoCall st' = false
    /\ pcRef st' = pcRef st /\ localStreamRef st' = localStreamRef st
    /\ stopped st' = stopped st /\ emitted st' = emitted st
    /\ timers st' = timers st
    /\ (isVideoCall st = false -> pcs st' = pcs st)
    /\ (isVideoCall st = true -> forall p pc,
          pcRef st = Some p -> pcs st !! p = Some pc ->
          pcs st' !! p
          = Some (pc_set_iceConnectionState ice_closed
                    (pc_set_connectionState st_closed pc))) in
  left_behind (Part001.step o (socket_error message) st)
  /\ left_behind (AppTsx.step o (socket_error message) st).
Proof.
  cbv zeta.
  unfold Part001.step, AppTsx.step, Part001.render, AppTsx.render, effect_cleanup.
  cbn [Part001.handle AppTsx.handle]. unfold on_error.
  destruct_state st.
  destruct vid, pc_ref as [p|];
    rewrite ?(bool_decide_eq_true_2 (false = false)) by reflexivity;
    rewrite ?(bool_decide_eq_false_2 (false = true)) by discriminate;
    cbn; repeat split; try discriminate; try reflexivity;
    intros _ p' pc [= <-] Hpc; rewrite list_lookup_alter_eq, Hpc; reflexivity.
Qed.

Lemma delete_new {A : Type} (l : list A) (x : A) : delete (length l) (l ++ [x]) = l.
Proof. induction l as [|a l IH]; simpl; [reflexivity|]. f_equal. exact IH. Qed.

Lemma startVideoCall_fields st :
  let fields (st' : State) :=
    isCallActive st' = true /\ isVideoCall st' = true
    /\ callStatus st' = "Initiating video call via socket..."
    /\ pcRef st' = pcRef st /\ timers st' = timers st in
  fields (Part001.startVideoCall st) /\ fields (AppTsx.startVideoCall st).
Proof. destruct_state st. repeat split. Qed.

Lemma ready_timer_fires o pending delay st :
  timers st = pending ++ [(delay, status_ready)] ->
  let fired := setCallStatus "Ready to call" (set_timers pending st) in
  Part001.handle o (timer_fired (length pending)) st = fired
  /\ AppTsx.handle o (timer_fired (length pending)) st = fired.
Proof.
  intros H. cbn [Part001.handle AppTsx.handle].
  rewrite H, lookup_new, delete_new. split; reflexivity.
Qed.

(** X14: the timer of [endCall] is not tied to the call it ended.  When a
    new call is started before the timer fires, the callback still runs:
    the status reads ["Ready to call"] while the new call is active, and
    nothing else is touched. *)
Theorem ready_timer_overwrites_a_new_call (o : Oracle) (st : State) :
  let ended := endCall st in
  let due := timer_fired (length (timers st)) in
  let overwritten (restarted fired : State) :=
    isCallActive restarted = true /\ isVideoCall restarted = true
    /\ callStatus restarted = "Initiating video call via socket..."
    /\ callStatus fired = "Ready to call"
    /\ isCallActive fired = true /\ isVideoCall fired = true
    /\ emitted fired = emitted restarted /\ pcRef fired = pcRef restarted
    /\ timers fired = timers st in
  overwritten (Part001.step o click_start_video ended)
    (Part001.step o due (Part001.step o click_start_video ended))
  /\ overwritten (AppTsx.step o click_start_video ended)
       (AppTsx.step o due (AppTsx.step o click_start_video ended)).
Proof.
  cbv zeta.
  destruct (endCall_fields st) as (_ & _ & _ & _ & Hactive & _ & _ & _ & _ & Htimers).
  cbv zeta in *. revert Hactive Htimers.
  generalize (endCall st) as ended. intros ended Hactive Htimers.
  destruct (startVideoCall_fields ended) as [(P1 & P2 & P3 & P4 & P5) (A1 & A2 & A3 & A4 & A5)].
  split.
  - set (restarted := Part001.step o click_start_video ended).
    assert (Hr : isCallActive restarted = true /\ isVideoCall restarted = true
                 /\ callStatus restarted = "Initiating video call via socket..."
                 /\ timers restarted = timers st ++ [(2000, status_ready)]).
    { subst restarted. unfold Part001.step. cbn [Part001.handle]. rewrite Hactive.
      destruct (Part001_render_fields (isVideoCall ended) (Part001.startVideoCall ended))
        as (_ & _ & _ & _ & R5 & R6 & R7 & R8 & _).
      cbv zeta in *. rewrite R5, R6, R7, R8, P1, P2, P3, P5. auto. }
    destruct Hr as (H1 & H2 & H3 & H4).
    generalize dependent restarted. intros restarted H1 H2 H3 H4.
    unfold Part001.step.
    destruct (ready_timer_fires o _ _ _ H4) as [-> _].
    destruct (Part001_render_fields (isVideoCall restarted)
                (setCallStatus "Ready to call" (set_timers (timers st) restarted)))
      as (R1 & _ & _ & R4 & R5 & R6 & R7 & R8 & _).
    cbv zeta in *. rewrite R1, R4, R5, R6, R7, R8.
    destruct_state restarted. cbn in *. auto 10.
  - set (restarted := AppTsx.step o click_start_video ended).
    assert (Hr : isCallActive restarted = true /\ isVideoCall restarted = true
                 /\ callStatus restarted = "Initiating video call via socket..."
                 /\ timers restarted = timers st ++ [(2000, status_ready)]).
    { subst restarted. unfold AppTsx.step. cbn [AppTsx.handle]. rewrite Hactive.
      destruct (AppTsx_render_fields (isVideoCall ended) (AppTsx.startVideoCall ended))
        as (_ & _ & _ & _ & R5 & R6 & R7 & R8 & _).
      cbv zeta in *. rewrite R5, R6, R7, R8, A1, A2, A3, A5. auto. }
    destruct Hr as (H1 & H2 & H3 & H4).
    generalize dependent restarted. intros restarted H1 H2 H3 H4.
    unfold AppTsx.step.
    destruct (ready_timer_fires o _ _ _ H4) as [_ ->].
    destruct (AppTsx_render_fields (isVideoCall restarted)
                (setCallStatus "Ready to call" (set_timers (timers st) restarted)))
      as (R1 & _ & _ & R4 & R5 & R6 & R7 & R8 & _).
    cbv zeta in *. rewrite R1, R4, R5, R6, R7, R8.
    destruct_state restarted. cbn in *. auto 10.
Qed.

(** X15: tracks that arrive when the call is no longer active.  In
    [part_001] the render that follows an event unmounts both elements as
    soon as [isCallActive] is false, so a track that arrives then changes
    nothing, whatever its kind and the mode of the handler.  In App.tsx the
    [audio] element is always mounted: an audio track is bound to it even
    then. *)
Theorem tracks_after_the_call_went_inactive
    (o o' : Oracle) (e : Event) (mode : bool) (event : RTCTrackEvent) (st : State) :
  (isCallActive (Part001.step o e st) = false ->
     Part001.handleTrackReceived mode o' event (Part001.step o e st)
     = Part001.step o e st)
  /\ (kind (track event) = audio ->
        srcObject <$> audioRef (AppTsx.handleTrackReceived o' event (AppTsx.step o e st))
        = Some (Some {| getTracks := [track event] |})).
Proof.
  split.
  - unfold Part001.step.
    destruct (Part001_render_fields (isVideoCall st) (Part001.handle o e st))
      as (_ & _ & _ & _ & _ & _ & Hact & _ & Ha & Hv & _).
    cbv zeta in *. rewrite Hact. intros Hoff. rewrite Hoff in Ha, Hv.
    unfold Part001.handleTrackReceived. cbv zeta. rewrite Hv.
    destruct (kind (track event)); cbv iota beta; rewrite ?Ha; reflexivity.
  - intros Hk. unfold AppTsx.step.
    destruct (AppTsx_render_fields (isVideoCall st) (AppTsx.handle o e st))
      as (_ & _ & _ & _ & _ & _ & _ & _ & Ha & _).
    cbv zeta in *.
    destruct (AppTsx_audio_track o' event
                (AppTsx.render (isVideoCall st) (AppTsx.handle o e st)) Hk)
      as (_ & _ & Hbound).
    cbv zeta in Hbound.
    destruct (mounted false (audioRef (AppTsx.handle o e st))) as [el|] eqn:Hm.
    + rewrite (Hbound el) by (rewrite Ha; reflexivity). reflexivity.
    + unfold mounted in Hm. destruct (audioRef (AppTsx.handle o e st)); discriminate.
Qed.

Lemma tracks_after_the_call_went_inactive_witness :
  let failed := Part001.step Sample.granted (pc_connectionstatechange 0 st_failed)
                  Sample.in_call in
  Part001.handleTrackReceived false Sample.granted
    {| track := Sample.remote_audio; streams := [Sample.remote_stream] |} failed
  = failed.
Proof.
  cbv zeta.
  destruct (tracks_after_the_call_went_inactive Sample.granted Sample.granted
              (pc_connectionstatechange 0 st_failed) false
              {| track := Sample.remote_audio; streams := [Sample.remote_stream] |}
              Sample.in_call) as [H _].
  apply H. reflexivity.
Defined.

(** X16: the two channels are separate.  While the mode is audio, every
    message of the video channel and the remote video hang-up leave the
    state as it is; while the mode is video, the same holds for the audio
    channel.  A hang-up on the channel of the mode is [endCall]. *)
Theorem other_channel_is_ignored
    (o : Oracle) (from : string) (data : SignalData) (st : State) :
  (isVideoCall st = false ->
     Part001.on_webrtc_video_signal o from data st = st
     /\ AppTsx.on_webrtc_video_signal o from data st = st
     /\ Part001.handle o socket_video_call_ended st = st
     /\ AppTsx.handle o socket_video_call_ended st = st
     /\ Part001.handle o socket_call_ended st = endCall st
     /\ AppTsx.handle o socket_call_ended st = endCall st)
  /\ (isVideoCall st = true ->
        Part001.on_webrtc_signal o from data st = st
        /\ AppTsx.on_webrtc_signal o from data st = st
        /\ Part001.handle o socket_call_ended st = st
        /\ AppTsx.handle o socket_call_ended st = st
        /\ Part001.handle o socket_video_call_ended st = endCall st
        /\ AppTsx.handle o socket_video_call_ended st = endCall st).
Proof.
  unfold Part001.on_webrtc_video_signal, AppTsx.on_webrtc_video_signal,
         Part001.on_webrtc_signal, AppTsx.on_webrtc_signal.
  cbn [Part001.handle AppTsx.handle]. unfold on_call_ended, on_video_call_ended.
  split; intros ->; repeat split.
Qed.

Lemma other_channel_is_ignored_witness :
  Part001.on_webrtc_video_signal Sample.granted "p2" Sample.ready Sample.in_call
  = Sample.in_call.
Proof.
  destruct (other_channel_is_ignored Sample.granted "p2" Sample.ready Sample.in_call)
    as [H _].
  destruct (H eq_refl) as [H1 _]. exact H1.
Defined.

(** X17: video calls are receive-only.  Nothing the video handler does
    depends on [getUserMedia], and whatever the message and the outcomes
    of the browser calls, the handler leaves [localStreamRef] and the
    stopped tracks as they are; [startVideoCall] does the same. *)
Theorem video_calls_never_capture
    (r : Result MediaStream) (o : Oracle) (from : string) (data : SignalData)
    (st : State) :
  Part001.on_webrtc_video_signal (with_getUserMedia r o) from data st
  = Part001.on_webrtc_video_signal o from data st
  /\ AppTsx.on_webrtc_video_signal (with_getUserMedia r o) from data st
     = AppTsx.on_webrtc_video_signal o from data st
  /\ localStreamRef (Part001.on_webrtc_video_signal o from data st) = localStreamRef st
  /\ stopped (Part001.on_webrtc_video_signal o from data st) = stopped st
  /\ localStreamRef (AppTsx.on_webrtc_video_signal o from data st) = localStreamRef st
  /\ stopped (AppTsx.on_webrtc_video_signal o from data st) = stopped st
  /\ localStreamRef (Part001.startVideoCall st) = localStreamRef st
  /\ localStreamRef (AppTsx.startVideoCall st) = localStreamRef st.
Proof.
  split; [reflexivity|]. split; [reflexivity|].
  unfold Part001.on_webrtc_video_signal, AppTsx.on_webrtc_video_signal,
         Part001.on_answer, AppTsx.on_answer,
         Part001.on_candidate, AppTsx.on_candidate, new_RTCPeerConnection.
  destruct_state st.
  repeat split;
    repeat match goal with
           | |- context [match ?x with _ => _ end] => destruct x
           | |- context [if ?x then _ else _] => destruct x
           end; reflexivity.
Qed.

End Lifecycle.

(** ** What every event preserves *)

Section EveryEvent.

Lemma updateLevel_frame o stream st :
  let st' := updateLevel o stream st in
  stopped st' = stopped st /\ pcRef st' = pcRef st /\ emitted st' = emitted st
  /\ isCallActive st' = isCallActive st /\ pcs st' = pcs st.
Proof.
  unfold updateLevel. destruct (connectionState <$> current_pc st) as [[]|];
    repeat split.
Qed.

Lemma animationFrame_frame o st :
  let st' := animationFrame o st in
  stopped st' = stopped st /\ pcRef st' = pcRef st /\ emitted st' = emitted st
  /\ isCallActive st' = isCallActive st /\ pcs st' = pcs st.
Proof.
  unfold animationFrame.
  assert (H : forall q s,
            let s' := foldl (fun s stream => updateLevel o stream s) s q in
            stopped s' = stopped s /\ pcRef s' = pcRef s /\ emitted s' = emitted s
            /\ isCallActive s' = isCallActive s /\ pcs s' = pcs s).
  { induction q as [|stream q IH]; intros s; cbn [foldl]; [repeat split|].
    destruct (IH (updateLevel o stream s)) as (H1 & H2 & H3 & H4 & H5).
    destruct (updateLevel_frame o stream s) as (U1 & U2 & U3 & U4 & U5).
    cbv zeta in *. rewrite H1, H2, H3, H4, H5. repeat split; assumption. }
  apply (H (rafQueue st) (set_rafQueue [] st)).
Qed.







(** X19: an event sends at most one message.  For every event, what was
    emitted before is still there, in order, followed by at most one new
    message. *)
Theorem at_most_one_message_per_event (o : Oracle) (e : Event) (st : State) :
  (exists sent, emitted (Part001.step o e st) = emitted st ++ sent /\ length sent <= 1)
  /\ (exists sent, emitted (AppTsx.step o e st) = emitted st ++ sent /\ length sent <= 1).
Proof.
  unfold Part001.step, AppTsx.step.
  destruct (Part001_render_fields (isVideoCall st) (Part001.handle o e st))
    as (_ & _ & _ & P4 & _).
  destruct (AppTsx_render_fields (isVideoCall st) (AppTsx.handle o e st))
    as (_ & _ & _ & A4 & _).
  cbv zeta in *. rewrite P4, A4. clear P4 A4.
  split.
  - destruct e; cbn [Part001.handle];
      try (destruct (animationFrame_frame o st) as (_ & _ & H3 & _);
           cbv zeta in *; rewrite H3; one_message);
      try (unfold on_call_ended, on_video_call_ended;
           break_match; try rewrite endCall_emitted; break_match; one_message);
      destruct_state st; repeat progress (unfold_handlers; break_match; cbn); one_message.
  - destruct e; cbn [AppTsx.handle];
      try (destruct (animationFrame_frame o st) as (_ & _ & H3 & _);
           cbv zeta in *; rewrite H3; one_message);
      try (unfold on_call_ended, on_video_call_ended;
           break_match; try rewrite endCall_emitted; break_match; one_message);
      destruct_state st; repeat progress (unfold_handlers; break_match; cbn); one_message.
Qed.

(** X20: a call becomes active only by a start click, and the mode
    changes only by a start click, a hang-up or a relay error.  For every
    other event an inactive call stays inactive and [isVideoCall] keeps its
    value; in particular an unsolicited [ready] is negotiated without the
    call becoming active. *)
Theorem activation_and_mode_are_stable (o : Oracle) (e : Event) (st : State) :
  is_start e = false ->
  (isCallActive st = false -> isCallActive (Part001.step o e st) = false
                              /\ isCallActive (AppTsx.step o e st) = false)
  /\ (is_hang_up e = false -> (forall m, e <> socket_error m) ->
        isVideoCall (Part001.step o e st) = isVideoCall st
        /\ isVideoCall (AppTsx.step o e st) = isVideoCall st).
Proof.
  intros He. unfold Part001.step, AppTsx.step.
  destruct (Part001_render_fields (isVideoCall st) (Part001.handle o e st))
    as (_ & _ & _ & _ & _ & _ & P7 & P8 & _).
  destruct (AppTsx_render_fields (isVideoCall st) (AppTsx.handle o e st))
    as (_ & _ & _ & _ & _ & _ & A7 & A8 & _).
  cbv zeta in *. rewrite P7, P8, A7, A8. clear P7 P8 A7 A8.
  assert (Hframe : isCallActive (animationFrame o st) = isCallActive st
                   /\ isVideoCall (animationFrame o st) = isVideoCall st).
  { unfold animationFrame.
    assert (H : forall q s,
              isCallActive (foldl (fun s stream => updateLevel o stream s) s q)
              = isCallActive s
              /\ isVideoCall (foldl (fun s stream => updateLevel o stream s) s q)
                 = isVideoCall s).
    { induction q as [|stream q IH]; intros s; cbn [foldl]; [auto|].
      destruct (IH (updateLevel o stream s)) as [-> ->].
      unfold updateLevel. break_match; auto. }
    apply (H (rafQueue st) (set_rafQueue [] st)). }
  destruct Hframe as [F1 F2].
  split.
  - intros Hoff.
    destruct e; try discriminate He; cbn [Part001.handle AppTsx.handle];
      rewrite ?F1; auto;
      unfold endCall; destruct_state st; subst;
      repeat progress (unfold_handlers; break_match; cbn); auto.
  - intros Hh Herr.
    destruct e; try discriminate He; try discriminate Hh;
      try (exfalso; eapply Herr; reflexivity);
      cbn [Part001.handle AppTsx.handle];
      rewrite ?F2; auto;
      destruct_state st; repeat progress (unfold_handlers; break_match; cbn); auto.
Qed.

Lemma activation_and_mode_are_stable_witness :
  isCallActive (Part001.step Sample.granted (socket_signal "p1" Sample.ready) initial)
  = false.
Proof.
  destruct (activation_and_mode_are_stable Sample.granted
              (socket_signal "p1" Sample.ready) initial) as [H _].
  - reflexivity.
  - destruct (H eq_refl) as [H1 _]. exact H1.
Defined.

End EveryEvent.

(** ** The capture of [startAudioCall] *)

Section FirstCapture.

(** X21: in [part_001] the microphone is opened twice, and the first
    capture is never released.  [startAudioCall] stores its stream in
    [localStreamRef]; the [ready] branch captures again, gives the second
    stream to the connection and stores it over the first.  A hang-up then
    stops the tracks of the second stream only: a track of the first one
    that is not a track of the second stays live. *)
Theorem first_capture_is_never_released
    (o1 o2 : Oracle) (first second : MediaStream) (from : string)
    (data : SignalData) (st : State) :
  getUserMedia o1 = Resolved first -> getUserMedia o2 = Resolved second ->
  data_type data = Some "ready" ->
  let calling := Part001.startAudioCall o1 st in
  let offered := Part001.on_webrtc_signal o2 from data calling in
  localStreamRef calling = Some first
  /\ isVideoCall calling = false
  /\ localStreamRef offered = Some second
  /\ senders <$> current_pc offered = Some (getTracks second)
  /\ stopped offered = stopped st
  /\ stopped (endCall offered)
     = stopped st ∪ list_to_set (track_id <$> getTracks second)
  /\ forall t, t ∈ getTracks first ->
       track_id t ∉ stopped st ->
       track_id t ∉ (track_id <$> getTracks second) ->
       track_id t ∉ stopped (endCall offered).
Proof.
  intros H1 H2 Hready. cbv zeta.
  assert (Hstopped :
    stopped (endCall (Part001.on_webrtc_signal o2 from data (Part001.startAudioCall o1 st)))
    = stopped st ∪ list_to_set (track_id <$> getTracks second)).
  { unfold Part001.startAudioCall, Part001.on_webrtc_signal, new_RTCPeerConnection,
           Part001.audio_catch.
    rewrite H1. cbn [isVideoCall setIsVideoCall]. rewrite H2.
    rewrite !bool_decide_eq_true_2 by exact Hready.
    destruct_state st. destruct (createOffer o2); reflexivity. }
  unfold Part001.startAudioCall, Part001.on_webrtc_signal, new_RTCPeerConnection,
         Part001.audio_catch in *.
  rewrite H1 in *. cbn [isVideoCall setIsVideoCall] in *. rewrite H2 in *.
  rewrite !bool_decide_eq_true_2 in * by exact Hready.
  split; [reflexivity|]. split; [reflexivity|]. split.
  { destruct (createOffer o2); reflexivity. }
  split.
  { unfold current_pc. destruct_state st.
    destruct (createOffer o2); cbn; rewrite ?alter_new; cbn;
      rewrite lookup_new; reflexivity. }
  split.
  { destruct (createOffer o2); reflexivity. }
  split; [exact Hstopped|].
  intros t Hin Hlive Hother. rewrite Hstopped.
  rewrite elem_of_union, elem_of_list_to_set. tauto.
Qed.

Lemma first_capture_is_never_released_witness :
  stopped (endCall (Part001.on_webrtc_signal
                      (with_getUserMedia (Resolved Sample.second_mic) Sample.granted)
                      "p1" Sample.ready
                      (Part001.startAudioCall Sample.granted initial)))
  = stopped initial ∪ list_to_set (track_id <$> getTracks Sample.second_mic).
Proof.
  destruct (first_capture_is_never_released Sample.granted
              (with_getUserMedia (Resolved Sample.second_mic) Sample.granted)
              Sample.mic Sample.second_mic "p1" Sample.ready initial
              eq_refl eq_refl eq_refl) as (_ & _ & _ & _ & _ & H & _).
  exact H.
Defined.

End FirstCapture.

(** ** Manual playback *)

Section ManualPlay.

(** X22: when the browser refuses the manual [play] of the audio element,
    [App.tsx] still announces "Audio enabled", because it sets the status
    without waiting for the promise, while [part_001] shows the error
    message; the video click reports the refusal in both files.  None of
    the four click handlers touches the call. *)
Theorem refused_manual_play (o : Oracle) (name message : string) (st : State) :
  play_audio o = Rejected name message ->
  play_video o = Rejected name message ->
  (audioRef st <> None ->
     callStatus (AppTsx.handleAudioClick o st) = "Audio enabled"
     /\ callStatus (Part001.handleAudioClick o st) = "Audio play error: " +:+ message)
  /\ (videoRef st <> None ->
     callStatus (AppTsx.handleVideoClick o st) = "Video play failed"
     /\ callStatus (Part001.handleVideoClick o st) = "Video play error: " +:+ message)
  /\ same_session st (AppTsx.handleAudioClick o st)
  /\ same_session st (Part001.handleAudioClick o st)
  /\ same_session st (AppTsx.handleVideoClick o st)
  /\ same_session st (Part001.handleVideoClick o st).
Proof.
  intros Ha Hv.
  unfold AppTsx.handleAudioClick, Part001.handleAudioClick,
         AppTsx.handleVideoClick, Part001.handleVideoClick, same_session.
  rewrite Ha, Hv. destruct_state st.
  destruct a_ref, v_ref; cbn; repeat split; congruence.
Qed.

Lemma refused_manual_play_witness :
  callStatus (AppTsx.handleAudioClick Sample.autoplay_blocked Sample.in_call_app) = "Audio enabled"
  /\ callStatus (Part001.handleAudioClick Sample.autoplay_blocked Sample.in_call)
     = "Audio play error: play() failed".
Proof.
  destruct (refused_manual_play Sample.autoplay_blocked "NotAllowedError" "play() failed"
              Sample.in_call_app eq_refl eq_refl) as [H _].
  destruct (refused_manual_play Sample.autoplay_blocked "NotAllowedError" "play() failed"
              Sample.in_call eq_refl eq_refl) as [H' _].
  split; [apply H | apply H']; discriminate.
Defined.

End ManualPlay.
